(** * bare_metal_tetris: a shallow embedding of [kernel.c]

    The kernel is one C file.  Its drivers (keyboard, timer, frame store)
    and the game functions are embedded below as Rocq functions over
    explicit state:

    - C integers are [Z]; the few places where a narrower type is assigned
      ([short], [uint8_t], [unsigned short]) carry their reduction;
    - arrays are lists, read with [!!!] and written with [<[ i := v ]>];
      an access outside an array is undefined in C and is modelled by
      [None];
    - port writes ([outb]) and writes to the memory-mapped display are
      logged in the order they are issued. *)

From Stdlib Require Import ZArith Lia List Ascii.
From stdpp Require Import base option list numbers.

Local Open Scope Z_scope.

(** ** Keyboard driver ([scancode_table], [read_keyb]) *)

(** Code of a character constant, as C's [char] holds it. *)
Definition chr (c : ascii) : Z := Z.of_nat (nat_of_ascii c).

(** The initialiser lists 58 entries; C zero-fills the remaining 70. *)
Definition scancode_table : list Z :=
  [ 0; 27; chr "1"; chr "2"; chr "3"; chr "4"; chr "5"; chr "6"; chr "7";
    chr "8"; chr "9"; chr "0"; chr "-"; chr "="; 8;
    9; chr "q"; chr "w"; chr "e"; chr "r"; chr "t"; chr "y"; chr "u";
    chr "i"; chr "o"; chr "p"; chr "["; chr "]"; 10; 0;
    chr "a"; chr "s"; chr "d"; chr "f"; chr "g"; chr "h"; chr "j"; chr "k";
    chr "l"; chr ";"; 39 (* quote *); chr "`"; 0; 92 (* backslash *);
    chr "z"; chr "x"; chr "c"; chr "v"; chr "b"; chr "n"; chr "m"; chr ",";
    chr "."; chr "/"; 0; chr "*"; 0; chr " " ]
  ++ replicate 70 0.

(** The three file-scope variables of the driver.  [scancode] is a
    [uint8_t] written by the interrupt handler, 0 when nothing is
    pending. *)
Record keyboard := Keyboard {
  scancode : Z;
  keyb_char : Z;
  keyb_pressed : Z
}.

Definition read_keyb (k : keyboard) : keyboard :=
  let sc := scancode k in
  let '(pressed, sc) :=
    if negb (Z.land sc 0x80 =? 0) then (0, Z.land sc 0x7F)
    else if Z.land sc 0x80 =? 0 then (1, sc)
    else (0, sc) in
  let ch :=
    if (0 <? sc) && (sc <=? 127) then scancode_table !!! Z.to_nat sc else 0 in
  {| scancode := 0; keyb_char := ch; keyb_pressed := pressed |}.

(** What a pending byte decodes to: the release bit decides the flag, the
    low seven bits pick the character.  [read_keyb] is compared with it
    below. *)
Definition decoded (sc : Z) : keyboard :=
  {| scancode := 0;
     keyb_char := scancode_table !!! Z.to_nat (Z.land sc 0x7F);
     keyb_pressed := if Z.testbit sc 7 then 0 else 1 |}.

Definition keyboard_eqb (a b : keyboard) : bool :=
  (scancode a =? scancode b) && (keyb_char a =? keyb_char b)
  && (keyb_pressed a =? keyb_pressed b).

(** ** Timer driver ([pit_set_frequency]) *)

Definition PIT_CHANNEL0 : Z := 0x40.
Definition PIT_CMD : Z := 0x43.
Definition PIT_BASE_HZ : Z := 1193182.

(** A port write: port number and byte. *)
Definition outb (port val : Z) (io : list (Z * Z)) : list (Z * Z) :=
  io ++ [(port, val)].

(** [hz] is a [uint32_t]; on 0 <= hz the quotient [/] of [Z] is C's
    unsigned division.  The port writes are appended to [io]. *)
Definition pit_set_frequency (hz : Z) (io : list (Z * Z)) : list (Z * Z) :=
  if hz =? 0 then io
  else
    let divisor := PIT_BASE_HZ / hz in
    let divisor := if divisor =? 0 then 1 else divisor in
    let lo := Z.land divisor 0xFF in
    let hi := Z.land (Z.shiftr divisor 8) 0xFF in
    let io := outb PIT_CMD 0x34 io in
    let io := outb PIT_CHANNEL0 lo io in
    outb PIT_CHANNEL0 hi io.

(** ** Frame store ([curr_frame], [next_frame], [draw_next_frame]) *)

(** Conversions on assignment to a 16-bit object.  A value outside the
    range of [short] is reduced modulo 2^16, as gcc does. *)
Definition to_short (z : Z) : Z := (z + 32768) mod 65536 - 32768.
Definition to_ushort (z : Z) : Z := z mod 65536.

(** The two 2000-cell buffers, and the stores made through the [VGA]
    pointer: cell index and value, oldest first. *)
Record video := Video {
  curr_frame : list Z;
  next_frame : list Z;
  VGA : list (nat * Z)
}.

(** Body of the loop of [draw_next_frame] at index [i]. *)
Definition draw_cell (v : video) (i : nat) : video :=
  if negb (curr_frame v !!! i =? next_frame v !!! i) then
    let curr := <[ i := next_frame v !!! i ]> (curr_frame v) in
    {| curr_frame := curr;
       next_frame := next_frame v;
       VGA := VGA v ++ [(i, to_ushort (curr !!! i))] |}
  else v.

Definition draw_next_frame (v : video) : video :=
  foldl draw_cell v (seq 0 2000).

(** The cells among [js] where the shown buffer differs from the desired
    one. *)
Definition changed_cells (curr next : list Z) (js : list nat) : list nat :=
  List.filter (fun i => negb (curr !!! i =? next !!! i)) js.

(** ** Playfield and pieces *)

Definition GRID_SIZE_X : Z := 10.
Definition GRID_SIZE_Y : Z := 20.

Definition PIECE_LINE : Z := 0.
Definition PIECE_L : Z := 1.
Definition PIECE_REVERSE_L : Z := 2.
Definition PIECE_SQUARE : Z := 3.
Definition PIECE_5 : Z := 4.
Definition PIECE_S : Z := 5.
Definition PIECE_T : Z := 6.

Definition MOVE_DOWN : Z := 0.
Definition MOVE_LEFT : Z := 1.
Definition MOVE_RIGHT : Z := 2.

(** One row [{x, y}] of [int tetrominoe[4][2]]. *)
Definition cell : Type := Z * Z.

Record tetrominoe := Tet { t0 : cell; t1 : cell; t2 : cell; t3 : cell }.

Definition cells (t : tetrominoe) : list cell := [t0 t; t1 t; t2 t; t3 t].

(** [int grid[GRID_SIZE_X][GRID_SIZE_Y]] is 200 ints, [grid[x][y]] being
    the one at offset [x * GRID_SIZE_Y + y]. *)
Abbreviation playfield := (list Z).

Definition wf_grid (g : playfield) : Prop := length g = 200%nat.

Definition empty_grid : playfield := replicate 200 0.

Definition in_grid (c : cell) : bool :=
  (0 <=? c.1) && (c.1 <? GRID_SIZE_X) && (0 <=? c.2) && (c.2 <? GRID_SIZE_Y).

Definition idx (c : cell) : nat := Z.to_nat (c.1 * GRID_SIZE_Y + c.2).

(** A read of [grid[x][y]] at subscripts already known to be in range. *)
Definition grid_at (g : playfield) (c : cell) : Z := g !!! idx c.

(** A read or a write at subscripts the code does not test: outside the
    array the behaviour is undefined. *)
Definition grid_get (g : playfield) (c : cell) : option Z :=
  if in_grid c then Some (grid_at g c) else None.

Definition grid_set (g : playfield) (c : cell) (v : Z) : option playfield :=
  if in_grid c then Some (<[ idx c := v ]> g) else None.

(** C's [&&] yields 1 or 0; the result is kept as a [bool].  The four grid
    reads come after the sixteen range tests, so they are only reached
    with subscripts in range. *)
Definition check_tetrominoe_collision (t : tetrominoe) (g : playfield) : bool :=
  (0 <=? (t0 t).1) && ((t0 t).1 <? GRID_SIZE_X)
  && (0 <=? (t0 t).2) && ((t0 t).2 <? GRID_SIZE_Y)
  && (0 <=? (t1 t).1) && ((t1 t).1 <? GRID_SIZE_X)
  && (0 <=? (t1 t).2) && ((t1 t).2 <? GRID_SIZE_Y)
  && (0 <=? (t2 t).1) && ((t2 t).1 <? GRID_SIZE_X)
  && (0 <=? (t2 t).2) && ((t2 t).2 <? GRID_SIZE_Y)
  && (0 <=? (t3 t).1) && ((t3 t).1 <? GRID_SIZE_X)
  && (0 <=? (t3 t).2) && ((t3 t).2 <? GRID_SIZE_Y)
  && (grid_at g (t0 t) =? 0)
  && (grid_at g (t1 t) =? 0)
  && (grid_at g (t2 t) =? 0)
  && (grid_at g (t3 t) =? 0).

(** The [switch] has no default: another [piece] leaves the array as it
    was. *)
Definition setup_tetrominoe (t : tetrominoe) (piece offset_x : Z) : tetrominoe :=
  if piece =? PIECE_LINE then
    Tet (offset_x + 0, 1) (offset_x + 1, 1) (offset_x + 2, 1) (offset_x + 3, 1)
  else if piece =? PIECE_L then
    Tet (offset_x + 0, 0) (offset_x + 2, 1) (offset_x + 1, 0) (offset_x + 2, 0)
  else if piece =? PIECE_REVERSE_L then
    Tet (offset_x + 0, 0) (offset_x + 0, 1) (offset_x + 1, 0) (offset_x + 2, 0)
  else if piece =? PIECE_SQUARE then
    Tet (offset_x + 1, 0) (offset_x + 2, 0) (offset_x + 1, 1) (offset_x + 2, 1)
  else if piece =? PIECE_5 then
    Tet (offset_x + 1, 0) (offset_x + 2, 0) (offset_x + 0, 1) (offset_x + 1, 1)
  else if piece =? PIECE_S then
    Tet (offset_x + 0, 0) (offset_x + 1, 0) (offset_x + 1, 1) (offset_x + 2, 1)
  else if piece =? PIECE_T then
    Tet (offset_x + 0, 0) (offset_x + 1, 0) (offset_x + 2, 0) (offset_x + 1, 1)
  else t.

(** The four assignments [grid[t[i][0]][t[i][1]] = v], i = 0..3. *)
Definition set_cells (t : tetrominoe) (v : Z) (g : playfield) : option playfield :=
  g ← grid_set g (t0 t) v;
  g ← grid_set g (t1 t) v;
  g ← grid_set g (t2 t) v;
  grid_set g (t3 t) v.

(** [short block_colours[PIECE_TYPES]], set up in [tetris]. *)
Definition block_colours : list Z :=
  [0x0700; 0x0400; 0x0200; 0x0100; 0x0500; 0x0E00; 0x0300].

Definition create_tetrominoe (t : tetrominoe) (g : playfield) (colours : list Z)
    (piece : Z) : option (Z * tetrominoe * playfield) :=
  let t := setup_tetrominoe t piece 4 in
  if check_tetrominoe_collision t g then
    colour ← (if (0 <=? piece) && (piece <? 7) then colours !! Z.to_nat piece else None);
    g ← set_cells t colour g;
    Some (1, t, g)
  else Some (0, t, g).

Definition translate (dx dy : Z) (t : tetrominoe) : tetrominoe :=
  let mv (c : cell) := (c.1 + dx, c.2 + dy) in
  Tet (mv (t0 t)) (mv (t1 t)) (mv (t2 t)) (mv (t3 t)).

(** [new_tetrominoe] after the [switch] on the direction. *)
Definition moved_tetrominoe (t : tetrominoe) (direction : Z) : tetrominoe :=
  if direction =? MOVE_DOWN then translate 0 1 t
  else if direction =? MOVE_LEFT then translate (-1) 0 t
  else if direction =? MOVE_RIGHT then translate 1 0 t
  else t.

(** The coordinates are C ints.  The grid accesses at the piece's own
    cells make the call undefined unless all of them are in range, and
    then none of the increments and differences leaves the range of
    [int]; so plain [Z] arithmetic is exact wherever the result is
    [Some]. *)
Definition move_tetrominoe (t : tetrominoe) (g : playfield) (direction : Z)
    : option (Z * tetrominoe * playfield) :=
  let new_tetrominoe := moved_tetrominoe t direction in
  c ← grid_get g (t0 t);
  let block_colour := to_short c in
  g ← set_cells t 0 g;
  let '(moved, t) :=
    if check_tetrominoe_collision new_tetrominoe g
    then (1, new_tetrominoe) else (0, t) in
  g ← set_cells t block_colour g;
  Some (moved, t, g).

Definition lowest (a b c d : Z) : Z :=
  let l := a in
  let l := if l >? b then b else l in
  let l := if l >? c then c else l in
  if l >? d then d else l.

(** [max_ext] is only assigned for the seven piece types. *)
Definition max_ext (type : Z) : option Z :=
  if type =? PIECE_LINE then Some 4
  else if type =? PIECE_L then Some 3
  else if type =? PIECE_REVERSE_L then Some 3
  else if type =? PIECE_SQUARE then Some 2
  else if type =? PIECE_5 then Some 3
  else if type =? PIECE_S then Some 3
  else if type =? PIECE_T then Some 3
  else None.

(** [new_tetrominoe] as [rotate_tetrominoe] computes it: into the frame of
    the lowest x and y, turned, and back. *)
Definition rotated (m : Z) (t : tetrominoe) : tetrominoe :=
  let lowest_x := lowest (t0 t).1 (t1 t).1 (t2 t).1 (t3 t).1 in
  let lowest_y := lowest (t0 t).2 (t1 t).2 (t2 t).2 (t3 t).2 in
  let turn (c : cell) :=
    let temp := (c.1 - lowest_x, c.2 - lowest_y) in
    let new := (temp.2, 1 - (temp.1 - (m - 2))) in
    (new.1 + lowest_x, new.2 + lowest_y) in
  Tet (turn (t0 t)) (turn (t1 t)) (turn (t2 t)) (turn (t3 t)).

Definition rotate_tetrominoe (t : tetrominoe) (g : playfield) (type : Z)
    : option (tetrominoe * playfield) :=
  m ← max_ext type;
  let new_tetrominoe := rotated m t in
  c ← grid_get g (t0 t);
  let block_colour := to_short c in
  g ← set_cells t 0 g;
  let t := if check_tetrominoe_collision new_tetrominoe g
           then new_tetrominoe else t in
  g ← set_cells t block_colour g;
  Some (t, g).

(** The grid after the four assignments of [set_cells]. *)
Definition paint (t : tetrominoe) (v : Z) (g : playfield) : playfield :=
  <[ idx (t3 t) := v ]> (<[ idx (t2 t) := v ]>
    (<[ idx (t1 t) := v ]> (<[ idx (t0 t) := v ]> g))).

Definition on_grid (t : tetrominoe) : Prop :=
  Forall (fun c => in_grid c = true) (cells t).

(** The cell one row below [c]. *)
Definition below (c : cell) : cell := (c.1, c.2 + 1).

(** [c] cannot be entered by the piece [t]: it is off the grid, or it is
    not one of the piece's own cells and is occupied. *)
Definition blocked (t : tetrominoe) (g : playfield) (c : cell) : Prop :=
  in_grid c = false \/ (~ In c (cells t) /\ grid_at g c <> 0).

(** The grid whose cell [(x, y)] holds [f (x, y)]. *)
Definition make_grid (f : cell -> Z) : playfield :=
  (fun i => f (i / GRID_SIZE_Y, i mod GRID_SIZE_Y)) <$> seqZ 0 200.

(** *** Repeated rotation *)

(** [n] calls of [rotate_tetrominoe] in succession on the same arrays. *)
Fixpoint rotate_times (n : nat) (t : tetrominoe) (g : playfield) (type : Z)
    : option (tetrominoe * playfield) :=
  match n with
  | O => Some (t, g)
  | S n => '(t, g) ← rotate_tetrominoe t g type; rotate_times n t g type
  end.

(** The call takes the turned placement: it passes the collision test on
    the grid without the piece. *)
Definition rotation_accepted (t : tetrominoe) (g : playfield) (type : Z) : bool :=
  match max_ext type, set_cells t 0 g with
  | Some m, Some gc => check_tetrominoe_collision (rotated m t) gc
  | _, _ => false
  end.

(** Each of the next [n] calls takes its turned placement. *)
Fixpoint rotations_accepted (n : nat) (t : tetrominoe) (g : playfield) (type : Z)
    : bool :=
  match n with
  | O => true
  | S n =>
      rotation_accepted t g type
      && match rotate_tetrominoe t g type with
         | Some (t', g') => rotations_accepted n t' g' type
         | None => false
         end
  end.

(** The turned placement for a piece type. *)
Definition turn (type : Z) (t : tetrominoe) : tetrominoe :=
  match max_ext type with
  | Some m => rotated m t
  | None => t
  end.

(** The placements of a piece of a given type: what [create_tetrominoe]
    sets up, and what the candidate placements of [move_tetrominoe] and
    [rotate_tetrominoe] make of a placement. *)
Inductive placement (type : Z) : tetrominoe -> Prop :=
  | placement_spawn t :
      0 <= type < 7 -> placement type (setup_tetrominoe t type 4)
  | placement_move t direction :
      placement type t -> placement type (moved_tetrominoe t direction)
  | placement_turn t :
      placement type t -> placement type (turn type t).

(** The two placements occupy the same set of cells. *)
Definition same_cells (t t' : tetrominoe) : Prop :=
  forall c, In c (cells t) <-> In c (cells t').

(** Rows by which a piece has sunk after four accepted rotations. *)
Definition drift (type : Z) : Z :=
  if type =? PIECE_LINE then 6
  else if type =? PIECE_SQUARE then 0
  else 2.

Definition origin : tetrominoe := Tet (0, 0) (0, 0) (0, 0) (0, 0).

(** ** Complete rows ([get_remove_lines], [do_remove_lines]) *)

(** The inner loop over x runs to its end: no cell of row [y] is 0. *)
Definition row_complete (g : playfield) (y : Z) : bool :=
  forallb (fun x => negb (grid_at g (x, y) =? 0)) (seqZ 0 GRID_SIZE_X).

(** One pass of the loop over y.  [remove_lines] is an [int[4]]: the store
    [remove_lines[remove_count++] = y] with [remove_count] at 4 is outside
    the array. *)
Definition get_remove_lines_row (g : playfield) (acc : option (Z * list Z)) (y : Z)
    : option (Z * list Z) :=
  '(remove_count, remove_lines) ← acc;
  if row_complete g y then
    if remove_count <? 4
    then Some (remove_count + 1, <[ Z.to_nat remove_count := y ]> remove_lines)
    else None
  else Some (remove_count, remove_lines).

(** Returns [remove_count] and the updated [remove_lines]. *)
Definition get_remove_lines (g : playfield) (remove_lines : list Z)
    : option (Z * list Z) :=
  foldl (get_remove_lines_row g) (Some (0, remove_lines)) (seqZ 0 GRID_SIZE_Y).

(** The complete rows of a grid, top to bottom. *)
Definition complete_rows (g : playfield) : list Z :=
  List.filter (row_complete g) (seqZ 0 GRID_SIZE_Y).

(** State of the scan of [get_remove_lines] once the complete rows
    [found] are stored in the first slots. *)
Definition scanned (slots found : list Z) : option (Z * list Z) :=
  Some (Z.of_nat (length found), found ++ drop (length found) slots).

(** Every cell of row [y] is occupied. *)
Definition row_full (g : playfield) (y : Z) : Prop :=
  forall x, 0 <= x < 10 -> grid_at g (x, y) <> 0.

(** [for x: grid[x][y] = 0]. *)
Definition clear_row (g : playfield) (y : Z) : playfield :=
  foldl (fun g x => <[ idx (x, y) := 0 ]> g) g (seqZ 0 GRID_SIZE_X).

(** [for x: grid[x][y] = grid[x][y-1]]. *)
Definition copy_row_down (g : playfield) (y : Z) : playfield :=
  foldl (fun g x => <[ idx (x, y) := grid_at g (x, y - 1) ]> g) g
        (seqZ 0 GRID_SIZE_X).

(** [for (y = r; y != 0; y--)]: y runs over r, r - 1, ..., 1. *)
Definition shift_down (g : playfield) (r : Z) : playfield :=
  foldl copy_row_down g (reverse (seqZ 1 r)).

(** The body of the loop over the slots for a row index [r].  The stores
    to row [r] are inside the array only for 0 <= r < 20. *)
Definition remove_line (g : playfield) (r : Z) : option playfield :=
  if (0 <=? r) && (r <? GRID_SIZE_Y)
  then Some (shift_down (clear_row g r) r)
  else None.

Definition do_remove_lines_slot (acc : option (Z * playfield * list Z)) (i : nat)
    : option (Z * playfield * list Z) :=
  '(remove_count, g, remove_lines) ← acc;
  r ← remove_lines !! i;
  if r =? -1 then Some (remove_count, g, remove_lines)
  else
    g ← remove_line g r;
    Some (remove_count + 1, g, <[ i := -1 ]> remove_lines).

(** Returns [remove_count], the grid and [remove_lines] after the call. *)
Definition do_remove_lines (g : playfield) (remove_lines : list Z)
    : option (Z * playfield * list Z) :=
  foldl do_remove_lines_slot (Some (0, g, remove_lines)) (seq 0 4).

(** Removing row [r], following the specification's words: the row is
    dropped, the rows above it come down by one, row 0 becomes empty. *)
Definition spec_remove_line (g : playfield) (r : Z) : playfield :=
  make_grid (fun c =>
    if c.2 =? 0 then 0
    else if c.2 <=? r then grid_at g (c.1, c.2 - 1)
    else grid_at g c).

(** Removing row [r], as the loops do it: row 0 is only emptied when it is
    the row removed. *)
Definition code_remove_line (g : playfield) (r : Z) : playfield :=
  make_grid (fun c =>
    if c.2 =? 0 then (if r =? 0 then 0 else grid_at g c)
    else if c.2 <=? r then grid_at g (c.1, c.2 - 1)
    else grid_at g c).

(** The slots that hold a row index. *)
Definition pending (remove_lines : list Z) : list Z :=
  List.filter (fun r => negb (r =? -1)) remove_lines.

(** A slot of [remove_lines] holds the sentinel or a row of the grid. *)
Definition valid_slot (r : Z) : Prop := r = -1 \/ 0 <= r < 20.

(** ** The game loop: [STATE_ROW_REMOVE] *)

Definition STATE_CREATE_PIECE : Z := 0.
Definition STATE_DESCEND : Z := 1.
Definition STATE_ROW_FLASH : Z := 2.
Definition STATE_ROW_REMOVE : Z := 3.
Definition STATE_GAME_OVER : Z := 4.
Definition STATE_PAUSED : Z := 5.

Definition INITIAL_FALL_DELAY : Z := 90.

(** Arithmetic on [int]: the result is taken in 32-bit two's complement,
    which is what the i386 target computes where ISO C leaves signed
    overflow undefined. *)
Definition int32 (z : Z) : Z := (z + 2 ^ 31) mod 2 ^ 32 - 2 ^ 31.

(** The locals of [tetris] that the [STATE_ROW_REMOVE] case reads or
    writes.  The three [set_numbers_display] calls of that case only
    write digits into [next_frame] and are left out. *)
Record game := Game {
  state : Z;
  lines : Z;
  level : Z;
  score : Z;
  fall_delay : Z;
  grid : playfield;
  remove_lines : list Z
}.

Definition row_remove (s : game) : option game :=
  '(lines_removed, g, slots) ← do_remove_lines (grid s) (remove_lines s);
  let lines := int32 (lines s + lines_removed) in
  let lines := if lines >? 9999 then 9999 else lines in
  let score :=
    if lines_removed =? 1 then int32 (score s + int32 (40 * int32 (level s + 1)))
    else if lines_removed =? 2 then int32 (score s + int32 (100 * int32 (level s + 1)))
    else if lines_removed =? 3 then int32 (score s + int32 (300 * int32 (level s + 1)))
    else if lines_removed =? 4 then int32 (score s + int32 (1200 * int32 (level s + 1)))
    else score s in
  let score := if score >? 99999999 then 99999999 else score in
  let '(level, fall_delay) :=
    if negb (level s =? 9) && (lines >=? int32 (int32 (level s * 10) + 10))
    then (int32 (level s + 1), int32 (fall_delay s - 10))
    else (level s, fall_delay s) in
  Some {| state := STATE_CREATE_PIECE;
          lines := lines;
          level := level;
          score := score;
          fall_delay := fall_delay;
          grid := g;
          remove_lines := slots |}.

(** The reward table of the specification, before the level factor. *)
Definition reward (n : Z) : Z :=
  if n =? 1 then 40
  else if n =? 2 then 100
  else if n =? 3 then 300
  else if n =? 4 then 1200
  else 0.

(** ** Interrupt plumbing ([pic_send_eoi], the two handlers, the IRQ table,
    the IDT) *)

Definition PIC1_CMD : Z := 0x20.
Definition PIC2_CMD : Z := 0xA0.

(** [irq] is a [uint8_t]. *)
Definition pic_send_eoi (irq : Z) (io : list (Z * Z)) : list (Z * Z) :=
  let io := if irq >=? 8 then outb PIC2_CMD 0x20 io else io in
  outb PIC1_CMD 0x20 io.

(** [ticks_count] is a [uint64_t]: the increment wraps at 2^64. *)
Definition pit_tick_handler_c (ticks_count : Z) (io : list (Z * Z))
    : Z * list (Z * Z) :=
  ((ticks_count + 1) mod 2 ^ 64, pic_send_eoi 0 io).

(** [byte] is what [inb(0x60)] returns. *)
Definition keyb_handler_c (byte : Z) (k : keyboard) (io : list (Z * Z))
    : keyboard * list (Z * Z) :=
  ({| scancode := byte; keyb_char := keyb_char k; keyb_pressed := keyb_pressed k |},
   pic_send_eoi 1 io).

(** [irq_handlers]: sixteen function pointers, [None] for a null one.  A
    handler acts on some machine state [M]. *)
Definition register_irq_handler {M : Type} (irq : Z) (handler : option (M -> M))
    (irq_handlers : list (option (M -> M))) : list (option (M -> M)) :=
  if (irq <? 0) || (irq >? 15) then irq_handlers
  else <[ Z.to_nat irq := handler ]> irq_handlers.

(** [irq_dispatch] indexes the table without a range test. *)
Definition irq_dispatch {M : Type} (irq : Z)
    (irq_handlers : list (option (M -> M))) (m : M) : option M :=
  if (0 <=? irq) && (irq <? 16) then
    h ← irq_handlers !! Z.to_nat irq;
    match h with
    | Some handler => Some (handler m)
    | None => Some m
    end
  else None.

Definition IDT_SIZE : Z := 256.

(** [struct idt_entry], packed to 8 bytes. *)
Record idt_entry := IdtEntry {
  offset_low : Z;
  sel : Z;
  zero : Z;
  flags : Z;
  offset_high : Z
}.

(** [isr] is the handler's address, a [uint32_t] after the cast. *)
Definition set_idt_entry (vector isr sel flags : Z) (idt : list idt_entry)
    : option (list idt_entry) :=
  if (0 <=? vector) && (vector <? IDT_SIZE) then
    let addr := isr in
    Some (<[ Z.to_nat vector :=
               {| offset_low := Z.land addr 0xFFFF;
                  sel := sel;
                  zero := 0;
                  flags := flags;
                  offset_high := Z.land (Z.shiftr addr 16) 0xFFFF |} ]> idt)
  else None.

(** [irq0_stub], [irq1_stub] and [idt_base] are the addresses of the two
    assembly stubs and of the table; the result is the table and the
    [limit] and [base] loaded by [lidt]. *)
Definition idt_init (irq0_stub irq1_stub idt_base : Z) (idt : list idt_entry)
    : option (list idt_entry * (Z * Z)) :=
  idt ← foldl (fun acc i => idt ← acc; set_idt_entry i 0 0x08 0x8E idt)
              (Some idt) (seqZ 0 IDT_SIZE);
  idt ← set_idt_entry 0x20 irq0_stub 0x08 0x8E idt;
  idt ← set_idt_entry 0x21 irq1_stub 0x08 0x8E idt;
  Some (idt, (IDT_SIZE * 8 - 1, idt_base)).

(** The handler address an entry holds. *)
Definition entry_address (e : idt_entry) : Z :=
  offset_low e + 65536 * offset_high e.

(** ** [init_frame_store] *)

Definition init_frame_store (v : video) : video :=
  foldl (fun v i =>
           {| curr_frame := <[ i := 0x0700 ]> (curr_frame v);
              next_frame := <[ i := 0x0700 ]> (next_frame v);
              VGA := VGA v |})
        v (seq 0 2000).

(** ** The preview grid ([create_next_tetrominoe]) *)

Definition NEXT_GRID_SIZE_X : Z := 4.
Definition NEXT_GRID_SIZE_Y : Z := 4.

(** [int grid[NEXT_GRID_SIZE_X][NEXT_GRID_SIZE_Y]]: 16 ints. *)
Definition in_next_grid (c : cell) : bool :=
  (0 <=? c.1) && (c.1 <? NEXT_GRID_SIZE_X)
  && (0 <=? c.2) && (c.2 <? NEXT_GRID_SIZE_Y).

Definition next_idx (c : cell) : nat := Z.to_nat (c.1 * NEXT_GRID_SIZE_Y + c.2).

Definition next_grid_set (g : list Z) (c : cell) (v : Z) : option (list Z) :=
  if in_next_grid c then Some (<[ next_idx c := v ]> g) else None.

Definition create_next_tetrominoe (t : tetrominoe) (g : list Z) (colours : list Z)
    (piece : Z) : option (tetrominoe * list Z) :=
  let t := setup_tetrominoe t piece 0 in
  let g :=
    foldl (fun g x =>
             foldl (fun g y => <[ next_idx (x, y) := 0 ]> g) g
                   (seqZ 0 NEXT_GRID_SIZE_Y))
          g (seqZ 0 NEXT_GRID_SIZE_X) in
  colour ← (if (0 <=? piece) && (piece <? 7) then colours !! Z.to_nat piece else None);
  g ← next_grid_set g (t0 t) colour;
  g ← next_grid_set g (t1 t) colour;
  g ← next_grid_set g (t2 t) colour;
  g ← next_grid_set g (t3 t) colour;
  Some (t, g).

(** The piece [t] is drawn on the grid [g] in [colour]: its four cells lie
    on the grid and hold that value. *)
Definition marked (t : tetrominoe) (g : playfield) (colour : Z) : Prop :=
  Forall (fun c => in_grid c = true /\ grid_at g c = colour) (cells t).

(** Each element is smaller than all the later ones. *)
Fixpoint ascending (l : list Z) : Prop :=
  match l with
  | [] => True
  | x :: l' => Forall (fun y => x < y) l' /\ ascending l'
  end.

(** ** The flash ([cycle_remove_lines]) *)

(** What the loop does to one cell; 35 is '#'. *)
Definition cycle_cell (v : Z) : Z :=
  if Z.land v 0x00FF =? 35 then Z.land v 0xFF20 else Z.lor v 35.

Definition cycle_row (g : playfield) (r : Z) : option playfield :=
  if (0 <=? r) && (r <? GRID_SIZE_Y) then
    Some (foldl (fun g x => <[ idx (x, r) := cycle_cell (grid_at g (x, r)) ]> g)
                g (seqZ 0 GRID_SIZE_X))
  else None.

(** The slots are read only. *)
Definition cycle_remove_lines (g : playfield) (remove_lines : list Z)
    : option playfield :=
  foldl (fun acc i =>
           g ← acc;
           r ← remove_lines !! i;
           if r =? -1 then Some g else cycle_row g r)
        (Some g) (seq 0 4).

(** The state invariant of the score panel: the bounds of the counters,
    the level as a function of the lines, the fall delay as a function of
    the level. *)
Definition panel_ok (s : game) : Prop :=
  0 <= lines s <= 9999
  /\ 0 <= score s <= 99999999
  /\ level s = Z.min 9 (lines s / 10)
  /\ fall_delay s = INITIAL_FALL_DELAY - 10 * level s.

(** ** Writing the desired buffer ([set_numbers_display], the redraw) *)

(** A store to [next_frame[i]], a [short[2000]]. *)
Definition frame_set (next_frame : list Z) (i v : Z) : option (list Z) :=
  if (0 <=? i) && (i <? 2000)
  then Some (<[ Z.to_nat i := to_short v ]> next_frame)
  else None.

(** [char numbers[10]] of [tetris]. *)
Definition numbers : list Z :=
  [chr "0"; chr "1"; chr "2"; chr "3"; chr "4";
   chr "5"; chr "6"; chr "7"; chr "8"; chr "9"].

(** The [while (value_tmp)] loop filling [int digits[8]], least
    significant digit first; [room] counts the entries still free, and a
    ninth digit is stored outside the array.  [%] and [/] of C truncate
    towards zero. *)
Fixpoint collect_digits (room : nat) (value_tmp : Z) (digits : list Z)
    : option (list Z) :=
  if value_tmp =? 0 then Some digits
  else
    match room with
    | O => None
    | S room =>
        collect_digits room (Z.quot value_tmp 10) (digits ++ [Z.rem value_tmp 10])
    end.

(** The last loop, for one digit: [next_frame[...+digit_pos] = 0x0F00 |
    numbers[digit]; digit_pos++]. *)
Definition put_digit (pos_x pos_y : Z) (numbers : list Z)
    (acc : option (list Z * Z)) (digit : Z) : option (list Z * Z) :=
  '(next_frame, digit_pos) ← acc;
  ch ← (if (0 <=? digit) && (digit <? 10) then numbers !! Z.to_nat digit else None);
  next_frame ← frame_set next_frame (pos_y * 80 + pos_x + digit_pos) (Z.lor 0x0F00 ch);
  Some (next_frame, digit_pos + 1).

Definition set_numbers_display (pos_x pos_y : Z) (numbers : list Z) (value : Z)
    (next_frame : list Z) : option (list Z) :=
  next_frame ←
    foldl (fun acc i =>
             nf ← acc; frame_set nf (pos_y * 80 + pos_x + i) (Z.lor 0x0F00 32))
          (Some next_frame) (seqZ 0 8);
  digits ← (if value =? 0 then Some [0] else collect_digits 8 value []);
  '(next_frame, _) ←
    foldl (put_digit pos_x pos_y numbers) (Some (next_frame, 0)) (reverse digits);
  Some next_frame.


(** What the redraw shows for a grid cell: 32 is ' ', 35 is '#'. *)
Definition shown (v : Z) : Z :=
  if v =? 0 then Z.lor 0x0700 32
  else if Z.land v 0x00FF =? 32 then Z.lor v 32
  else Z.lor v 35.

(** The first redraw loop of the main loop: the playfield into columns
    1..10 of rows 0..19 of the desired buffer. *)
Definition redraw_grid (g : playfield) (next_frame : list Z) : list Z :=
  foldl (fun nf x =>
           foldl (fun nf y =>
                    <[ Z.to_nat (y * 80 + x + 1) := to_short (shown (grid_at g (x, y))) ]> nf)
                 nf (seqZ 0 GRID_SIZE_Y))
        next_frame (seqZ 0 GRID_SIZE_X).

(** ** The main loop of [tetris] *)

Definition DROP_FALL_DELAY : Z := 0.

(** Conversion to [uint64_t]. *)
Definition to_uint64 (z : Z) : Z := z mod 2 ^ 64.

(** [rand] returns the tick counter, a [uint64_t], as an [int]. *)
Definition rand (ticks_count : Z) : Z := int32 ticks_count.

(** [print_string] from index [i] on: [str] holds the characters of the
    C string as [unsigned char]s and the loop stops at the first 0 or at
    the end of the list, where the terminator is.  A store outside the
    2000 cells of the text screen is given no result. *)
Fixpoint print_string_from (i : Z) (str : list Z) (colour row col : Z)
    (vga : list (nat * Z)) : option (list (nat * Z)) :=
  match str with
  | [] => Some vga
  | ch :: str =>
      if ch =? 0 then Some vga
      else
        let pos := row * 80 + col + i in
        if (0 <=? pos) && (pos <? 2000) then
          print_string_from (i + 1) str colour row col
            (vga ++ [(Z.to_nat pos, to_ushort (Z.lor colour ch))])
        else None
  end.

Definition print_string (str : list Z) (colour row col : Z)
    (vga : list (nat * Z)) : option (list (nat * Z)) :=
  print_string_from 0 str colour row col vga.

(** The six key flags of [tetris]. *)
Record keys := Keys {
  quit : Z;
  pause : Z;
  left : Z;
  right : Z;
  up : Z;
  down : Z
}.

(** The other locals of [tetris] that live across iterations of the main
    loop; [falling] is the array [tetrominoe].  [last_move] is a
    [uint64_t]. *)
Record session := Session {
  play : game;
  held : keys;
  key_pressed : Z;
  down_pressed : Z;
  flash_lines_count : Z;
  next_grid : list Z;
  falling : tetrominoe;
  next_tetrominoe : tetrominoe;
  current : Z;
  next : Z;
  last_move : Z
}.

Definition with_state (st : Z) (p : game) : game :=
  {| state := st; lines := lines p; level := level p; score := score p;
     fall_delay := fall_delay p; grid := grid p;
     remove_lines := remove_lines p |}.

Definition with_grid (g : playfield) (p : game) : game :=
  {| state := state p; lines := lines p; level := level p; score := score p;
     fall_delay := fall_delay p; grid := g;
     remove_lines := remove_lines p |}.

Definition with_remove_lines (slots : list Z) (p : game) : game :=
  {| state := state p; lines := lines p; level := level p; score := score p;
     fall_delay := fall_delay p; grid := grid p;
     remove_lines := slots |}.

(** The [switch (keyb_char)], case 'r' apart: a key event sets or clears
    the flag of its key. *)
Definition key_switch (k : keyboard) (h : keys) : keys :=
  let v := if keyb_pressed k =? 0 then 0 else 1 in
  let c := keyb_char k in
  if c =? chr "a" then
    {| quit := quit h; pause := pause h; left := v; right := right h;
       up := up h; down := down h |}
  else if c =? chr "d" then
    {| quit := quit h; pause := pause h; left := left h; right := v;
       up := up h; down := down h |}
  else if c =? chr "w" then
    {| quit := quit h; pause := pause h; left := left h; right := right h;
       up := v; down := down h |}
  else if c =? chr "s" then
    {| quit := quit h; pause := pause h; left := left h; right := right h;
       up := up h; down := v |}
  else if c =? chr "q" then
    {| quit := v; pause := pause h; left := left h; right := right h;
       up := up h; down := down h |}
  else if c =? chr "p" then
    {| quit := quit h; pause := v; left := left h; right := right h;
       up := up h; down := down h |}
  else h.

(** Case 'r' of the [switch]: [tetris] returns. *)
Definition restart (k : keyboard) : bool :=
  (keyb_char k =? chr "r") && negb (keyb_pressed k =? 0).

(** [if (next == -1) { next = rand() % 7; create_next_tetrominoe(...); }];
    [%] of C truncates towards zero. *)
Definition pick_next (ticks_count : Z) (s : session) : option session :=
  if next s =? -1 then
    let n := Z.rem (rand ticks_count) 7 in
    '(nt, ng) ← create_next_tetrominoe (next_tetrominoe s) (next_grid s)
                  block_colours n;
    Some {| play := play s; held := held s; key_pressed := key_pressed s;
            down_pressed := down_pressed s;
            flash_lines_count := flash_lines_count s;
            next_grid := ng; falling := falling s; next_tetrominoe := nt;
            current := current s; next := n; last_move := last_move s |}
  else Some s.

(** The three [if]s that release and dispatch the keys.  The results of
    [move_tetrominoe] are not used. *)
Definition input (s : session) (vga : list (nat * Z))
    : option (session * list (nat * Z)) :=
  let h := held s in
  let p := play s in
  let key_pressed :=
    if (left h =? 0) && (right h =? 0) && (up h =? 0) && (down h =? 0)
       && (pause h =? 0)
    then 0 else key_pressed s in
  let down_pressed := if down h =? 0 then 0 else down_pressed s in
  if (state p =? STATE_DESCEND) && (key_pressed =? 0)
     && (negb (left h =? 0) || negb (right h =? 0) || negb (up h =? 0)
         || negb (down h =? 0) || negb (pause h =? 0)) then
    '(t, g) ← (if negb (left h =? 0) then
                 '(_, t, g) ← move_tetrominoe (falling s) (grid p) MOVE_LEFT;
                 Some (t, g)
               else Some (falling s, grid p));
    '(t, g) ← (if negb (right h =? 0) then
                 '(_, t, g) ← move_tetrominoe t g MOVE_RIGHT;
                 Some (t, g)
               else Some (t, g));
    let down_pressed := if negb (down h =? 0) then 1 else down_pressed in
    '(t, g) ← (if negb (up h =? 0) then rotate_tetrominoe t g (current s)
               else Some (t, g));
    let st := if negb (pause h =? 0) then STATE_PAUSED else state p in
    Some ({| play := with_state st (with_grid g p); held := h;
             key_pressed := 1; down_pressed := down_pressed;
             flash_lines_count := flash_lines_count s;
             next_grid := next_grid s; falling := t;
             next_tetrominoe := next_tetrominoe s;
             current := current s; next := next s;
             last_move := last_move s |}, vga)
  else if (state p =? STATE_PAUSED) && (key_pressed =? 0)
          && negb (pause h =? 0) then
    vga ← print_string (replicate 6 (chr " ")) 0x0200 11 (GRID_SIZE_X + 6) vga;
    Some ({| play := with_state STATE_DESCEND p; held := h;
             key_pressed := 1; down_pressed := down_pressed;
             flash_lines_count := flash_lines_count s;
             next_grid := next_grid s; falling := falling s;
             next_tetrominoe := next_tetrominoe s;
             current := current s; next := next s;
             last_move := last_move s |}, vga)
  else
    Some ({| play := p; held := h;
             key_pressed := key_pressed; down_pressed := down_pressed;
             flash_lines_count := flash_lines_count s;
             next_grid := next_grid s; falling := falling s;
             next_tetrominoe := next_tetrominoe s;
             current := current s; next := next s;
             last_move := last_move s |}, vga).

(** The [switch (state)], with [now] the tick counter read before it.
    The comparisons with [timediff] are made in [uint64_t]. *)
Definition state_step (now : Z) (s : session) (v : video)
    : option (session * video) :=
  let p := play s in
  let timediff := to_uint64 (now - last_move s) in
  if state p =? STATE_CREATE_PIECE then
    '(created, t, g) ← create_tetrominoe (falling s) (grid p) block_colours (next s);
    if negb (created =? 0) then
      Some ({| play := with_state STATE_DESCEND (with_grid g p);
               held := held s; key_pressed := key_pressed s;
               down_pressed := 0;
               flash_lines_count := flash_lines_count s;
               next_grid := next_grid s; falling := t;
               next_tetrominoe := next_tetrominoe s;
               current := next s; next := -1;
               last_move := last_move s |}, v)
    else
      Some ({| play := with_state STATE_GAME_OVER (with_grid g p);
               held := held s; key_pressed := key_pressed s;
               down_pressed := down_pressed s;
               flash_lines_count := flash_lines_count s;
               next_grid := next_grid s; falling := t;
               next_tetrominoe := next_tetrominoe s;
               current := current s; next := next s;
               last_move := last_move s |}, v)
  else if state p =? STATE_DESCEND then
    if timediff >? to_uint64 (if negb (down_pressed s =? 0)
                              then DROP_FALL_DELAY else fall_delay p) then
      '(moved, t, g) ← move_tetrominoe (falling s) (grid p) MOVE_DOWN;
      '(st, slots) ←
        (if moved =? 0 then
           '(found, slots) ← get_remove_lines g (remove_lines p);
           Some (if found >? 0 then STATE_ROW_FLASH else STATE_CREATE_PIECE,
                 slots)
         else Some (state p, remove_lines p));
      Some ({| play := with_state st (with_remove_lines slots (with_grid g p));
               held := held s; key_pressed := key_pressed s;
               down_pressed := down_pressed s;
               flash_lines_count := flash_lines_count s;
               next_grid := next_grid s; falling := t;
               next_tetrominoe := next_tetrominoe s;
               current := current s; next := next s;
               last_move := now |}, v)
    else Some (s, v)
  else if state p =? STATE_ROW_FLASH then
    if timediff >? 10 then
      if flash_lines_count s <? 4 then
        g ← cycle_remove_lines (grid p) (remove_lines p);
        Some ({| play := with_grid g p;
                 held := held s; key_pressed := key_pressed s;
                 down_pressed := down_pressed s;
                 flash_lines_count := int32 (flash_lines_count s + 1);
                 next_grid := next_grid s; falling := falling s;
                 next_tetrominoe := next_tetrominoe s;
                 current := current s; next := next s;
                 last_move := now |}, v)
      else
        Some ({| play := with_state STATE_ROW_REMOVE p;
                 held := held s; key_pressed := key_pressed s;
                 down_pressed := down_pressed s;
                 flash_lines_count := 0;
                 next_grid := next_grid s; falling := falling s;
                 next_tetrominoe := next_tetrominoe s;
                 current := current s; next := next s;
                 last_move := now |}, v)
    else Some (s, v)
  else if state p =? STATE_ROW_REMOVE then
    p' ← row_remove p;
    nf ← set_numbers_display (GRID_SIZE_X + 13) 7 numbers (lines p') (next_frame v);
    nf ← set_numbers_display (GRID_SIZE_X + 13) 9 numbers (score p') nf;
    nf ← (if negb (level p =? 9)
             && (lines p' >=? int32 (int32 (level p * 10) + 10))
          then set_numbers_display (GRID_SIZE_X + 13) 8 numbers (level p') nf
          else Some nf);
    Some ({| play := p';
             held := held s; key_pressed := key_pressed s;
             down_pressed := down_pressed s;
             flash_lines_count := flash_lines_count s;
             next_grid := next_grid s; falling := falling s;
             next_tetrominoe := next_tetrominoe s;
             current := current s; next := next s;
             last_move := last_move s |},
          {| curr_frame := curr_frame v; next_frame := nf; VGA := VGA v |})
  else if state p =? STATE_GAME_OVER then
    vga ← print_string [chr "G"; chr "A"; chr "M"; chr "E"; chr " ";
                        chr "O"; chr "V"; chr "E"; chr "R"]
                       0x0400 12 (GRID_SIZE_X + 6) (VGA v);
    Some (s, {| curr_frame := curr_frame v; next_frame := next_frame v;
                VGA := vga |})
  else if state p =? STATE_PAUSED then
    vga ← print_string [chr "P"; chr "A"; chr "U"; chr "S"; chr "E"; chr "D"]
                       0x0200 11 (GRID_SIZE_X + 6) (VGA v);
    Some (s, {| curr_frame := curr_frame v; next_frame := next_frame v;
                VGA := vga |})
  else Some (s, v).

(** The second redraw loop: the preview grid into columns 16..19 of rows
    3..6 of the desired buffer. *)
Definition redraw_next_grid (ng : list Z) (next_frame : list Z) : list Z :=
  foldl (fun nf x =>
           foldl (fun nf y =>
                    <[ Z.to_nat ((y + 3) * 80 + x + GRID_SIZE_X + 6) :=
                         to_short (if ng !!! next_idx (x, y) =? 0
                                   then Z.lor 0x0700 32
                                   else Z.lor (ng !!! next_idx (x, y)) 35) ]> nf)
                 nf (seqZ 0 NEXT_GRID_SIZE_Y))
        next_frame (seqZ 0 NEXT_GRID_SIZE_X).

(** What one pass through the body of [while (quit == 0)] leaves: the
    loop goes on with the locals, the keyboard variables and the frame
    store, or [tetris] has returned. *)
Inductive pass :=
  | Running (s : session) (k : keyboard) (v : video)
  | Returned (k : keyboard).

(** One pass.  [k] holds the keyboard variables when [read_keyb] is
    called; [ticks_rand] and [now] are the values of [ticks_count] when
    [rand] and the assignment to [now] read it. *)
Definition tetris_pass (ticks_rand now : Z) (k : keyboard) (s : session)
    (v : video) : option pass :=
  let k := read_keyb k in
  if restart k then Some (Returned k)
  else
    s ← pick_next ticks_rand
          {| play := play s; held := key_switch k (held s);
             key_pressed := key_pressed s; down_pressed := down_pressed s;
             flash_lines_count := flash_lines_count s;
             next_grid := next_grid s; falling := falling s;
             next_tetrominoe := next_tetrominoe s;
             current := current s; next := next s;
             last_move := last_move s |};
    '(s, vga) ← input s (VGA v);
    '(s, v) ← state_step now s
                {| curr_frame := curr_frame v; next_frame := next_frame v;
                   VGA := vga |};
    let nf := redraw_next_grid (next_grid s)
                (redraw_grid (grid (play s)) (next_frame v)) in
    Some (Running s k
            (draw_next_frame
               {| curr_frame := curr_frame v; next_frame := nf; VGA := VGA v |})).

(** The locals when the main loop is entered: the two loops that clear
    [grid] and [next_grid], [current = rand() % 7] and the first
    [create_tetrominoe].  [grid], [next_grid], the two piece arrays and
    [last_move] are not initialised; what they hold is a parameter.  The
    stores made to [next_frame] and to the display before the loop (the
    border, the labels, the three counters, the help text) do not touch
    the locals and are left out. *)
Definition clear_grid (g : playfield) : playfield :=
  foldl (fun g x =>
           foldl (fun g y => <[ idx (x, y) := 0 ]> g) g (seqZ 0 GRID_SIZE_Y))
        g (seqZ 0 GRID_SIZE_X).

Definition clear_next_grid (g : list Z) : list Z :=
  foldl (fun g x =>
           foldl (fun g y => <[ next_idx (x, y) := 0 ]> g) g
                 (seqZ 0 NEXT_GRID_SIZE_Y))
        g (seqZ 0 NEXT_GRID_SIZE_X).

Definition tetris_start (ticks_count : Z) (g ng : list Z) (t nt : tetrominoe)
    (last_move : Z) : option session :=
  let g := clear_grid g in
  let ng := clear_next_grid ng in
  let current := Z.rem (rand ticks_count) 7 in
  '(_, t, g) ← create_tetrominoe t g block_colours current;
  Some {| play := {| state := STATE_DESCEND; lines := 0; level := 0;
                     score := 0; fall_delay := INITIAL_FALL_DELAY;
                     grid := g; remove_lines := [-1; -1; -1; -1] |};
          held := {| quit := 0; pause := 0; left := 0; right := 0;
                     up := 0; down := 0 |};
          key_pressed := 0; down_pressed := 0; flash_lines_count := 0;
          next_grid := ng; falling := t; next_tetrominoe := nt;
          current := current; next := -1; last_move := last_move |}.

(** Passes of the main loop in succession, one per element of [inputs]:
    the byte in [scancode] when [read_keyb] is called and the two readings
    of [ticks_count].  The loop is left when [quit] is set or [tetris]
    returns. *)
Fixpoint tetris_passes (inputs : list (Z * Z * Z)) (k : keyboard) (s : session)
    (v : video) : option pass :=
  match inputs with
  | [] => Some (Running s k v)
  | (byte, ticks_rand, now) :: inputs =>
      if quit (held s) =? 0 then
        r ← tetris_pass ticks_rand now
              {| scancode := byte; keyb_char := keyb_char k;
                 keyb_pressed := keyb_pressed k |} s v;
        match r with
        | Running s k v => tetris_passes inputs k s v
        | Returned k => Some (Returned k)
        end
      else Some (Running s k v)
  end.

(** *** The invariant of the main loop *)

(** No slot of [remove_lines] is in use. *)
Definition idle (slots : list Z) : Prop := slots = [-1; -1; -1; -1].

(** While a piece falls: it is of one of the seven types and drawn on the
    grid in one colour, and the grid without it has no complete row. *)
Definition piece_ok (s : session) : Prop :=
  0 <= current s < 7
  /\ (exists colour, -32768 <= colour <= 32767
                     /\ marked (falling s) (grid (play s)) colour)
  /\ complete_rows (paint (falling s) 0 (grid (play s))) = []
  /\ idle (remove_lines (play s))
  /\ flash_lines_count s = 0.

(** While rows flash: the slots in use hold the complete rows. *)
Definition rows_ok (s : session) : Prop :=
  length (remove_lines (play s)) = 4%nat
  /\ Forall valid_slot (remove_lines (play s))
  /\ pending (remove_lines (play s)) = complete_rows (grid (play s))
  /\ 0 <= flash_lines_count s <= 4.

Definition session_ok (s : session) : Prop :=
  wf_grid (grid (play s))
  /\ length (next_grid s) = 16%nat
  /\ panel_ok (play s)
  /\ (next s = -1 \/ 0 <= next s < 7)
  /\ (((state (play s) = STATE_DESCEND \/ state (play s) = STATE_PAUSED)
       /\ piece_ok s)
      \/ (state (play s) = STATE_CREATE_PIECE
          /\ complete_rows (grid (play s)) = []
          /\ idle (remove_lines (play s)) /\ flash_lines_count s = 0)
      \/ (state (play s) = STATE_ROW_FLASH /\ rows_ok s)
      \/ (state (play s) = STATE_ROW_REMOVE
          /\ rows_ok s /\ flash_lines_count s = 0)
      \/ state (play s) = STATE_GAME_OVER).

(** The two frame buffers have their 2000 cells. *)
Definition video_ok (v : video) : Prop :=
  length (curr_frame v) = 2000%nat /\ length (next_frame v) = 2000%nat.

(** What the [switch (state)] may do to the state, and what comes with
    each transition. *)
Definition step_shape (s s' : session) : Prop :=
  (state (play s) = STATE_CREATE_PIECE ->
     (state (play s') = STATE_DESCEND
      /\ falling s' = setup_tetrominoe (falling s) (next s) 4
      /\ current s' = next s /\ next s' = -1 /\ down_pressed s' = 0)
     \/ (state (play s') = STATE_GAME_OVER
         /\ grid (play s') = grid (play s)))
  /\ (state (play s) = STATE_DESCEND ->
        state (play s') = STATE_DESCEND
        \/ (grid (play s') = grid (play s) /\ falling s' = falling s
            /\ ((state (play s') = STATE_ROW_FLASH
                 /\ complete_rows (grid (play s)) <> [])
                \/ (state (play s') = STATE_CREATE_PIECE
                    /\ complete_rows (grid (play s)) = []))))
  /\ (state (play s) = STATE_ROW_FLASH ->
        (state (play s') = STATE_ROW_FLASH
         /\ (s' = s \/ flash_lines_count s' = flash_lines_count s + 1))
        \/ (state (play s') = STATE_ROW_REMOVE
            /\ flash_lines_count s = 4 /\ flash_lines_count s' = 0
            /\ grid (play s') = grid (play s)))
  /\ (state (play s) = STATE_ROW_REMOVE ->
        state (play s') = STATE_CREATE_PIECE
        /\ complete_rows (grid (play s')) = []
        /\ idle (remove_lines (play s')))
  /\ (state (play s) = STATE_GAME_OVER \/ state (play s) = STATE_PAUSED ->
        s' = s).

(** ** Initialisation ([pic_remap], [pit_init], [keyb_init]) *)

Definition PIC1_DATA : Z := 0x21.
Definition PIC2_DATA : Z := 0xA1.

(** [a1] and [a2] are the masks that the two [inb] read from the data
    ports. *)
Definition pic_remap (a1 a2 : Z) (io : list (Z * Z)) : list (Z * Z) :=
  let io := outb PIC1_CMD 0x11 io in
  let io := outb PIC2_CMD 0x11 io in
  let io := outb PIC1_DATA 0x20 io in
  let io := outb PIC2_DATA 0x28 io in
  let io := outb PIC1_DATA 0x04 io in
  let io := outb PIC2_DATA 0x02 io in
  let io := outb PIC1_DATA 0x01 io in
  let io := outb PIC2_DATA 0x01 io in
  let io := outb PIC1_DATA a1 io in
  outb PIC2_DATA a2 io.

(** What the interrupt handlers and the initialisation act on: the tick
    counter, the keyboard variables, the byte the keyboard controller
    offers at port 0x60, the port writes, and the interrupt flag set by
    [sti] and cleared by [cli]. *)
Record machine := Machine {
  ticks : Z;
  kbd : keyboard;
  port_60 : Z;
  ports : list (Z * Z);
  interrupts : bool
}.

(** The two handlers as they are stored in [irq_handlers]. *)
Definition pit_tick (m : machine) : machine :=
  let '(t, io) := pit_tick_handler_c (ticks m) (ports m) in
  {| ticks := t; kbd := kbd m; port_60 := port_60 m; ports := io;
     interrupts := interrupts m |}.

Definition keyb (m : machine) : machine :=
  let '(k, io) := keyb_handler_c (port_60 m) (kbd m) (ports m) in
  {| ticks := ticks m; kbd := k; port_60 := port_60 m; ports := io;
     interrupts := interrupts m |}.

Definition set_interrupts (b : bool) (m : machine) : machine :=
  {| ticks := ticks m; kbd := kbd m; port_60 := port_60 m; ports := ports m;
     interrupts := b |}.

Definition set_ports (io : list (Z * Z)) (m : machine) : machine :=
  {| ticks := ticks m; kbd := kbd m; port_60 := port_60 m; ports := io;
     interrupts := interrupts m |}.

Definition pit_init (hz a1 a2 : Z) (irq_handlers : list (option (machine -> machine)))
    (m : machine) : list (option (machine -> machine)) * machine :=
  let m := set_interrupts false m in
  let m := set_ports (pic_remap a1 a2 (ports m)) m in
  let m := set_ports (pit_set_frequency hz (ports m)) m in
  let irq_handlers := register_irq_handler 0 (Some pit_tick) irq_handlers in
  (irq_handlers, set_interrupts true m).

Definition keyb_init (irq_handlers : list (option (machine -> machine)))
    (m : machine) : list (option (machine -> machine)) * machine :=
  let m := set_interrupts false m in
  let irq_handlers := register_irq_handler 1 (Some keyb) irq_handlers in
  (irq_handlers, set_interrupts true m).

(* ====================================================================== *)
(** * Properties *)
(* ====================================================================== *)

(** ** Keyboard *)

Lemma all_bytes (P : Z -> bool) :
  forallb P (seqZ 0 256) = true ->
  forall z, 0 <= z < 256 -> P z = true.
Proof.
  intros H z Hz. rewrite forallb_forall in H. apply H.
  apply list_elem_of_In, elem_of_seqZ. lia.
Qed.

Example scancode_table_size : length scancode_table = 128%nat.
Proof. reflexivity. Qed.

Lemma keyboard_eqb_eq a b : keyboard_eqb a b = true -> a = b.
Proof.
  destruct a, b. unfold keyboard_eqb. simpl.
  rewrite !andb_true_iff, !Z.eqb_eq. intros [[-> ->] ->]. reflexivity.
Qed.

Lemma read_keyb_decoded sc c p :
  0 <= sc < 256 -> read_keyb (Keyboard sc c p) = decoded sc.
Proof.
  intros Hsc. apply keyboard_eqb_eq.
  revert sc Hsc.
  apply (all_bytes (fun sc => keyboard_eqb (read_keyb (Keyboard sc c p)) (decoded sc))).
  vm_compute. reflexivity.
Qed.

Lemma scancode_table_unmapped sc :
  0 <= sc < 256 -> 58 <= Z.land sc 0x7F ->
  scancode_table !!! Z.to_nat (Z.land sc 0x7F) = 0.
Proof.
  intros Hsc H.
  pose proof (all_bytes
    (fun sc => (Z.land sc 0x7F <? 58)
               || (scancode_table !!! Z.to_nat (Z.land sc 0x7F) =? 0))
    eq_refl sc Hsc) as A.
  apply orb_true_iff in A as [A | A]; [apply Z.ltb_lt in A; lia |].
  apply Z.eqb_eq, A.
Qed.

(** C8.  For every scan code byte, [read_keyb] reports a release (flag 0)
    when bit 7 is set and a press (flag 1) when it is clear; the character
    is the table entry at the low seven bits of the byte, which is the null
    character at every index the initialiser leaves out; the pending byte is
    consumed.  0x1E gives 'a' pressed, 0x9E gives 'a' released, its masked
    value being 0x1E. *)
Theorem read_keyb_decodes (sc c p : Z) :
  0 <= sc < 256 ->
  let k' := read_keyb (Keyboard sc c p) in
  (Z.testbit sc 7 = true -> keyb_pressed k' = 0)
  /\ (Z.testbit sc 7 = false -> keyb_pressed k' = 1)
  /\ keyb_char k' = scancode_table !!! Z.to_nat (Z.land sc 0x7F)
  /\ (58 <= Z.land sc 0x7F -> keyb_char k' = 0)
  /\ scancode k' = 0
  /\ read_keyb (Keyboard 0x1E c p) = Keyboard 0 (chr "a") 1
  /\ read_keyb (Keyboard 0x9E c p) = Keyboard 0 (chr "a") 0
  /\ Z.land 0x9E 0x7F = 0x1E.
Proof.
  intros Hsc k'. subst k'. rewrite read_keyb_decoded by assumption.
  unfold decoded; simpl.
  repeat split.
  - intros ->. reflexivity.
  - intros ->. reflexivity.
  - apply scancode_table_unmapped. assumption.
Qed.

Lemma read_keyb_decodes_witness :
  let k' := read_keyb (Keyboard 0x9E 0 0) in
  keyb_pressed k' = 0 /\ keyb_char k' = chr "a" /\ scancode k' = 0.
Proof.
  destruct (read_keyb_decodes 0x9E 0 0 ltac:(lia)) as (H1 & _ & H3 & _ & H5 & _).
  split; [apply H1; reflexivity |]. split; [rewrite H3; reflexivity | exact H5].
Defined.

(** C10.  With no byte pending (the shared byte is 0), [read_keyb] yields
    the null character and leaves the byte at 0, yet sets the press flag to
    1, the very flag a real key press such as 0x1E produces; a non-null
    character, on the other hand, is only ever decoded from a non-zero
    byte, so the character is what tells that an event arrived. *)
Theorem read_keyb_nothing_pending (c p : Z) :
  read_keyb (Keyboard 0 c p) = Keyboard 0 0 1
  /\ keyb_pressed (read_keyb (Keyboard 0 c p))
     = keyb_pressed (read_keyb (Keyboard 0x1E c p))
  /\ keyb_char (read_keyb (Keyboard 0 c p))
     <> keyb_char (read_keyb (Keyboard 0x1E c p))
  /\ forall sc, 0 <= sc < 256 ->
       keyb_char (read_keyb (Keyboard sc c p)) <> 0 -> sc <> 0.
Proof.
  repeat split.
  - discriminate.
  - intros sc Hsc Hch ->. apply Hch. reflexivity.
Qed.

Lemma read_keyb_nothing_pending_witness :
  read_keyb (Keyboard 0 0 0) = Keyboard 0 0 1 /\ 0x1E <> 0.
Proof.
  destruct (read_keyb_nothing_pending 0 0) as (H1 & _ & _ & H4).
  split; [exact H1 |].
  apply H4; [lia | vm_compute; discriminate].
Defined.

(** ** Timer *)

Lemma low_byte d : Z.land d 0xFF = d mod 256.
Proof. apply (Z.land_ones d 8). lia. Qed.

Lemma second_byte d : Z.land (Z.shiftr d 8) 0xFF = (d / 256) mod 256.
Proof. rewrite low_byte, Z.shiftr_div_pow2 by lia. reflexivity. Qed.

(** C9.  For a non-zero frequency the divisor is the integer quotient
    1193182 / hz, replaced by 1 when that quotient is 0, and three bytes
    go out in this order: the mode command 0x34 to the command port, then
    the low byte and the next byte of the divisor to the channel-0 port
    (from 19 Hz upward the two bytes are the whole divisor).  For hz = 0
    nothing is written. *)
Theorem pit_set_frequency_writes (hz : Z) (io : list (Z * Z)) :
  0 <= hz < 2 ^ 32 ->
  let d := Z.max 1 (1193182 / hz) in
  (0 < hz ->
     pit_set_frequency hz io
     = io ++ [(0x43, 0x34); (0x40, d mod 256); (0x40, (d / 256) mod 256)])
  /\ (0 < hz -> 1193182 / hz = 0 -> d = 1)
  /\ (19 <= hz -> d mod 256 + 256 * ((d / 256) mod 256) = d)
  /\ (hz = 0 -> pit_set_frequency hz io = io).
Proof.
  intros Hhz d. repeat split.
  - intros Hpos. unfold pit_set_frequency.
    destruct (Z.eqb_spec hz 0) as [|_]; [lia |].
    cbv zeta. rewrite second_byte, low_byte. unfold outb, PIT_BASE_HZ.
    assert (Hd : (if 1193182 / hz =? 0 then 1 else 1193182 / hz) = d).
    { subst d. pose proof (Z.div_pos 1193182 hz ltac:(lia) Hpos).
      destruct (Z.eqb_spec (1193182 / hz) 0); lia. }
    rewrite Hd, <- !app_assoc. reflexivity.
  - intros _ Hq. subst d. rewrite Hq. reflexivity.
  - intros H19. subst d.
    assert (0 <= 1193182 / hz < 65536).
    { split; [apply Z.div_pos; lia |]. apply Z.div_lt_upper_bound; lia. }
    assert (Hm : 0 <= Z.max 1 (1193182 / hz) < 65536) by lia.
    revert Hm. generalize (Z.max 1 (1193182 / hz)). intros m Hm.
    rewrite (Z.mod_small (m / 256)).
    + pose proof (Z.div_mod m 256 ltac:(lia)). lia.
    + split; [apply Z.div_pos; lia | apply Z.div_lt_upper_bound; lia].
  - intros ->. reflexivity.
Qed.

Lemma pit_set_frequency_writes_witness :
  pit_set_frequency 100 [] = [(0x43, 0x34); (0x40, 0x9B); (0x40, 0x2E)]
  /\ pit_set_frequency 0 [] = [].
Proof.
  destruct (pit_set_frequency_writes 100 [] ltac:(lia)) as (H1 & _ & _ & H4).
  split; [apply H1; lia |].
  destruct (pit_set_frequency_writes 0 [] ltac:(lia)) as (_ & _ & _ & H0).
  apply H0. reflexivity.
Defined.

(** ** Frame store *)

Section DrawLoop.

(** The loop over the index range [a, a + n), for buffers of any common
    length that covers the range. *)
Lemma draw_loop_spec (n : nat) : forall (a : nat) (v : video),
  (a + n <= length (curr_frame v))%nat ->
  let v' := foldl draw_cell v (seq a n) in
  next_frame v' = next_frame v
  /\ length (curr_frame v') = length (curr_frame v)
  /\ (forall i, (a <= i < a + n)%nat ->
        curr_frame v' !!! i = next_frame v !!! i)
  /\ (forall i, ~ (a <= i < a + n)%nat ->
        curr_frame v' !!! i = curr_frame v !!! i)
  /\ VGA v' = VGA v ++
       map (fun i => (i, to_ushort (next_frame v !!! i)))
           (changed_cells (curr_frame v) (next_frame v) (seq a n)).
Proof.
  induction n as [|n IH]; intros a v Hlen; cbn [seq foldl].
  - cbn. rewrite app_nil_r. repeat split; intros; try reflexivity; lia.
  - set (v1 := draw_cell v a).
    assert (Hn1 : next_frame v1 = next_frame v).
    { unfold v1, draw_cell. destruct (negb _); reflexivity. }
    assert (Hl1 : length (curr_frame v1) = length (curr_frame v)).
    { unfold v1, draw_cell. destruct (negb _); cbn; [apply length_insert | reflexivity]. }
    assert (Ha1 : curr_frame v1 !!! a = next_frame v !!! a).
    { unfold v1, draw_cell.
      destruct (Z.eqb_spec (curr_frame v !!! a) (next_frame v !!! a)) as [E|E]; cbn.
      - exact E.
      - apply list_lookup_total_insert_eq. lia. }
    assert (Ho1 : forall i, i <> a -> curr_frame v1 !!! i = curr_frame v !!! i).
    { intros i Hi. unfold v1, draw_cell. destruct (negb _); cbn; [| reflexivity].
      apply list_lookup_total_insert_ne. congruence. }
    assert (Hv1 : VGA v1 = VGA v ++
              map (fun i => (i, to_ushort (next_frame v !!! i)))
                  (changed_cells (curr_frame v) (next_frame v) [a])).
    { unfold v1, draw_cell, changed_cells. cbn [List.filter].
      destruct (negb (curr_frame v !!! a =? next_frame v !!! a)) eqn:E; cbn.
      - rewrite list_lookup_total_insert_eq by lia. reflexivity.
      - rewrite app_nil_r. reflexivity. }
    destruct (IH (S a) v1 ltac:(lia)) as (Hn & Hl & Hin & Hout & Hvga).
    repeat split.
    + congruence.
    + congruence.
    + intros i Hi. destruct (decide (i = a)) as [->|Hne].
      * rewrite Hout by lia. exact Ha1.
      * rewrite Hin by lia. rewrite Hn1. reflexivity.
    + intros i Hi. rewrite Hout by lia. apply Ho1. lia.
    + rewrite Hvga, Hv1, Hn1, <- app_assoc, <- map_app. do 2 f_equal.
      unfold changed_cells. cbn [List.filter].
      replace (List.filter _ (seq (S a) n))
        with (List.filter (fun i => negb (curr_frame v !!! i =? next_frame v !!! i))
                          (seq (S a) n)).
      { destruct (negb _); reflexivity. }
      apply filter_ext_in. intros i Hi. apply in_seq in Hi.
      rewrite Ho1 by lia. reflexivity.
Qed.

(** The whole pass, for buffers of [n] cells. *)
Lemma draw_pass_spec (n : nat) (v : video) :
  length (curr_frame v) = n ->
  length (next_frame v) = n ->
  let v' := foldl draw_cell v (seq 0 n) in
  VGA v' = VGA v ++
     map (fun i => (i, to_ushort (next_frame v !!! i)))
         (changed_cells (curr_frame v) (next_frame v) (seq 0 n))
  /\ (forall i, In i (changed_cells (curr_frame v) (next_frame v) (seq 0 n))
        <-> (i < n)%nat /\ curr_frame v !!! i <> next_frame v !!! i)
  /\ curr_frame v' = next_frame v
  /\ next_frame v' = next_frame v.
Proof.
  intros Hc Hn v'.
  destruct (draw_loop_spec n 0 v ltac:(lia)) as (Hn' & Hl & Hin & _ & Hvga).
  fold v' in Hn', Hl, Hin, Hvga.
  split; [exact Hvga |]. split; [| split; [| exact Hn']].
  - intros i. unfold changed_cells.
    rewrite filter_In, in_seq, negb_true_iff, Z.eqb_neq.
    split; intros [H1 H2]; (split; [lia | exact H2]).
  - apply (list_eq_same_length _ _ n); [exact Hn | congruence |].
    intros i x y Hi Hx Hy.
    apply list_lookup_total_correct in Hx, Hy.
    rewrite <- Hx, <- Hy. apply Hin. lia.
Qed.

End DrawLoop.

(** C7.  On two 2000-cell buffers, [draw_next_frame] stores to the display
    exactly the cells where the shown buffer differs from the desired one
    (each once, in index order, with the desired value), leaves the desired
    buffer alone, and ends with the shown buffer equal to the desired one;
    an index is written iff its two values differed. *)
Theorem draw_next_frame_diff (v : video) :
  length (curr_frame v) = 2000%nat ->
  length (next_frame v) = 2000%nat ->
  let v' := draw_next_frame v in
  VGA v' = VGA v ++
     map (fun i => (i, to_ushort (next_frame v !!! i)))
         (changed_cells (curr_frame v) (next_frame v) (seq 0 2000))
  /\ (forall i, In i (changed_cells (curr_frame v) (next_frame v) (seq 0 2000))
        <-> (i < 2000)%nat /\ curr_frame v !!! i <> next_frame v !!! i)
  /\ curr_frame v' = next_frame v
  /\ next_frame v' = next_frame v.
Proof. exact (draw_pass_spec 2000 v). Qed.

Lemma draw_next_frame_diff_witness :
  let v := Video (replicate 2000 0x0700) (<[ 81%nat := 0x0723 ]> (replicate 2000 0x0700)) [] in
  VGA (draw_next_frame v) = [(81%nat, 0x0723)]
  /\ curr_frame (draw_next_frame v) = next_frame v.
Proof.
  intros v.
  destruct (draw_next_frame_diff v) as (H1 & _ & H3 & _);
    [vm_compute; reflexivity | vm_compute; reflexivity |].
  split; [rewrite H1; vm_compute; reflexivity | exact H3].
Defined.

(** ** Collision test *)

Example spawn_line :
  create_tetrominoe (Tet (0,0) (0,0) (0,0) (0,0)) empty_grid block_colours PIECE_LINE
  = Some (1, Tet (4,1) (5,1) (6,1) (7,1),
          <[ 141%nat := 0x0700 ]> (<[ 121%nat := 0x0700 ]>
            (<[ 101%nat := 0x0700 ]> (<[ 81%nat := 0x0700 ]> empty_grid)))).
Proof. reflexivity. Qed.

Lemma in_grid_iff (c : cell) :
  in_grid c = true <-> 0 <= c.1 < 10 /\ 0 <= c.2 < 20.
Proof.
  unfold in_grid, GRID_SIZE_X, GRID_SIZE_Y.
  rewrite !andb_true_iff, !Z.leb_le, !Z.ltb_lt. lia.
Qed.

Lemma idx_lt (c : cell) : in_grid c = true -> (idx c < 200)%nat.
Proof. rewrite in_grid_iff. unfold idx, GRID_SIZE_Y. lia. Qed.

Lemma idx_inj (c c' : cell) :
  in_grid c = true -> in_grid c' = true -> idx c = idx c' -> c = c'.
Proof.
  rewrite !in_grid_iff. destruct c as [x y], c' as [x' y'].
  unfold idx, GRID_SIZE_Y; cbn. intros ? ? ?. f_equal; lia.
Qed.

Lemma on_grid_cells (t : tetrominoe) :
  on_grid t <->
  in_grid (t0 t) = true /\ in_grid (t1 t) = true
  /\ in_grid (t2 t) = true /\ in_grid (t3 t) = true.
Proof.
  unfold on_grid, cells. rewrite !Forall_cons_iff, Forall_nil_iff. tauto.
Qed.

Lemma set_cells_paint t v g :
  on_grid t -> set_cells t v g = Some (paint t v g).
Proof.
  rewrite on_grid_cells. intros (H0 & H1 & H2 & H3).
  unfold set_cells, grid_set, paint. rewrite H0, H1, H2, H3. reflexivity.
Qed.

Lemma set_cells_inv t v g g' :
  set_cells t v g = Some g' -> on_grid t /\ g' = paint t v g.
Proof.
  unfold set_cells, grid_set, paint. rewrite on_grid_cells.
  destruct (in_grid (t0 t)); [cbn | discriminate].
  destruct (in_grid (t1 t)); [cbn | discriminate].
  destruct (in_grid (t2 t)); [cbn | discriminate].
  destruct (in_grid (t3 t)); [cbn | discriminate].
  intros [= <-]. auto.
Qed.

Lemma paint_length t v g : length (paint t v g) = length g.
Proof. unfold paint. rewrite !length_insert. reflexivity. Qed.

Lemma paint_wf t v g : wf_grid g -> wf_grid (paint t v g).
Proof. unfold wf_grid. rewrite paint_length. auto. Qed.

Lemma inserts_lookup (v : Z) (js : list nat) : forall (g : playfield) (i : nat),
  Forall (fun j => (j < length g)%nat) js ->
  foldl (fun g j => <[ j := v ]> g) g js !!! i
  = if decide (i ∈ js) then v else g !!! i.
Proof.
  induction js as [|j js IH]; intros g i Hjs; cbn [foldl].
  - rewrite decide_False; [reflexivity | apply not_elem_of_nil].
  - apply Forall_cons_iff in Hjs as [Hj Hjs].
    rewrite IH by (rewrite length_insert; exact Hjs).
    destruct (decide (i ∈ js)) as [Hin|Hout].
    + rewrite decide_True; [reflexivity | apply elem_of_cons; auto].
    + destruct (decide (i = j)) as [->|Hne].
      * rewrite decide_True by (apply elem_of_cons; auto).
        apply list_lookup_total_insert_eq, Hj.
      * rewrite decide_False by (rewrite elem_of_cons; tauto).
        apply list_lookup_total_insert_ne. congruence.
Qed.

(** Reading a painted grid: the four cells hold [v], the rest is as
    before. *)
Lemma paint_lookup t v g (i : nat) :
  wf_grid g -> on_grid t ->
  paint t v g !!! i = if decide (i ∈ idx <$> cells t) then v else g !!! i.
Proof.
  intros Hwf Ht. unfold wf_grid in Hwf.
  change (paint t v g) with (foldl (fun g j => <[ j := v ]> g) g (idx <$> cells t)).
  apply inserts_lookup. rewrite Hwf. unfold on_grid in Ht.
  rewrite Forall_forall in *. intros j Hj.
  apply list_elem_of_In, list_elem_of_fmap in Hj as (c & -> & Hc).
  apply idx_lt, Ht, list_elem_of_In, Hc.
Qed.

Lemma grid_at_paint t v g (c : cell) :
  wf_grid g -> on_grid t -> in_grid c = true ->
  grid_at (paint t v g) c = if decide (c ∈ cells t) then v else grid_at g c.
Proof.
  intros Hwf Ht Hc. unfold grid_at. rewrite paint_lookup by assumption.
  destruct (decide (c ∈ cells t)) as [Hin|Hout].
  - rewrite decide_True; [reflexivity |]. apply list_elem_of_fmap. eauto.
  - rewrite decide_False; [reflexivity |].
    intros (c' & Hidx & Hc')%list_elem_of_fmap. apply Hout.
    assert (c = c') as ->; [| assumption].
    apply idx_inj; [assumption | | assumption].
    unfold on_grid in Ht. rewrite Forall_forall in Ht.
    apply Ht, list_elem_of_In, Hc'.
Qed.

Lemma check_true_iff t g :
  check_tetrominoe_collision t g = true <->
  on_grid t /\ Forall (fun c => grid_at g c = 0) (cells t).
Proof.
  unfold check_tetrominoe_collision.
  rewrite on_grid_cells. unfold cells, in_grid.
  rewrite !Forall_cons_iff, Forall_nil_iff, !andb_true_iff, !Z.leb_le, !Z.ltb_lt, !Z.eqb_eq. cbn. tauto.
Qed.

#[local] Arguments check_tetrominoe_collision : simpl never.
#[local] Arguments set_cells : simpl never.
#[local] Arguments rotated : simpl never.
#[local] Arguments moved_tetrominoe : simpl never.
#[local] Arguments paint : simpl never.
#[local] Arguments to_short : simpl never.

Lemma check_on_grid t g : check_tetrominoe_collision t g = true -> on_grid t.
Proof. rewrite check_true_iff. tauto. Qed.

(** [move_tetrominoe] is defined exactly on pieces that lie on the grid,
    and there it is the clear, test, commit-or-restore sequence. *)
Lemma move_tetrominoe_eq t g d :
  on_grid t ->
  move_tetrominoe t g d =
    let gc := paint t 0 g in
    let c := to_short (grid_at g (t0 t)) in
    let new := moved_tetrominoe t d in
    if check_tetrominoe_collision new gc
    then Some (1, new, paint new c gc)
    else Some (0, t, paint t c gc).
Proof.
  intros Ht. unfold move_tetrominoe, grid_get.
  pose proof Ht as (H0 & _)%on_grid_cells. rewrite H0. cbn.
  rewrite set_cells_paint by assumption. cbn.
  destruct (check_tetrominoe_collision _ _) eqn:E; cbn.
  - rewrite set_cells_paint by (eapply check_on_grid, E). reflexivity.
  - rewrite set_cells_paint by assumption. reflexivity.
Qed.

Lemma move_tetrominoe_defined t g d r :
  move_tetrominoe t g d = Some r -> on_grid t.
Proof.
  unfold move_tetrominoe. destruct (grid_get g (t0 t)); [cbn | discriminate].
  destruct (set_cells t 0 g) as [gc|] eqn:E; [| discriminate].
  intros _. apply set_cells_inv in E. tauto.
Qed.

Lemma rotate_tetrominoe_eq t g type m :
  max_ext type = Some m ->
  on_grid t ->
  rotate_tetrominoe t g type =
    let gc := paint t 0 g in
    let c := to_short (grid_at g (t0 t)) in
    let t' := if check_tetrominoe_collision (rotated m t) gc
              then rotated m t else t in
    Some (t', paint t' c gc).
Proof.
  intros Hm Ht. unfold rotate_tetrominoe, grid_get. rewrite Hm. cbn.
  pose proof Ht as (H0 & _)%on_grid_cells. rewrite H0. cbn.
  rewrite set_cells_paint by assumption. cbn.
  destruct (check_tetrominoe_collision _ _) eqn:E; cbn.
  - rewrite set_cells_paint by (eapply check_on_grid, E). reflexivity.
  - rewrite set_cells_paint by assumption. reflexivity.
Qed.

Lemma rotate_tetrominoe_defined t g type r :
  rotate_tetrominoe t g type = Some r -> on_grid t.
Proof.
  unfold rotate_tetrominoe. destruct (max_ext type); [cbn | discriminate].
  destruct (grid_get g (t0 t)); [cbn | discriminate].
  destruct (set_cells t 0 g) as [gc|] eqn:E; [| discriminate].
  intros _. apply set_cells_inv in E. tauto.
Qed.

(** C1.  The test answers true exactly when each of the four cells has
    0 <= x < 10, 0 <= y < 20 and a grid value of 0.  [move_tetrominoe] and
    [rotate_tetrominoe] run it on the grid in which the piece's own four
    cells have just been set to 0, and on that grid the piece's own
    placement always passes: a piece does not collide with itself. *)
Theorem check_tetrominoe_collision_spec (t : tetrominoe) (g : playfield) :
  (check_tetrominoe_collision t g = true <->
     Forall (fun c => (0 <= c.1 < 10 /\ 0 <= c.2 < 20) /\ grid_at g c = 0)
            (cells t))
  /\ (forall g0, wf_grid g0 -> set_cells t 0 g0 = Some g ->
        check_tetrominoe_collision t g = true)
  /\ (forall d moved t' g',
        move_tetrominoe t g d = Some (moved, t', g') ->
        exists gc, set_cells t 0 g = Some gc
          /\ (moved = 1 <-> check_tetrominoe_collision (moved_tetrominoe t d) gc = true))
  /\ (forall type m t' g',
        max_ext type = Some m ->
        rotate_tetrominoe t g type = Some (t', g') ->
        exists gc, set_cells t 0 g = Some gc
          /\ t' = if check_tetrominoe_collision (rotated m t) gc
                  then rotated m t else t).
Proof.
  split; [| split; [| split]].
  - rewrite check_true_iff. unfold on_grid. rewrite !Forall_forall. split.
    + intros [A B] c Hc. rewrite <- in_grid_iff. auto.
    + intros H. split; intros c Hc; [apply in_grid_iff |]; apply H, Hc.
  - intros g0 Hwf Hset. apply set_cells_inv in Hset as [Ht ->].
    rewrite check_true_iff. split; [assumption |].
    rewrite Forall_forall. intros c Hc.
    rewrite grid_at_paint; try assumption.
    + rewrite decide_True; [reflexivity | apply list_elem_of_In, Hc].
    + unfold on_grid in Ht. rewrite Forall_forall in Ht. auto.
  - intros d moved t' g' H.
    pose proof (move_tetrominoe_defined _ _ _ _ H) as Ht.
    rewrite move_tetrominoe_eq in H by assumption. cbn zeta in H.
    exists (paint t 0 g). split; [apply set_cells_paint, Ht |].
    destruct (check_tetrominoe_collision _ _); injection H as <- _ _;
      split; congruence.
  - intros type m t' g' Hm H.
    pose proof (rotate_tetrominoe_defined _ _ _ _ H) as Ht.
    rewrite (rotate_tetrominoe_eq _ _ _ _ Hm Ht) in H. cbn zeta in H.
    exists (paint t 0 g). split; [apply set_cells_paint, Ht |].
    assert (E : forall (a : tetrominoe) (b : playfield),
               Some (a, b) = Some (t', g') -> t' = a)
      by (intros a b [= -> _]; reflexivity).
    exact (E _ _ H).
Qed.

Lemma check_tetrominoe_collision_spec_witness :
  check_tetrominoe_collision (Tet (4,1) (5,1) (6,1) (7,1)) empty_grid = true
  /\ check_tetrominoe_collision (Tet (4,1) (5,1) (6,1) (7,1))
       (paint (Tet (4,1) (5,1) (6,1) (7,1)) 0 (replicate 200 0x0700)) = true.
Proof.
  split.
  - apply (check_tetrominoe_collision_spec (Tet (4,1) (5,1) (6,1) (7,1)) empty_grid).
    repeat (constructor; [split; [cbn; lia | reflexivity] |]). constructor.
  - apply (check_tetrominoe_collision_spec (Tet (4,1) (5,1) (6,1) (7,1)) _)
      with (g0 := replicate 200 0x0700); reflexivity.
Defined.

(** ** Moving *)

Lemma to_short_id z : -32768 <= z <= 32767 -> to_short z = z.
Proof. intros H. unfold to_short. rewrite Z.mod_small; lia. Qed.

(** Clearing a piece and painting it again with the value its cells all
    held gives the grid back. *)
Lemma paint_restore t v g :
  wf_grid g -> on_grid t ->
  Forall (fun c => grid_at g c = v) (cells t) ->
  paint t v (paint t 0 g) = g.
Proof.
  intros Hwf Ht Hv.
  apply (list_eq_same_length _ _ 200); [exact Hwf | do 2 apply paint_wf; exact Hwf |].
  intros i x y Hi Hx Hy. apply list_lookup_total_correct in Hx, Hy.
  rewrite <- Hx, <- Hy.
  rewrite paint_lookup by (try apply paint_wf; assumption).
  destruct (decide (i ∈ idx <$> cells t)) as [Hin|Hout].
  - apply list_elem_of_fmap in Hin as (c & -> & Hc).
    rewrite Forall_forall in Hv. symmetry. apply Hv, list_elem_of_In, Hc.
  - rewrite paint_lookup by assumption. rewrite decide_False by assumption.
    reflexivity.
Qed.

Lemma moved_down_cells t c :
  In c (cells t) -> In (below c) (cells (moved_tetrominoe t MOVE_DOWN)).
Proof.
  unfold moved_tetrominoe, translate, below, cells.
  rewrite Z.eqb_refl. cbn.
  intros [<-|[<-|[<-|[<-|[]]]]]; rewrite !Z.add_0_r; tauto.
Qed.

(** One blocked cell below the piece is enough for the move down to be
    refused, and a refused move changes nothing. *)
Lemma move_down_refused t g colour :
  wf_grid g ->
  -32768 <= colour <= 32767 ->
  Forall (fun c => in_grid c = true /\ grid_at g c = colour) (cells t) ->
  Exists (fun c => blocked t g (below c)) (cells t) ->
  move_tetrominoe t g MOVE_DOWN = Some (0, t, g).
Proof.
  intros Hwf Hcol Hcells Hblk.
  assert (Ht : on_grid t).
  { unfold on_grid. eapply Forall_impl; [| exact Hcells]. cbn. tauto. }
  assert (Hv : Forall (fun c => grid_at g c = colour) (cells t)).
  { eapply Forall_impl; [| exact Hcells]. cbn. tauto. }
  rewrite move_tetrominoe_eq by assumption. cbn zeta.
  assert (Hc0 : grid_at g (t0 t) = colour).
  { rewrite Forall_forall in Hv. apply Hv. cbn. auto. }
  rewrite Hc0, to_short_id by assumption.
  destruct (check_tetrominoe_collision _ _) eqn:E.
  - exfalso. apply check_true_iff in E as [Hon Hfree].
    apply Exists_exists in Hblk as (c & Hc & [Hoff | [Hnot Hocc]]).
    + unfold on_grid in Hon. rewrite Forall_forall in Hon.
      rewrite (Hon (below c)) in Hoff by (apply moved_down_cells, Hc).
      discriminate.
    + rewrite Forall_forall in Hfree.
      pose proof (Hfree (below c) (moved_down_cells _ _ Hc)) as Hz.
      unfold on_grid in Hon. rewrite Forall_forall in Hon.
      rewrite grid_at_paint in Hz
        by (try assumption; apply Hon, moved_down_cells, Hc).
      rewrite decide_False in Hz by (rewrite list_elem_of_In; assumption).
      contradiction.
  - rewrite paint_restore by assumption. reflexivity.
Qed.

(** C5.  Let the four cells of a piece lie on the grid and all hold the
    piece's colour (a [short]).  If each of the four cells one row below
    them is off the grid or occupied by a cell that is not the piece's,
    then [move_tetrominoe] with [MOVE_DOWN] returns 0, the piece keeps its
    four coordinates, and the grid after the call equals the grid before
    it. *)
Theorem move_down_blocked (t : tetrominoe) (g : playfield) (colour : Z) :
  wf_grid g ->
  -32768 <= colour <= 32767 ->
  Forall (fun c => in_grid c = true /\ grid_at g c = colour) (cells t) ->
  Forall (fun c => blocked t g (below c)) (cells t) ->
  move_tetrominoe t g MOVE_DOWN = Some (0, t, g).
Proof.
  intros Hwf Hcol Hcells Hblk.
  apply (move_down_refused t g colour); try assumption.
  apply Exists_exists. exists (t0 t). split; [cbn; auto |].
  rewrite Forall_forall in Hblk. apply Hblk. cbn. auto.
Qed.

(** A red floor in row 19 and the straight piece lying on it in row 18. *)
Lemma move_down_blocked_witness :
  let t := Tet (4,18) (5,18) (6,18) (7,18) in
  let g := paint t 0x0700 (make_grid (fun c => if c.2 =? 19 then 0x0400 else 0)) in
  move_tetrominoe t g MOVE_DOWN = Some (0, t, g).
Proof.
  intros t g. apply (move_down_blocked t g 0x0700).
  - reflexivity.
  - lia.
  - repeat (constructor; [split; reflexivity |]). constructor.
  - repeat (constructor;
      [right; split;
         [cbn; intros [H|[H|[H|[H|[]]]]]; discriminate H
         | vm_compute; discriminate] |]).
    constructor.
Defined.

(** ** Rotating *)

Section Geometry.

Lemma lowest_min a b c d : lowest a b c d = Z.min (Z.min (Z.min a b) c) d.
Proof.
  unfold lowest. cbv zeta.
  destruct (Z.gtb_spec a b);
    [destruct (Z.gtb_spec b c) | destruct (Z.gtb_spec a c)];
    repeat match goal with
           | |- context [?x >? ?y] => destruct (Z.gtb_spec x y)
           end; lia.
Qed.

Lemma lowest_translate k a b c d :
  lowest (a + k) (b + k) (c + k) (d + k) = lowest a b c d + k.
Proof. rewrite !lowest_min. lia. Qed.

Lemma tet_eq (x0 y0 x1 y1 x2 y2 x3 y3 x0' y0' x1' y1' x2' y2' x3' y3' : Z) :
  x0 = x0' -> y0 = y0' -> x1 = x1' -> y1 = y1' ->
  x2 = x2' -> y2 = y2' -> x3 = x3' -> y3 = y3' ->
  Tet (x0, y0) (x1, y1) (x2, y2) (x3, y3)
  = Tet (x0', y0') (x1', y1') (x2', y2') (x3', y3').
Proof. intros; subst; reflexivity. Qed.

Lemma translate_translate a b a' b' t :
  translate a b (translate a' b' t) = translate (a' + a) (b' + b) t.
Proof. unfold translate. cbn. apply tet_eq; lia. Qed.

Lemma translate_0 t : translate 0 0 t = t.
Proof.
  destruct t as [[] [] [] []]. unfold translate. cbn.
  rewrite !Z.add_0_r. reflexivity.
Qed.

Lemma rotated_translate m dx dy t :
  rotated m (translate dx dy t) = translate dx dy (rotated m t).
Proof.
  unfold rotated, translate. cbn.
  rewrite !lowest_translate. apply tet_eq; lia.
Qed.

Lemma turn_translate type dx dy t :
  turn type (translate dx dy t) = translate dx dy (turn type t).
Proof.
  unfold turn. destruct (max_ext type); [apply rotated_translate | reflexivity].
Qed.

Lemma turns_translate type dx dy (n : nat) t :
  Nat.iter n (turn type) (translate dx dy t)
  = translate dx dy (Nat.iter n (turn type) t).
Proof.
  induction n as [|n IH]; [reflexivity |].
  rewrite !Nat.iter_succ, IH. apply turn_translate.
Qed.

Lemma moved_translate t d :
  exists a b, moved_tetrominoe t d = translate a b t.
Proof.
  unfold moved_tetrominoe.
  repeat match goal with
         | |- context [if ?b then _ else _] => destruct b; [eauto |]
         end.
  exists 0, 0. symmetry. apply translate_0.
Qed.

Lemma piece_types type :
  0 <= type < 7 ->
  type = PIECE_LINE \/ type = PIECE_L \/ type = PIECE_REVERSE_L
  \/ type = PIECE_SQUARE \/ type = PIECE_5 \/ type = PIECE_S
  \/ type = PIECE_T.
Proof.
  unfold PIECE_LINE, PIECE_L, PIECE_REVERSE_L, PIECE_SQUARE, PIECE_5,
    PIECE_S, PIECE_T. lia.
Qed.

Ltac each_type H :=
  apply piece_types in H;
  destruct H as [->|[->|[->|[->|[->|[->| ->]]]]]].

(** The four orientations of each type, from the spawn orientation at
    the corner of the grid; a fifth turn gives the first again, lower. *)
Lemma four_turns type (k : nat) t :
  0 <= type < 7 -> (k < 4)%nat ->
  Nat.iter 4 (turn type) (Nat.iter k (turn type) (setup_tetrominoe t type 0))
  = translate 0 (drift type) (Nat.iter k (turn type) (setup_tetrominoe t type 0)).
Proof.
  intros Hty Hk. each_type Hty;
    (destruct k as [|[|[|[|k]]]]; [| | | | lia]); vm_compute; reflexivity.
Qed.

Lemma spawn_translate type t :
  0 <= type < 7 ->
  setup_tetrominoe t type 4 = translate 4 0 (setup_tetrominoe origin type 0).
Proof. intros Hty. each_type Hty; reflexivity. Qed.

(** Every placement is an orientation moved somewhere. *)
Lemma placement_shape type t :
  placement type t ->
  0 <= type < 7
  /\ exists (k : nat) dx dy,
       (k < 4)%nat
       /\ t = translate dx dy
                (Nat.iter k (turn type) (setup_tetrominoe origin type 0)).
Proof.
  induction 1 as [t Hty | t d _ (Hty & k & dx & dy & Hk & ->)
                 | t _ (Hty & k & dx & dy & Hk & ->)].
  - split; [assumption |]. exists 0%nat, 4, 0. split; [lia |].
    apply spawn_translate, Hty.
  - split; [assumption |].
    destruct (moved_translate
                (translate dx dy (Nat.iter k (turn type)
                   (setup_tetrominoe origin type 0))) d) as (a & b & ->).
    rewrite translate_translate. eauto 6.
  - split; [assumption |]. rewrite turn_translate.
    destruct (decide (k = 3%nat)) as [->|Hne].
    + change (turn type (Nat.iter 3 (turn type) ?s))
        with (Nat.iter 4 (turn type) (Nat.iter 0 (turn type) s)).
      rewrite four_turns by (assumption || lia).
      rewrite translate_translate. exists 0%nat. eauto 6 with lia.
    + exists (S k), dx, dy. split; [lia | reflexivity].
Qed.

Lemma placement_four_turns type t :
  placement type t ->
  Nat.iter 4 (turn type) t = translate 0 (drift type) t.
Proof.
  intros (Hty & k & dx & dy & Hk & ->)%placement_shape.
  rewrite turns_translate, four_turns by assumption.
  rewrite !translate_translate. f_equal; lia.
Qed.

End Geometry.

Lemma rotation_accepted_step t g type :
  rotation_accepted t g type = true ->
  exists g', rotate_tetrominoe t g type = Some (turn type t, g').
Proof.
  unfold rotation_accepted, turn.
  destruct (max_ext type) as [m|] eqn:Hm; [| discriminate].
  destruct (set_cells t 0 g) as [gc|] eqn:Hgc; [| discriminate].
  intros Hchk. apply set_cells_inv in Hgc as [Ht ->].
  rewrite (rotate_tetrominoe_eq _ _ _ _ Hm Ht). cbn zeta.
  rewrite Hchk. eauto.
Qed.

Lemma rotations_accepted_run type (n : nat) : forall t g,
  rotations_accepted n t g type = true ->
  exists g', rotate_times n t g type = Some (Nat.iter n (turn type) t, g').
Proof.
  induction n as [|n IH]; intros t g H.
  - exists g. reflexivity.
  - cbn [rotations_accepted] in H. apply andb_true_iff in H as [Hacc Hrest].
    destruct (rotation_accepted_step _ _ _ Hacc) as (g1 & Hstep).
    rewrite Hstep in Hrest. destruct (IH _ _ Hrest) as (g' & Hrun).
    exists g'. cbn [rotate_times]. rewrite Hstep.
    change (rotate_times n (turn type t) g1 type
            = Some (Nat.iter (S n) (turn type) t, g')).
    rewrite Hrun, Nat.iter_succ_r. reflexivity.
Qed.

(** A piece moved down by a positive number of rows never covers the
    cells it covered before. *)
Lemma sunk_cells_differ d t : 0 < d -> ~ same_cells t (translate 0 d t).
Proof.
  intros Hd Hsame. destruct t as [[x0 y0] [x1 y1] [x2 y2] [x3 y3]].
  unfold same_cells, translate, cells in Hsame. cbn in Hsame.
  assert (Hmax : exists x y, In (x, y) [(x0, y0); (x1, y1); (x2, y2); (x3, y3)]
                   /\ y0 <= y /\ y1 <= y /\ y2 <= y /\ y3 <= y).
  { destruct (Z.eq_dec (Z.max (Z.max y0 y1) (Z.max y2 y3)) y0);
      [exists x0, y0; cbn; split; [tauto | lia] |].
    destruct (Z.eq_dec (Z.max (Z.max y0 y1) (Z.max y2 y3)) y1);
      [exists x1, y1; cbn; split; [tauto | lia] |].
    destruct (Z.eq_dec (Z.max (Z.max y0 y1) (Z.max y2 y3)) y2);
      [exists x2, y2; cbn; split; [tauto | lia] |].
    exists x3, y3; cbn; split; [tauto | lia]. }
  destruct Hmax as (x & y & Hin & H0 & H1 & H2 & H3).
  assert (Hup : In (x + 0, y + d)
                  [(x0 + 0, y0 + d); (x1 + 0, y1 + d); (x2 + 0, y2 + d); (x3 + 0, y3 + d)]).
  { cbn in Hin |- *. destruct Hin as [E|[E|[E|[E|[]]]]]; injection E as <- <-; tauto. }
  apply Hsame in Hup. cbn in Hup.
  destruct Hup as [E|[E|[E|[E|[]]]]]; injection E as _ E; lia.
Qed.

(** C2, as the code has it.  For a piece of any of the seven types, four
    calls of [rotate_tetrominoe] in succession, each of which takes its
    turned placement, are defined and leave the piece in its original
    shape and orientation, each cell moved down by [drift type] rows: 6
    for the straight piece, 0 for the square, 2 for the five others.  So
    the square ends on its original four cells, and no other piece does. *)
Theorem rotate_four_times (type : Z) (t : tetrominoe) (g : playfield) :
  placement type t ->
  rotations_accepted 4 t g type = true ->
  (exists g', rotate_times 4 t g type = Some (translate 0 (drift type) t, g'))
  /\ (type = PIECE_SQUARE -> same_cells t (translate 0 (drift type) t))
  /\ (type <> PIECE_SQUARE -> ~ same_cells t (translate 0 (drift type) t)).
Proof.
  intros Hp Hacc. split; [| split].
  - destruct (rotations_accepted_run _ _ _ _ Hacc) as (g' & Hrun).
    rewrite placement_four_turns in Hrun by assumption. eauto.
  - intros ->. change (drift PIECE_SQUARE) with 0. rewrite translate_0.
    intros c. reflexivity.
  - intros Hne. apply sunk_cells_differ.
    unfold drift, PIECE_LINE, PIECE_SQUARE in *.
    destruct (Z.eqb_spec type 0); [lia |].
    destruct (Z.eqb_spec type 3); lia.
Qed.

(** The L piece just spawned on an otherwise empty grid: after four
    accepted rotations it lies two rows lower. *)
Lemma rotate_four_times_witness :
  let t := setup_tetrominoe origin PIECE_L 4 in
  let g := paint t 0x0400 empty_grid in
  exists g', rotate_times 4 t g PIECE_L
             = Some (Tet (4, 2) (6, 3) (5, 2) (6, 2), g').
Proof.
  intros t g.
  destruct (rotate_four_times PIECE_L t g) as [H _].
  - apply placement_spawn. unfold PIECE_L. lia.
  - vm_compute. reflexivity.
  - exact H.
Defined.

(** C2 as stated fails: the straight piece as spawned, alone on the grid,
    is turned four times, every turn is accepted, and it ends in row 7
    instead of row 1. *)
Lemma rotate_four_times_counterexample :
  let t := setup_tetrominoe origin PIECE_LINE 4 in
  let g := paint t 0x0700 empty_grid in
  placement PIECE_LINE t
  /\ rotations_accepted 4 t g PIECE_LINE = true
  /\ exists t' g',
       rotate_times 4 t g PIECE_LINE = Some (t', g')
       /\ cells t = [(4, 1); (5, 1); (6, 1); (7, 1)]
       /\ cells t' = [(4, 7); (5, 7); (6, 7); (7, 7)]
       /\ ~ same_cells t t'.
Proof.
  intros t g. split; [apply placement_spawn; unfold PIECE_LINE; lia |].
  split; [vm_compute; reflexivity |].
  destruct (rotate_times 4 t g PIECE_LINE) as [[t' g']|] eqn:E;
    [| vm_compute in E; discriminate].
  exists t', g'. split; [reflexivity |].
  assert (Ht' : t' = Tet (4, 7) (5, 7) (6, 7) (7, 7)).
  { vm_compute in E. injection E as <- _. reflexivity. }
  subst t'. split; [reflexivity |]. split; [reflexivity |].
  intros Hsame. destruct (proj1 (Hsame (4, 1))) as [H|[H|[H|[H|[]]]]];
    [cbn; tauto | discriminate H ..].
Qed.

(** ** Finding the complete rows *)

Lemma row_complete_full g y : row_complete g y = true <-> row_full g y.
Proof.
  unfold row_complete, row_full, GRID_SIZE_X. rewrite forallb_forall. split.
  - intros H x Hx. apply Z.eqb_neq, negb_true_iff, H, list_elem_of_In.
    rewrite elem_of_seqZ. lia.
  - intros H x Hx%list_elem_of_In. rewrite elem_of_seqZ in Hx.
    apply negb_true_iff, Z.eqb_neq, H. lia.
Qed.

Lemma complete_rows_full g y :
  In y (complete_rows g) <-> 0 <= y < 20 /\ row_full g y.
Proof.
  unfold complete_rows, GRID_SIZE_Y.
  rewrite filter_In, <- list_elem_of_In, elem_of_seqZ, row_complete_full.
  rewrite Z.add_0_l. reflexivity.
Qed.

Section ScanRows.

Variable g : playfield.
Variable slots : list Z.
Hypothesis slots_len : length slots = 4%nat.

Lemma scan_store (found : list Z) (y : Z) :
  (length found < 4)%nat ->
  <[ length found := y ]> (found ++ drop (length found) slots)
  = (found ++ [y]) ++ drop (length (found ++ [y])) slots.
Proof.
  intros Hlt. rewrite insert_app_r_alt by lia. rewrite Nat.sub_diag.
  destruct (lookup_lt_is_Some_2 slots (length found) ltac:(lia)) as [z Hz].
  rewrite (drop_S _ _ _ Hz). cbn. rewrite <- app_assoc, length_app. cbn.
  rewrite Nat.add_1_r. reflexivity.
Qed.

Lemma scan_rows (ys : list Z) : forall found : list Z,
  (length (found ++ List.filter (row_complete g) ys) <= 4)%nat ->
  foldl (get_remove_lines_row g) (scanned slots found) ys
  = scanned slots (found ++ List.filter (row_complete g) ys).
Proof.
  induction ys as [|y ys IH]; intros found Hle; cbn [foldl List.filter].
  - rewrite app_nil_r. reflexivity.
  - cbn [List.filter] in Hle. unfold scanned at 1. cbn.
    destruct (row_complete g y) eqn:Hy.
    + rewrite length_app in Hle. cbn in Hle.
      destruct (Z.ltb_spec (Z.of_nat (length found)) 4) as [_|]; [| lia].
      rewrite Nat2Z.id, scan_store by lia.
      replace (Z.of_nat (length found) + 1)
        with (Z.of_nat (length (found ++ [y])))
        by (rewrite length_app; cbn; lia).
      fold (scanned slots (found ++ [y])). rewrite IH.
      * rewrite <- app_assoc. reflexivity.
      * rewrite <- app_assoc. cbn. rewrite length_app. cbn. lia.
    + apply IH, Hle.
Qed.

End ScanRows.

(** C6, as the code has it.  On a grid with at most four complete rows,
    [get_remove_lines] returns the number of complete rows and stores
    their indices, top to bottom, in the first slots, leaving the other
    slots alone; a row is among the stored ones iff all its 10 cells are
    non-zero.  With all four slots at -1 before the call, the slots hold a
    row index y iff row y is complete. *)
Theorem get_remove_lines_complete (g : playfield) (slots : list Z) :
  length slots = 4%nat ->
  (length (complete_rows g) <= 4)%nat ->
  get_remove_lines g slots
    = Some (Z.of_nat (length (complete_rows g)),
            complete_rows g ++ drop (length (complete_rows g)) slots)
  /\ (forall y, In y (complete_rows g) <-> 0 <= y < 20 /\ row_full g y)
  /\ (slots = [-1; -1; -1; -1] ->
      forall y, 0 <= y < 20 ->
        (In y (complete_rows g ++ drop (length (complete_rows g)) slots)
         <-> row_full g y)).
Proof.
  intros Hlen Hle. split; [| split].
  - apply (scan_rows g slots Hlen (seqZ 0 GRID_SIZE_Y) []). exact Hle.
  - apply complete_rows_full.
  - intros -> y Hy. rewrite in_app_iff, complete_rows_full. split.
    + intros [[_ H] | H]; [exact H |]. exfalso.
      assert (Hs : forall (n : nat), In y (drop n [-1; -1; -1; -1]) -> y = -1).
      { intros [|[|[|[|n]]]]; cbn; [| | | | rewrite drop_nil; cbn]; intuition auto. }
      apply Hs in H. lia.
    + intros H. left. split; assumption.
Qed.

Lemma get_remove_lines_complete_witness :
  let g := make_grid (fun c => if (17 <=? c.2) && negb (c.2 =? 18) then 0x0400
                               else if c.1 =? 3 then 0 else 0x0200) in
  get_remove_lines g [-1; -1; -1; -1] = Some (2, [17; 19; -1; -1]).
Proof.
  intros g.
  destruct (get_remove_lines_complete g [-1; -1; -1; -1]) as (H & _).
  - reflexivity.
  - vm_compute. lia.
  - exact H.
Defined.

(** C6 as stated, for every grid, fails: with five complete rows the fifth
    index is stored past the four slots, and the call has no defined
    result. *)
Lemma get_remove_lines_counterexample :
  let g := make_grid (fun c => if 15 <=? c.2 then 0x0400 else 0) in
  complete_rows g = [15; 16; 17; 18; 19]
  /\ get_remove_lines g [-1; -1; -1; -1] = None.
Proof. split; vm_compute; reflexivity. Qed.

(** ** Removing rows *)

Example remove_line_top_empty :
  let g := make_grid (fun c => if c.2 =? 19 then 0x0400
                               else if (c.2 =? 18) && (c.1 <? 4) then 0x0200 else 0) in
  do_remove_lines g [19; -1; -1; -1]
  = Some (1, spec_remove_line g 19, [-1; -1; -1; -1]).
Proof. vm_compute. reflexivity. Qed.

Section GridCells.

Lemma make_grid_wf f : wf_grid (make_grid f).
Proof. unfold wf_grid, make_grid. rewrite length_fmap, length_seqZ. reflexivity. Qed.

Lemma make_grid_lookup f (i : nat) :
  (i < 200)%nat ->
  make_grid f !!! i = f (Z.of_nat i / 20, Z.of_nat i mod 20).
Proof.
  intros Hi. unfold make_grid, GRID_SIZE_Y.
  rewrite (list_lookup_total_fmap (fun i => f (i / 20, i mod 20)) (seqZ 0 200) i)
    by (rewrite length_seqZ; lia).
  rewrite lookup_total_seqZ_lt by lia. reflexivity.
Qed.

Lemma cell_of_idx (i : nat) :
  (i < 200)%nat ->
  let c := (Z.of_nat i / 20, Z.of_nat i mod 20) in
  in_grid c = true /\ idx c = i.
Proof.
  intros Hi c. subst c.
  pose proof (Z.div_mod (Z.of_nat i) 20 ltac:(lia)) as Hdm.
  pose proof (Z.mod_pos_bound (Z.of_nat i) 20 ltac:(lia)) as Hm.
  split.
  - apply in_grid_iff. cbn. lia.
  - unfold idx, GRID_SIZE_Y. cbn. lia.
Qed.

Lemma idx_cell (c : cell) :
  in_grid c = true ->
  (Z.of_nat (idx c) / 20, Z.of_nat (idx c) mod 20) = c.
Proof.
  intros Hc. apply idx_inj; [| assumption |].
  - apply cell_of_idx, idx_lt, Hc.
  - apply cell_of_idx, idx_lt, Hc.
Qed.

Lemma grid_at_make_grid f c : in_grid c = true -> grid_at (make_grid f) c = f c.
Proof.
  intros Hc. unfold grid_at.
  rewrite make_grid_lookup by (apply idx_lt, Hc).
  rewrite idx_cell by assumption. reflexivity.
Qed.

(** A grid is determined by its cells. *)
Lemma grid_ext g f :
  wf_grid g ->
  (forall c, in_grid c = true -> grid_at g c = f c) ->
  g = make_grid f.
Proof.
  intros Hwf H.
  apply (list_eq_same_length _ _ 200); [apply make_grid_wf | exact Hwf |].
  intros i x y Hi Hx Hy. apply list_lookup_total_correct in Hx, Hy.
  rewrite <- Hx, <- Hy, make_grid_lookup by assumption.
  destruct (cell_of_idx i Hi) as [Hin Hidx].
  rewrite <- (H _ Hin). unfold grid_at. rewrite Hidx. reflexivity.
Qed.

Lemma make_grid_ext f f' :
  (forall c, in_grid c = true -> f c = f' c) -> make_grid f = make_grid f'.
Proof.
  intros H. apply grid_ext; [apply make_grid_wf |].
  intros c Hc. rewrite grid_at_make_grid by assumption. apply H, Hc.
Qed.

Lemma insert_wf g (i : nat) v : wf_grid g -> wf_grid (<[ i := v ]> g).
Proof. unfold wf_grid. rewrite length_insert. auto. Qed.

Lemma grid_at_insert g c v c' :
  wf_grid g -> in_grid c = true -> in_grid c' = true ->
  grid_at (<[ idx c := v ]> g) c' = if decide (c = c') then v else grid_at g c'.
Proof.
  intros Hwf Hc Hc'. unfold grid_at. destruct (decide (c = c')) as [<-|Hne].
  - apply list_lookup_total_insert_eq. rewrite Hwf. apply idx_lt, Hc.
  - apply list_lookup_total_insert_ne. intros E. apply Hne, idx_inj; assumption.
Qed.

End GridCells.

Section RowLoops.

(** A loop that stores [v g x] at [(x, y)] for the columns [xs], where
    the value never depends on row [y] itself. *)
Lemma set_row_spec (y : Z) (v : playfield -> Z -> Z) (xs : list Z) :
  0 <= y < 20 ->
  Forall (fun x => 0 <= x < 10) xs ->
  (forall g1 g2 x, 0 <= x < 10 ->
     (forall c, in_grid c = true -> c.2 <> y -> grid_at g1 c = grid_at g2 c) ->
     v g1 x = v g2 x) ->
  forall g, wf_grid g ->
  let g' := foldl (fun g x => <[ idx (x, y) := v g x ]> g) g xs in
  wf_grid g'
  /\ forall c, in_grid c = true ->
       grid_at g' c = if decide (c.2 = y /\ c.1 ∈ xs) then v g c.1 else grid_at g c.
Proof.
  intros Hy Hxs Hv. induction xs as [|x xs IH]; intros g Hwf; cbn [foldl].
  - split; [assumption |]. intros c Hc.
    rewrite decide_False; [reflexivity |]. intros [_ H]. inversion H.
  - apply Forall_cons_iff in Hxs as [Hx Hxs].
    assert (Hxy : in_grid (x, y) = true) by (apply in_grid_iff; cbn; lia).
    set (g1 := <[ idx (x, y) := v g x ]> g).
    assert (Hwf1 : wf_grid g1) by (apply insert_wf, Hwf).
    assert (Hoff : forall c, in_grid c = true -> c.2 <> y ->
                             grid_at g1 c = grid_at g c).
    { intros c Hc Hne. unfold g1. rewrite grid_at_insert by assumption.
      rewrite decide_False; [reflexivity |]. intros <-. apply Hne. reflexivity. }
    destruct (IH Hxs g1 Hwf1) as [Hwf' Hat]. split; [exact Hwf' |].
    intros c Hc. rewrite (Hat c Hc).
    assert (Hc1 : 0 <= c.1 < 10) by (apply in_grid_iff in Hc; lia).
    destruct (decide (c.2 = y /\ c.1 ∈ xs)) as [[E Hin]|Hn].
    + rewrite decide_True by (split; [exact E | apply elem_of_cons; auto]).
      apply Hv; assumption.
    + unfold g1. rewrite grid_at_insert by assumption.
      destruct (decide ((x, y) = c)) as [<-|Hne].
      * rewrite decide_True by reflexivity.
        rewrite decide_True; [reflexivity |].
        split; [reflexivity | apply elem_of_cons; auto].
      * rewrite (decide_False (P := (x, y) = c)) by assumption.
        rewrite decide_False; [reflexivity |].
        intros [E [Ex|Hin]%elem_of_cons]; [| tauto].
        apply Hne. destruct c; cbn in *; congruence.
Qed.

Lemma columns_bounds : Forall (fun x => 0 <= x < 10) (seqZ 0 GRID_SIZE_X).
Proof.
  rewrite Forall_forall. intros x Hx%list_elem_of_In.
  rewrite elem_of_seqZ in Hx. unfold GRID_SIZE_X in Hx. lia.
Qed.

Lemma in_columns (c : cell) : in_grid c = true -> c.1 ∈ seqZ 0 GRID_SIZE_X.
Proof.
  intros Hc%in_grid_iff. rewrite elem_of_seqZ. unfold GRID_SIZE_X. lia.
Qed.

Lemma clear_row_spec g y :
  wf_grid g -> 0 <= y < 20 ->
  wf_grid (clear_row g y)
  /\ forall c, in_grid c = true ->
       grid_at (clear_row g y) c = if decide (c.2 = y) then 0 else grid_at g c.
Proof.
  intros Hwf Hy.
  destruct (set_row_spec y (fun _ _ => 0) (seqZ 0 GRID_SIZE_X) Hy
              columns_bounds ltac:(reflexivity) g Hwf) as [Hwf' Hat].
  split; [exact Hwf' |]. intros c Hc. unfold clear_row. rewrite (Hat c Hc).
  pose proof (in_columns c Hc).
  destruct (decide (c.2 = y)); [rewrite decide_True | rewrite decide_False];
    tauto.
Qed.

Lemma copy_row_down_spec g y :
  wf_grid g -> 1 <= y < 20 ->
  wf_grid (copy_row_down g y)
  /\ forall c, in_grid c = true ->
       grid_at (copy_row_down g y) c
       = if decide (c.2 = y) then grid_at g (c.1, c.2 - 1) else grid_at g c.
Proof.
  intros Hwf Hy.
  destruct (set_row_spec y (fun g x => grid_at g (x, y - 1)) (seqZ 0 GRID_SIZE_X)
              ltac:(lia) columns_bounds) with (g := g) as [Hwf' Hat].
  { intros g1 g2 x Hx Hagree. apply Hagree; [apply in_grid_iff |]; cbn; lia. }
  { exact Hwf. }
  split; [exact Hwf' |]. intros c Hc. unfold copy_row_down. rewrite (Hat c Hc).
  pose proof (in_columns c Hc).
  destruct (decide (c.2 = y)) as [E|];
    [rewrite decide_True by tauto; rewrite E; reflexivity
    | rewrite decide_False by tauto; reflexivity].
Qed.

Lemma shift_down_succ g (n : nat) :
  shift_down g (Z.of_nat (S n))
  = shift_down (copy_row_down g (Z.of_nat (S n))) (Z.of_nat n).
Proof.
  unfold shift_down. rewrite seqZ_S, reverse_snoc. cbn [foldl].
  replace (1 + Z.of_nat n) with (Z.of_nat (S n)) by lia. reflexivity.
Qed.

Lemma shift_down_spec (n : nat) : forall g,
  wf_grid g -> Z.of_nat n < 20 ->
  wf_grid (shift_down g (Z.of_nat n))
  /\ forall c, in_grid c = true ->
       grid_at (shift_down g (Z.of_nat n)) c
       = if decide (1 <= c.2 <= Z.of_nat n)
         then grid_at g (c.1, c.2 - 1) else grid_at g c.
Proof.
  induction n as [|n IH]; intros g Hwf Hn.
  - split; [exact Hwf |]. intros c Hc.
    rewrite decide_False by lia. reflexivity.
  - rewrite shift_down_succ.
    destruct (copy_row_down_spec g (Z.of_nat (S n)) Hwf ltac:(lia)) as [Hwf1 Hat1].
    destruct (IH _ Hwf1 ltac:(lia)) as [Hwf' Hat]. split; [exact Hwf' |].
    intros c Hc. rewrite (Hat c Hc).
    pose proof Hc as Hc'%in_grid_iff.
    destruct (decide (1 <= c.2 <= Z.of_nat n)) as [Hin|Hout].
    + rewrite decide_True by lia.
      rewrite Hat1 by (apply in_grid_iff; cbn; lia).
      rewrite decide_False by (cbn; lia). reflexivity.
    + rewrite (Hat1 c Hc).
      destruct (decide (c.2 = Z.of_nat (S n)));
        [rewrite decide_True by lia | rewrite decide_False by lia]; reflexivity.
Qed.

(** What the loops of one slot make of the grid. *)
Lemma remove_line_code g r :
  wf_grid g -> 0 <= r < 20 -> remove_line g r = Some (code_remove_line g r).
Proof.
  intros Hwf Hr. unfold remove_line, GRID_SIZE_Y.
  destruct (Z.leb_spec 0 r); [| lia]. destruct (Z.ltb_spec r 20); [| lia].
  cbn [andb]. f_equal.
  destruct (clear_row_spec g r Hwf Hr) as [Hwf1 Hat1].
  rewrite <- (Z2Nat.id r) at 2 by lia.
  destruct (shift_down_spec (Z.to_nat r) _ Hwf1 ltac:(lia)) as [Hwf2 Hat2].
  apply grid_ext; [exact Hwf2 |]. intros c Hc. rewrite (Hat2 c Hc).
  pose proof Hc as Hc'%in_grid_iff. rewrite Z2Nat.id by lia.
  destruct (Z.eqb_spec c.2 0) as [E0|N0].
  - rewrite decide_False by lia. rewrite (Hat1 c Hc).
    destruct (Z.eqb_spec r 0);
      [rewrite decide_True by lia | rewrite decide_False by lia]; reflexivity.
  - destruct (Z.leb_spec c.2 r).
    + rewrite decide_True by lia.
      rewrite Hat1 by (apply in_grid_iff; cbn; lia).
      rewrite decide_False by (cbn; lia). reflexivity.
    + rewrite decide_False by lia. rewrite (Hat1 c Hc).
      rewrite decide_False by lia. reflexivity.
Qed.

(** With row 0 empty the loops do what the specification says. *)
Lemma code_remove_line_top_empty g r :
  (forall x, 0 <= x < 10 -> grid_at g (x, 0) = 0) ->
  code_remove_line g r = spec_remove_line g r.
Proof.
  intros Htop. apply make_grid_ext. intros [x y] Hc. cbn.
  destruct (Z.eqb_spec y 0) as [->|]; [| reflexivity].
  destruct (r =? 0); [reflexivity |].
  apply Htop. apply in_grid_iff in Hc. cbn in Hc. lia.
Qed.

(** The specification's removal leaves row 0 empty, so a grid whose row 0
    is empty goes through any sequence of removals as specified. *)
Lemma removals_top_empty (rs : list Z) : forall g,
  (forall x, 0 <= x < 10 -> grid_at g (x, 0) = 0) ->
  foldl code_remove_line g rs = foldl spec_remove_line g rs.
Proof.
  induction rs as [|r rs IH]; intros g Htop; cbn [foldl]; [reflexivity |].
  rewrite code_remove_line_top_empty by assumption. apply IH.
  intros x Hx. unfold spec_remove_line.
  rewrite grid_at_make_grid by (apply in_grid_iff; cbn; lia). reflexivity.
Qed.

End RowLoops.

Section RemoveLines.

Lemma slot_step cnt g (slots : list Z) (i : nat) r :
  wf_grid g -> slots !! i = Some r -> valid_slot r ->
  do_remove_lines_slot (Some (cnt, g, slots)) i
  = Some (if r =? -1 then (cnt, g, slots)
          else (cnt + 1, code_remove_line g r, <[ i := -1 ]> slots)).
Proof.
  intros Hwf Hi Hr. unfold do_remove_lines_slot. cbn. rewrite Hi. cbn.
  destruct (Z.eqb_spec r (-1)) as [|Hne]; [reflexivity |].
  rewrite remove_line_code by (unfold valid_slot in Hr; tauto || lia).
  reflexivity.
Qed.

Ltac next_slot r Hr :=
  erewrite slot_step;
    [| first [assumption | apply make_grid_wf] | reflexivity | exact Hr];
  destruct (Z.eqb_spec r (-1)); [subst r |].

(** The whole call on valid slots: the rows in the slots are removed in
    slot order, each as [code_remove_line] does it, the slots end at -1,
    and the count is the number of slots that held a row. *)
Lemma do_remove_lines_code g a b c d :
  wf_grid g ->
  valid_slot a -> valid_slot b -> valid_slot c -> valid_slot d ->
  do_remove_lines g [a; b; c; d]
  = Some (Z.of_nat (length (pending [a; b; c; d])),
          foldl code_remove_line g (pending [a; b; c; d]),
          [-1; -1; -1; -1]).
Proof.
  intros Hwf Ha Hb Hc Hd. unfold do_remove_lines. cbn [seq foldl].
  next_slot a Ha; next_slot b Hb; next_slot c Hc; next_slot d Hd;
    unfold pending; cbn [List.filter];
    repeat match goal with
           | H : ?r <> -1 |- _ =>
               rewrite (proj2 (Z.eqb_neq r (-1)) H); clear H
           end;
    reflexivity.
Qed.

(** On a grid whose row 0 is empty the call is the specified one. *)
Lemma do_remove_lines_top_empty g a b c d :
  wf_grid g ->
  valid_slot a -> valid_slot b -> valid_slot c -> valid_slot d ->
  (forall x, 0 <= x < 10 -> grid_at g (x, 0) = 0) ->
  do_remove_lines g [a; b; c; d]
  = Some (Z.of_nat (length (pending [a; b; c; d])),
          foldl spec_remove_line g (pending [a; b; c; d]),
          [-1; -1; -1; -1]).
Proof.
  intros Hwf Ha Hb Hc Hd Htop.
  rewrite do_remove_lines_code, removals_top_empty by assumption. reflexivity.
Qed.

End RemoveLines.

(** C3 fails on the code.  A reverse-L piece has locked in the top-left
    corner, cells (0,0) (0,1) (1,0) (2,0), on a column of blocks, and the
    bottom row 19 is complete.  Removing row 19 brings every row down by
    one, but row 0 keeps its three cells, which now show in rows 0 and 1
    both; the specification's removal would leave row 0 empty.  The count
    and the slots are as the claim says. *)
Theorem do_remove_lines_top_row_kept :
  let g := make_grid (fun c =>
             if c.2 =? 19 then 0x0400
             else if ((c.2 =? 0) && (c.1 <? 3)) || ((c.2 =? 1) && (c.1 =? 0))
                  then 0x0200
             else if (c.1 =? 0) then 0x0700 else 0) in
  do_remove_lines g [19; -1; -1; -1]
    = Some (1, code_remove_line g 19, [-1; -1; -1; -1])
  /\ map (fun x => grid_at (code_remove_line g 19) (x, 0)) (seqZ 0 10)
     = [0x0200; 0x0200; 0x0200; 0; 0; 0; 0; 0; 0; 0]
  /\ map (fun x => grid_at (code_remove_line g 19) (x, 1)) (seqZ 0 10)
     = [0x0200; 0x0200; 0x0200; 0; 0; 0; 0; 0; 0; 0]
  /\ map (fun x => grid_at (spec_remove_line g 19) (x, 0)) (seqZ 0 10)
     = [0; 0; 0; 0; 0; 0; 0; 0; 0; 0]
  /\ code_remove_line g 19 <> spec_remove_line g 19.
Proof.
  intros g. split; [vm_compute; reflexivity |].
  split; [vm_compute; reflexivity |].
  split; [vm_compute; reflexivity |].
  split; [vm_compute; reflexivity |].
  intros E. apply (f_equal (fun h => grid_at h (0, 0))) in E.
  vm_compute in E. discriminate E.
Qed.

(** ** Scoring *)

Lemma int32_id z : - 2 ^ 31 <= z < 2 ^ 31 -> int32 z = z.
Proof. intros H. unfold int32. rewrite Z.mod_small; lia. Qed.

Lemma pending_count a b c d :
  0 <= Z.of_nat (length (pending [a; b; c; d])) <= 4.
Proof.
  unfold pending. cbn [List.filter].
  destruct (negb (a =? -1)), (negb (b =? -1)), (negb (c =? -1)),
    (negb (d =? -1)); cbn; lia.
Qed.

(** C4, as the code has it.  In the [STATE_ROW_REMOVE] step at level L
    (0..9) with n = 1, 2, 3 or 4 slots holding a row, the score becomes
    the smaller of 99,999,999 and the old score plus 40, 100, 300 or 1200
    times (L + 1); the line count becomes the smaller of 9,999 and the old
    count plus n; the level stays at most 9; the level goes up by one and
    the fall delay down by 10 exactly when L is not 9 and the new line
    count is at least L * 10 + 10; the next state is [STATE_CREATE_PIECE]. *)
Theorem row_remove_scoring (s : game) (a b c d : Z) :
  wf_grid (grid s) ->
  remove_lines s = [a; b; c; d] ->
  valid_slot a -> valid_slot b -> valid_slot c -> valid_slot d ->
  0 <= level s <= 9 ->
  0 <= lines s <= 9999 ->
  0 <= score s <= 99999999 ->
  - 2 ^ 31 + 10 <= fall_delay s < 2 ^ 31 ->
  let n := Z.of_nat (length (pending (remove_lines s))) in
  1 <= n <= 4 ->
  exists s',
    row_remove s = Some s'
    /\ score s' = Z.min 99999999 (score s + reward n * (level s + 1))
    /\ lines s' = Z.min 9999 (lines s + n)
    /\ score s' <= 99999999 /\ lines s' <= 9999 /\ level s' <= 9
    /\ (level s <> 9 /\ level s * 10 + 10 <= lines s' ->
        level s' = level s + 1 /\ fall_delay s' = fall_delay s - 10)
    /\ (~ (level s <> 9 /\ level s * 10 + 10 <= lines s') ->
        level s' = level s /\ fall_delay s' = fall_delay s)
    /\ state s' = STATE_CREATE_PIECE.
Proof.
  intros Hwf Hslots Ha Hb Hc Hd Hlevel Hlines Hscore Hdelay n Hn.
  unfold row_remove. subst n. rewrite Hslots in *.
  rewrite (do_remove_lines_code _ a b c d Hwf Ha Hb Hc Hd).
  set (n := Z.of_nat (length (pending [a; b; c; d]))) in *.
  cbn [mbind option_bind].
  rewrite (int32_id (lines s + n)) by lia.
  rewrite (int32_id (level s + 1)) by lia.
  rewrite (int32_id (level s * 10)) by lia.
  rewrite (int32_id (level s * 10 + 10)) by lia.
  rewrite (int32_id (fall_delay s - 10)) by lia.
  rewrite !(int32_id (_ * (level s + 1))) by lia.
  rewrite !(int32_id (score s + _)) by lia.
  set (lines' := if lines s + n >? 9999 then 9999 else lines s + n).
  assert (Hl' : lines' = Z.min 9999 (lines s + n)).
  { unfold lines'. destruct (Z.gtb_spec (lines s + n) 9999); lia. }
  set (sc := if n =? 1 then _ else _).
  assert (Hsc : sc = score s + reward n * (level s + 1)).
  { unfold sc, reward.
    repeat match goal with
           | |- context [n =? ?k] => destruct (Z.eqb_spec n k)
           end; lia. }
  set (score' := if sc >? 99999999 then 99999999 else sc).
  assert (Hs' : score' = Z.min 99999999 (score s + reward n * (level s + 1))).
  { unfold score'. rewrite Hsc. destruct (Z.gtb_spec (score s + reward n * (level s + 1)) 99999999); lia. }
  destruct (Z.eqb_spec (level s) 9) as [E9|N9]; cbn [negb andb].
  - eexists. split; [reflexivity |]. cbn.
    repeat split; try assumption; try lia.
  - destruct (Z.geb_spec lines' (level s * 10 + 10)) as [Hge|Hlt].
    + eexists. split; [reflexivity |]. cbn.
      repeat split; try assumption; try lia.
    + eexists. split; [reflexivity |]. cbn.
      repeat split; try assumption; try lia.
Qed.

(** Two rows cleared at level 0 with 8 lines so far: 100 points, and the
    tenth line brings level 1. *)
Lemma row_remove_scoring_witness :
  let g := make_grid (fun c => if 18 <=? c.2 then 0x0400 else 0) in
  let s := Game STATE_ROW_REMOVE 8 0 120 INITIAL_FALL_DELAY g [18; 19; -1; -1] in
  exists s',
    row_remove s = Some s'
    /\ score s' = 220 /\ lines s' = 10 /\ level s' = 1 /\ fall_delay s' = 80.
Proof.
  intros g s.
  destruct (row_remove_scoring s 18 19 (-1) (-1))
    as (s' & Hrun & Hscore & Hlines & _ & _ & _ & Hup & _ & _).
  - reflexivity.
  - reflexivity.
  - right. lia.
  - right. lia.
  - left. reflexivity.
  - left. reflexivity.
  - unfold s. cbn. lia.
  - unfold s. cbn. lia.
  - unfold s. cbn. lia.
  - unfold s, INITIAL_FALL_DELAY. cbn. lia.
  - unfold s. cbn. lia.
  - exists s'. split; [exact Hrun |].
    split; [rewrite Hscore; reflexivity |].
    split; [rewrite Hlines; reflexivity |].
    apply Hup. rewrite Hlines. unfold s. cbn. lia.
Defined.

(** C4 as stated fails at the cap: at level 9 with 99,999,800 points, one
    cleared row is worth 400 points and the score goes up by 199. *)
Lemma row_remove_scoring_counterexample :
  let g := make_grid (fun c => if 19 <=? c.2 then 0x0400 else 0) in
  let s := Game STATE_ROW_REMOVE 9999 9 99999800 0 g [19; -1; -1; -1] in
  exists s',
    row_remove s = Some s'
    /\ Z.of_nat (length (pending (remove_lines s))) = 1
    /\ score s' = 99999999
    /\ score s' - score s <> 40 * (level s + 1).
Proof.
  intros g s.
  destruct (row_remove s) as [s'|] eqn:E; [| vm_compute in E; discriminate E].
  exists s'. split; [reflexivity |]. split; [reflexivity |].
  assert (Hs : score s' = 99999999).
  { vm_compute in E. injection E as <-. reflexivity. }
  split; [exact Hs |]. rewrite Hs. cbn. lia.
Qed.

(** * Further properties of the drivers *)

(** ** Frame store: flushing twice *)

Lemma changed_cells_same (l : list Z) (js : list nat) : changed_cells l l js = [].
Proof.
  unfold changed_cells. induction js as [|j js IH]; cbn; [reflexivity |].
  rewrite Z.eqb_refl. cbn. exact IH.
Qed.

Lemma fill_frames (js : list nat) : forall v,
  let v' := foldl (fun v i =>
                     {| curr_frame := <[ i := 0x0700 ]> (curr_frame v);
                        next_frame := <[ i := 0x0700 ]> (next_frame v);
                        VGA := VGA v |}) v js in
  curr_frame v' = foldl (fun l i => <[ i := 0x0700 ]> l) (curr_frame v) js
  /\ next_frame v' = foldl (fun l i => <[ i := 0x0700 ]> l) (next_frame v) js
  /\ VGA v' = VGA v.
Proof.
  induction js as [|j js IH]; intros v; cbn [foldl]; [auto |].
  destruct (IH {| curr_frame := <[ j := 0x0700 ]> (curr_frame v);
                  next_frame := <[ j := 0x0700 ]> (next_frame v);
                  VGA := VGA v |}) as (H1 & H2 & H3).
  cbn in H1, H2, H3. auto.
Qed.

Lemma fill_list (x : Z) (n : nat) : forall (a : nat) (l : list Z),
  (a + n <= length l)%nat ->
  let l' := foldl (fun l i => <[ i := x ]> l) l (seq a n) in
  length l' = length l
  /\ forall i, l' !!! i = if decide (a <= i < a + n)%nat then x else l !!! i.
Proof.
  induction n as [|n IH]; intros a l Hlen; cbn [seq foldl].
  - split; [reflexivity |]. intros i. rewrite decide_False by lia. reflexivity.
  - destruct (IH (S a) (<[ a := x ]> l)) as [Hl Hat];
      [rewrite length_insert; lia |].
    rewrite length_insert in Hl. split; [exact Hl |].
    intros i. rewrite Hat.
    destruct (decide (S a <= i < S a + n)%nat).
    + rewrite decide_True by lia. reflexivity.
    + destruct (decide (i = a)) as [->|Hne].
      * rewrite decide_True by lia. apply list_lookup_total_insert_eq. lia.
      * rewrite decide_False by lia. apply list_lookup_total_insert_ne. lia.
Qed.

Lemma fill_all (x : Z) (n : nat) (l l' : list Z) :
  length l = n -> length l' = n ->
  foldl (fun l i => <[ i := x ]> l) l (seq 0 n)
  = foldl (fun l i => <[ i := x ]> l) l' (seq 0 n).
Proof.
  intros Hl Hl'.
  destruct (fill_list x n 0 l ltac:(lia)) as [H1 H2].
  destruct (fill_list x n 0 l' ltac:(lia)) as [H1' H2'].
  apply (list_eq_same_length _ _ n); [lia | lia |].
  intros i a b Hi Ha Hb. apply list_lookup_total_correct in Ha, Hb.
  rewrite <- Ha, <- Hb, H2, H2'. rewrite !decide_True by lia. reflexivity.
Qed.

Lemma init_then_draw (n : nat) (v : video) :
  length (curr_frame v) = n -> length (next_frame v) = n ->
  let v0 := foldl (fun v i =>
                     {| curr_frame := <[ i := 0x0700 ]> (curr_frame v);
                        next_frame := <[ i := 0x0700 ]> (next_frame v);
                        VGA := VGA v |}) v (seq 0 n) in
  curr_frame v0 = next_frame v0
  /\ length (curr_frame v0) = n
  /\ (forall i, (i < n)%nat -> curr_frame v0 !!! i = 0x0700)
  /\ VGA (foldl draw_cell v0 (seq 0 n)) = VGA v.
Proof.
  intros Hc Hn v0.
  destruct (fill_frames (seq 0 n) v) as (H1 & H2 & H3). fold v0 in H1, H2, H3.
  assert (Heq : curr_frame v0 = next_frame v0).
  { rewrite H1, H2. apply fill_all; assumption. }
  destruct (fill_list 0x0700 n 0 (curr_frame v) ltac:(lia)) as [Hlen Hat].
  rewrite <- H1 in Hlen, Hat.
  split; [exact Heq |]. split; [lia |]. split.
  - intros i Hi. rewrite Hat, decide_True by lia. reflexivity.
  - destruct (draw_pass_spec n v0) as (Hv & _); [lia | rewrite <- Heq; lia |].
    rewrite Hv, <- Heq, changed_cells_same, app_nil_r. exact H3.
Qed.

Lemma draw_twice (n : nat) (v : video) :
  length (curr_frame v) = n -> length (next_frame v) = n ->
  foldl draw_cell (foldl draw_cell v (seq 0 n)) (seq 0 n)
  = foldl draw_cell v (seq 0 n).
Proof.
  intros Hc Hn.
  destruct (draw_pass_spec n v Hc Hn) as (_ & _ & Hcurr & Hnext).
  set (v1 := foldl draw_cell v (seq 0 n)) in *.
  destruct (draw_pass_spec n v1) as (Hv & _ & Hcurr2 & Hnext2);
    [congruence | congruence |].
  rewrite Hcurr, Hnext, changed_cells_same, app_nil_r in Hv.
  destruct (foldl draw_cell v1 (seq 0 n)) as [c2 n2 w2], v1 as [c1 n1 w1].
  cbn in *. congruence.
Qed.

(** X1.  On 2000-cell buffers, [init_frame_store] fills both buffers with
    0x0700 and a flush right after it stores nothing to the display; and a
    flush right after a flush changes nothing at all, so a cell is stored
    to the display only when the desired buffer was written in between. *)
Theorem draw_next_frame_quiescent (v : video) :
  length (curr_frame v) = 2000%nat ->
  length (next_frame v) = 2000%nat ->
  VGA (draw_next_frame (init_frame_store v)) = VGA v
  /\ curr_frame (init_frame_store v) = next_frame (init_frame_store v)
  /\ (forall i, (i < 2000)%nat -> curr_frame (init_frame_store v) !!! i = 0x0700)
  /\ draw_next_frame (draw_next_frame v) = draw_next_frame v.
Proof.
  intros Hc Hn.
  destruct (init_then_draw 2000 v Hc Hn) as (H1 & _ & H3 & H4).
  split; [exact H4 |]. split; [exact H1 |]. split; [exact H3 |].
  exact (draw_twice 2000 v Hc Hn).
Qed.

Lemma draw_next_frame_quiescent_witness :
  let v := Video (replicate 2000 0x0700) (<[ 81%nat := 0x0723 ]> (replicate 2000 0x0700)) [] in
  VGA (draw_next_frame (draw_next_frame v)) = [(81%nat, 0x0723)]
  /\ VGA (draw_next_frame (init_frame_store v)) = [].
Proof.
  intros v.
  destruct (draw_next_frame_quiescent v) as (H1 & _ & _ & H4);
    [vm_compute; reflexivity | vm_compute; reflexivity |].
  split; [rewrite H4; vm_compute; reflexivity | exact H1].
Defined.

(** ** Keyboard: the one-event slot *)



(** ** The IRQ table *)

Section IrqTable.

Context {M : Type}.
Implicit Types (tbl : list (option (M -> M))) (h : option (M -> M)).

Lemma dispatch_lookup irq tbl h (m : M) :
  0 <= irq < 16 -> tbl !! Z.to_nat irq = Some h ->
  irq_dispatch irq tbl m = Some (match h with Some f => f m | None => m end).
Proof.
  intros Hi Hl. unfold irq_dispatch.
  destruct (Z.leb_spec 0 irq); [| lia]. destruct (Z.ltb_spec irq 16); [| lia].
  cbn. rewrite Hl. cbn. destruct h; reflexivity.
Qed.

(** X3.  On a 16-entry table: registering for a line outside 0..15 leaves
    the table as it is; registering for a line in range makes a later
    dispatch of that line run the registered handler (a null handler makes
    it a no-op), replaces whatever was registered before, and leaves the
    dispatch of every other line as it was. *)
Theorem register_then_dispatch tbl (irq : Z) h (m : M) :
  length tbl = 16%nat ->
  (~ 0 <= irq <= 15 -> register_irq_handler irq h tbl = tbl)
  /\ (0 <= irq <= 15 ->
      length (register_irq_handler irq h tbl) = 16%nat
      /\ irq_dispatch irq (register_irq_handler irq h tbl) m
         = Some (match h with Some f => f m | None => m end)
      /\ (forall h0, register_irq_handler irq h (register_irq_handler irq h0 tbl)
                     = register_irq_handler irq h tbl)
      /\ (forall j, 0 <= j <= 15 -> j <> irq ->
            irq_dispatch j (register_irq_handler irq h tbl) m
            = irq_dispatch j tbl m)).
Proof.
  intros Hlen. split.
  - intros Hout. unfold register_irq_handler.
    destruct (Z.ltb_spec irq 0); [reflexivity |].
    destruct (Z.gtb_spec irq 15); [reflexivity | lia].
  - intros Hin.
    assert (Hreg : forall t, register_irq_handler irq h t = <[ Z.to_nat irq := h ]> t).
    { intros t. unfold register_irq_handler.
      destruct (Z.ltb_spec irq 0); [lia |].
      destruct (Z.gtb_spec irq 15); [lia | reflexivity]. }
    split; [rewrite Hreg, length_insert; exact Hlen |]. split; [| split].
    + apply dispatch_lookup; [lia |]. rewrite Hreg.
      apply list_lookup_insert_eq. lia.
    + intros h0. unfold register_irq_handler.
      destruct (Z.ltb_spec irq 0); [lia |].
      destruct (Z.gtb_spec irq 15); [lia |]. cbn.
      apply list_insert_insert_eq.
    + intros j Hj Hne. unfold irq_dispatch.
      rewrite Hreg, list_lookup_insert_ne by lia. reflexivity.
Qed.

End IrqTable.

Lemma register_then_dispatch_witness :
  irq_dispatch 1 (register_irq_handler 1 (Some Z.succ) (replicate 16 None)) 41
  = Some 42
  /\ register_irq_handler 16 (Some Z.succ) (replicate 16 None) = replicate 16 None.
Proof.
  destruct (register_then_dispatch (replicate 16 None) 1 (Some Z.succ) 41 eq_refl)
    as (_ & H). destruct (H ltac:(lia)) as (_ & H1 & _).
  destruct (register_then_dispatch (replicate 16 None) 16 (Some Z.succ) 41 eq_refl)
    as (H0 & _).
  split; [exact H1 | apply H0; lia].
Defined.

(** ** The interrupt descriptor table *)

Lemma split_address addr :
  0 <= addr < 2 ^ 32 ->
  Z.land addr 0xFFFF + 65536 * Z.land (Z.shiftr addr 16) 0xFFFF = addr.
Proof.
  intros H.
  change 0xFFFF with (Z.ones 16).
  rewrite !Z.land_ones, Z.shiftr_div_pow2 by lia.
  change (2 ^ 16) with 65536.
  rewrite (Z.mod_small (addr / 65536)).
  - pose proof (Z.div_mod addr 65536 ltac:(lia)). lia.
  - split; [apply Z.div_pos; lia | apply Z.div_lt_upper_bound; lia].
Qed.

Lemma set_idt_entry_spec (vector isr s f : Z) (idt : list idt_entry) :
  length idt = 256%nat ->
  0 <= isr < 2 ^ 32 ->
  (0 <= vector < 256 ->
   exists idt',
     set_idt_entry vector isr s f idt = Some idt'
     /\ length idt' = 256%nat
     /\ (exists e, idt' !! Z.to_nat vector = Some e
                   /\ entry_address e = isr /\ sel e = s /\ flags e = f
                   /\ zero e = 0
                   /\ 0 <= offset_low e < 65536 /\ 0 <= offset_high e < 65536)
     /\ (forall j, j <> Z.to_nat vector -> idt' !! j = idt !! j))
  /\ (~ 0 <= vector < 256 -> set_idt_entry vector isr s f idt = None).
Proof.
  intros Hlen Hisr. unfold set_idt_entry, IDT_SIZE. split.
  - intros Hv. destruct (Z.leb_spec 0 vector); [| lia].
    destruct (Z.ltb_spec vector 256); [| lia]. cbn [andb].
    eexists. split; [reflexivity |]. split; [rewrite length_insert; exact Hlen |].
    split.
    + eexists. split; [apply list_lookup_insert_eq; lia |].
      unfold entry_address. cbn.
      split; [apply split_address, Hisr |].
      change 0xFFFF with (Z.ones 16). rewrite !Z.land_ones by lia.
      pose proof (Z.mod_pos_bound isr (2 ^ 16) ltac:(lia)).
      pose proof (Z.mod_pos_bound (Z.shiftr isr 16) (2 ^ 16) ltac:(lia)).
      repeat split; lia.
    + intros j Hj. apply list_lookup_insert_ne. lia.
  - intros Hv. destruct (Z.leb_spec 0 vector); [| reflexivity].
    destruct (Z.ltb_spec vector 256); [lia | reflexivity].
Qed.

(** X4.  [set_idt_entry] on a 256-entry table and a vector in range
    stores an entry whose two offset halves recombine to the 32-bit
    handler address, with the selector and flags given and a zero byte,
    and leaves every other vector alone; a vector outside 0..255 is
    outside the table. *)
Theorem set_idt_entry_round_trip (vector isr s f : Z) (idt : list idt_entry) :
  length idt = 256%nat ->
  0 <= isr < 2 ^ 32 ->
  (0 <= vector < 256 ->
   exists idt',
     set_idt_entry vector isr s f idt = Some idt'
     /\ length idt' = 256%nat
     /\ (exists e, idt' !! Z.to_nat vector = Some e
                   /\ entry_address e = isr /\ sel e = s /\ flags e = f
                   /\ zero e = 0
                   /\ 0 <= offset_low e < 65536 /\ 0 <= offset_high e < 65536)
     /\ (forall j, j <> Z.to_nat vector -> idt' !! j = idt !! j))
  /\ (~ 0 <= vector < 256 -> set_idt_entry vector isr s f idt = None).
Proof. apply set_idt_entry_spec. Qed.

Lemma set_idt_entry_round_trip_witness :
  exists idt',
    set_idt_entry 0x20 0x00101234 0x08 0x8E (replicate 256 (IdtEntry 0 0 0 0 0))
    = Some idt'
    /\ idt' !! 32%nat = Some (IdtEntry 0x1234 0x08 0 0x8E 0x0010).
Proof.
  destruct (set_idt_entry_round_trip 0x20 0x00101234 0x08 0x8E
              (replicate 256 (IdtEntry 0 0 0 0 0)) eq_refl ltac:(lia))
    as (H & _).
  destruct (H ltac:(lia)) as (idt' & Hset & _).
  exists idt'. split; [exact Hset |].
  vm_compute in Hset. injection Hset as <-. reflexivity.
Defined.

Lemma fill_lookup {A : Type} (x : A) (n : nat) : forall (a : nat) (l : list A),
  (a + n <= length l)%nat ->
  let l' := foldl (fun l i => <[ i := x ]> l) l (seq a n) in
  length l' = length l
  /\ forall i, l' !! i = if decide (a <= i < a + n)%nat then Some x else l !! i.
Proof.
  induction n as [|n IH]; intros a l Hlen; cbn [seq foldl].
  - split; [reflexivity |]. intros i. rewrite decide_False by lia. reflexivity.
  - destruct (IH (S a) (<[ a := x ]> l)) as [Hl Hat];
      [rewrite length_insert; lia |].
    rewrite length_insert in Hl. split; [exact Hl |].
    intros i. rewrite Hat.
    destruct (decide (S a <= i < S a + n)%nat).
    + rewrite decide_True by lia. reflexivity.
    + destruct (decide (i = a)) as [->|Hne].
      * rewrite decide_True by lia. apply list_lookup_insert_eq. lia.
      * rewrite decide_False by lia. apply list_lookup_insert_ne. lia.
Qed.

(** The default entry of [idt_init]: null handler, code selector,
    interrupt gate. *)
Lemma idt_default_loop (js : list nat) : forall idt : list idt_entry,
  Forall (fun j => (j < 256)%nat) js ->
  foldl (fun acc i => idt ← acc; set_idt_entry i 0 0x08 0x8E idt)
        (Some idt) (Z.of_nat <$> js)
  = Some (foldl (fun l i => <[ i := IdtEntry 0 0x08 0 0x8E 0 ]> l) idt js).
Proof.
  induction js as [|j js IH]; intros idt Hjs; [reflexivity |].
  apply Forall_cons_iff in Hjs as [Hj Hjs]. cbn [fmap list_fmap foldl].
  rewrite <- (IH _ Hjs). f_equal. cbn.
  unfold set_idt_entry, IDT_SIZE.
  destruct (Z.leb_spec 0 (Z.of_nat j)); [| lia].
  destruct (Z.ltb_spec (Z.of_nat j) 256); [| lia].
  cbn [andb]. rewrite Nat2Z.id. reflexivity.
Qed.

Lemma seqZ_of_nat (n : nat) : seqZ 0 (Z.of_nat n) = Z.of_nat <$> seq 0 n.
Proof.
  unfold seqZ. rewrite Nat2Z.id. apply list_fmap_ext. intros i j _. lia.
Qed.

(** X5.  [idt_init] on the 256-entry table leaves no gate undefined:
    every vector holds an interrupt gate (flags 0x8E) on selector 0x08
    with a zero byte; vectors 0x20 and 0x21 hold the addresses of the two
    IRQ stubs and every other vector holds the null address; the limit
    loaded is 2047, the size of the table minus one. *)
Theorem idt_init_table (irq0_stub irq1_stub idt_base : Z) (idt : list idt_entry) :
  length idt = 256%nat ->
  0 <= irq0_stub < 2 ^ 32 ->
  0 <= irq1_stub < 2 ^ 32 ->
  exists idt',
    idt_init irq0_stub irq1_stub idt_base idt = Some (idt', (2047, idt_base))
    /\ length idt' = 256%nat
    /\ forall v, 0 <= v < 256 ->
         exists e,
           idt' !! Z.to_nat v = Some e
           /\ sel e = 0x08 /\ flags e = 0x8E /\ zero e = 0
           /\ entry_address e
              = if v =? 0x20 then irq0_stub
                else if v =? 0x21 then irq1_stub else 0.
Proof.
  intros Hlen H0 H1. unfold idt_init.
  replace (seqZ 0 IDT_SIZE) with (Z.of_nat <$> seq 0 256)
    by (symmetry; apply (seqZ_of_nat 256)).
  rewrite idt_default_loop
    by (rewrite Forall_forall; intros j Hj%in_seq; lia).
  destruct (fill_lookup (IdtEntry 0 0x08 0 0x8E 0) 256 0 idt ltac:(lia))
    as [Hl Hat].
  set (tbl := foldl _ idt (seq 0 256)) in *.
  cbn [mbind option_bind].
  destruct (set_idt_entry_spec 0x20 irq0_stub 0x08 0x8E tbl
              ltac:(lia) H0) as (Hs0 & _).
  destruct (Hs0 ltac:(lia)) as (t1 & E1 & L1 & (e0 & He0 & A0 & S0 & F0 & Z0 & _) & O1).
  rewrite E1. cbn [mbind option_bind].
  destruct (set_idt_entry_spec 0x21 irq1_stub 0x08 0x8E t1 L1 H1)
    as (Hs1 & _).
  destruct (Hs1 ltac:(lia)) as (t2 & E2 & L2 & (e1 & He1 & A1 & S1 & F1 & Z1 & _) & O2).
  rewrite E2. cbn [mbind option_bind].
  exists t2. split; [reflexivity |]. split; [exact L2 |].
  intros v Hv.
  destruct (Z.eqb_spec v 0x21) as [->|N21].
  { exists e1. cbn. auto. }
  destruct (Z.eqb_spec v 0x20) as [->|N20].
  { exists e0. rewrite O2 by (cbn; lia). auto. }
  exists (IdtEntry 0 0x08 0 0x8E 0).
  rewrite O2, O1, Hat by lia.
  rewrite decide_True by lia. auto.
Qed.

Lemma idt_init_table_witness :
  exists idt',
    idt_init 0x00100040 0x00100060 0x00104000 (replicate 256 (IdtEntry 0 0 0 0 0))
    = Some (idt', (2047, 0x00104000))
    /\ length idt' = 256%nat.
Proof.
  destruct (idt_init_table 0x00100040 0x00100060 0x00104000
              (replicate 256 (IdtEntry 0 0 0 0 0)) eq_refl ltac:(lia) ltac:(lia))
    as (idt' & H & L & _).
  exists idt'. auto.
Defined.

(** * Further properties of the game functions *)

(** ** Spawning *)

Lemma spawn_on_grid t piece :
  0 <= piece < 7 -> on_grid (setup_tetrominoe t piece 4).
Proof.
  intros Hp. apply piece_types in Hp.
  destruct Hp as [->|[->|[->|[->|[->|[->| ->]]]]]];
    repeat constructor.
Qed.

Lemma block_colour_lookup piece :
  0 <= piece < 7 ->
  exists colour,
    block_colours !! Z.to_nat piece = Some colour
    /\ colour <> 0 /\ -32768 <= colour <= 32767 /\ Z.land colour 0xFF = 0.
Proof.
  intros Hp. apply piece_types in Hp.
  destruct Hp as [->|[->|[->|[->|[->|[->| ->]]]]]];
    (eexists; split; [reflexivity |]; cbn; repeat split; lia).
Qed.

(** X6.  For each of the seven piece types and any grid,
    [create_tetrominoe] places the piece at its spawn cells (columns 4..7
    of rows 0 and 1) and returns 1 exactly when those four cells are all
    empty; the grid then differs from the old one in these four cells
    only, which hold the piece's non-zero colour.  When one of them is
    occupied it returns 0 and the grid is the one it was given. *)
Theorem create_tetrominoe_spawn (t : tetrominoe) (g : playfield) (piece : Z) :
  wf_grid g ->
  0 <= piece < 7 ->
  let new := setup_tetrominoe t piece 4 in
  Forall (fun c => 4 <= c.1 <= 7 /\ 0 <= c.2 <= 1) (cells new)
  /\ (Forall (fun c => grid_at g c = 0) (cells new) ->
      exists colour g',
        block_colours !! Z.to_nat piece = Some colour
        /\ colour <> 0
        /\ create_tetrominoe t g block_colours piece = Some (1, new, g')
        /\ wf_grid g'
        /\ forall c, in_grid c = true ->
             grid_at g' c = if decide (c ∈ cells new) then colour else grid_at g c)
  /\ (~ Forall (fun c => grid_at g c = 0) (cells new) ->
      create_tetrominoe t g block_colours piece = Some (0, new, g)).
Proof.
  intros Hwf Hp new.
  pose proof (spawn_on_grid t piece Hp) as Hon. fold new in Hon.
  split; [| split].
  - subst new. apply piece_types in Hp.
    destruct Hp as [->|[->|[->|[->|[->|[->| ->]]]]]];
      repeat (constructor; [cbn; lia |]); constructor.
  - intros Hfree.
    destruct (block_colour_lookup piece Hp) as (colour & Hc & Hnz & _).
    exists colour, (paint new colour g).
    split; [exact Hc |]. split; [exact Hnz |]. split; [| split].
    + unfold create_tetrominoe. fold new.
      rewrite (proj2 (check_true_iff new g)) by (split; assumption).
      destruct (Z.leb_spec 0 piece); [| lia]. destruct (Z.ltb_spec piece 7); [| lia].
      cbn [andb]. rewrite Hc. cbn [mbind option_bind].
      rewrite set_cells_paint by assumption. reflexivity.
    + apply paint_wf, Hwf.
    + intros c Hcg. apply grid_at_paint; assumption.
  - intros Hocc. unfold create_tetrominoe. fold new.
    destruct (check_tetrominoe_collision new g) eqn:E; [| reflexivity].
    apply check_true_iff in E as [_ E]. contradiction.
Qed.

Lemma create_tetrominoe_spawn_witness :
  create_tetrominoe origin (paint (Tet (5,0) (5,0) (5,0) (5,0)) 0x0400 empty_grid)
    block_colours PIECE_T
  = Some (0, Tet (4,0) (5,0) (6,0) (5,1),
          paint (Tet (5,0) (5,0) (5,0) (5,0)) 0x0400 empty_grid).
Proof.
  destruct (create_tetrominoe_spawn origin
              (paint (Tet (5,0) (5,0) (5,0) (5,0)) 0x0400 empty_grid) PIECE_T)
    as (_ & _ & H).
  - reflexivity.
  - unfold PIECE_T. lia.
  - apply H. intros Hfree. apply Forall_cons_iff in Hfree as [_ Hfree].
    apply Forall_cons_iff in Hfree as [H5 _]. vm_compute in H5. discriminate H5.
Defined.

(** ** The preview grid *)

Lemma next_grid_cleared (g : list Z) :
  length g = 16%nat ->
  foldl (fun g x =>
           foldl (fun g y => <[ next_idx (x, y) := 0 ]> g) g
                 (seqZ 0 NEXT_GRID_SIZE_Y))
        g (seqZ 0 NEXT_GRID_SIZE_X)
  = replicate 16 0.
Proof.
  intros Hlen.
  do 16 (destruct g as [|? g]; [discriminate Hlen |]).
  destruct g; [reflexivity | discriminate Hlen].
Qed.

(** X7.  For each of the seven piece types and whatever the 4x4 preview
    grid held before, [create_next_tetrominoe] is defined (the piece set
    up at offset 0 fits the preview grid) and leaves a grid in which the
    four cells of the piece hold its colour and the twelve other cells are
    0. *)
Theorem create_next_tetrominoe_preview (t : tetrominoe) (g : list Z) (piece : Z) :
  length g = 16%nat ->
  0 <= piece < 7 ->
  let new := setup_tetrominoe t piece 0 in
  exists colour g',
    block_colours !! Z.to_nat piece = Some colour
    /\ create_next_tetrominoe t g block_colours piece = Some (new, g')
    /\ length g' = 16%nat
    /\ Forall (fun c => in_next_grid c = true) (cells new)
    /\ (forall x y, 0 <= x < 4 -> 0 <= y < 4 ->
          g' !!! next_idx (x, y)
          = if decide ((x, y) ∈ cells new) then colour else 0)
    /\ length (List.filter (fun v => negb (v =? 0)) g') = 4%nat.
Proof.
  intros Hlen Hp new. subst new.
  unfold create_next_tetrominoe. rewrite next_grid_cleared by assumption.
  assert (Hxy : forall x y, 0 <= x < 4 -> 0 <= y < 4 ->
            In (x, y) [(0,0);(0,1);(0,2);(0,3);(1,0);(1,1);(1,2);(1,3);
                       (2,0);(2,1);(2,2);(2,3);(3,0);(3,1);(3,2);(3,3)]).
  { intros x y Hx Hy.
    assert (x = 0 \/ x = 1 \/ x = 2 \/ x = 3) as [->|[->|[->| ->]]] by lia;
    assert (y = 0 \/ y = 1 \/ y = 2 \/ y = 3) as [->|[->|[->| ->]]] by lia;
    cbn; tauto. }
  apply piece_types in Hp.
  destruct Hp as [->|[->|[->|[->|[->|[->| ->]]]]]];
    (eexists; eexists; split; [reflexivity |]; split; [reflexivity |];
     split; [reflexivity |]; split; [repeat constructor |];
     split; [| reflexivity];
     intros x y Hx Hy; specialize (Hxy x y Hx Hy); cbn in Hxy;
     repeat (destruct Hxy as [Hxy|Hxy]; [injection Hxy as <- <-; reflexivity |]);
     contradiction).
Qed.

Lemma create_next_tetrominoe_preview_witness :
  exists g',
    create_next_tetrominoe origin (replicate 16 0x0300) block_colours PIECE_LINE
    = Some (Tet (0,1) (1,1) (2,1) (3,1), g')
    /\ length (List.filter (fun v => negb (v =? 0)) g') = 4%nat.
Proof.
  destruct (create_next_tetrominoe_preview origin (replicate 16 0x0300) PIECE_LINE)
    as (colour & g' & _ & H & _ & _ & _ & H4).
  - reflexivity.
  - unfold PIECE_LINE. lia.
  - exists g'. split; [exact H | exact H4].
Defined.

(** ** Moving and turning a drawn piece *)

Lemma marked_on_grid t g colour : marked t g colour -> on_grid t.
Proof. intros H. eapply Forall_impl; [| exact H]. cbn. tauto. Qed.

Lemma marked_cells t g colour :
  marked t g colour -> Forall (fun c => grid_at g c = colour) (cells t).
Proof. intros H. eapply Forall_impl; [| exact H]. cbn. tauto. Qed.

Lemma grid_eq g g' :
  wf_grid g -> wf_grid g' ->
  (forall c, in_grid c = true -> grid_at g c = grid_at g' c) -> g = g'.
Proof.
  intros Hwf Hwf' H.
  rewrite (grid_ext g (grid_at g') Hwf H).
  symmetry. apply grid_ext; [exact Hwf' | reflexivity].
Qed.

(** The grid after a candidate placement [new] was taken: the old cells
    are cleared, the new ones painted. *)
Lemma repaint_spec t new g colour :
  wf_grid g -> on_grid t -> on_grid new ->
  wf_grid (paint new colour (paint t 0 g))
  /\ marked new (paint new colour (paint t 0 g)) colour
  /\ forall c, in_grid c = true -> ~ In c (cells new) ->
       grid_at (paint new colour (paint t 0 g)) c
       = if decide (c ∈ cells t) then 0 else grid_at g c.
Proof.
  intros Hwf Ht Hnew.
  assert (Hwf1 : wf_grid (paint t 0 g)) by (apply paint_wf, Hwf).
  split; [apply paint_wf, Hwf1 |]. split.
  - unfold marked. rewrite Forall_forall. intros c Hc.
    assert (Hcg : in_grid c = true).
    { unfold on_grid in Hnew. rewrite Forall_forall in Hnew. auto. }
    split; [exact Hcg |]. rewrite grid_at_paint by assumption.
    rewrite decide_True; [reflexivity | apply list_elem_of_In, Hc].
  - intros c Hcg Hout. rewrite grid_at_paint by assumption.
    rewrite decide_False by (rewrite list_elem_of_In; exact Hout).
    apply grid_at_paint; assumption.
Qed.

(** X8.  Let a piece be drawn on the grid in its colour (a [short]).
    Whatever the direction, [move_tetrominoe] is defined; it returns 1 and
    takes the shifted placement exactly when that placement passes the
    collision test on the grid without the piece, and otherwise returns 0
    and keeps the piece and the grid.  Either way the piece it leaves is
    drawn on the grid it leaves, so it never leaves the grid, and outside
    the piece's old and new cells the grid is unchanged, the old cells it
    has left being emptied. *)
Theorem move_tetrominoe_keeps_drawn (t : tetrominoe) (g : playfield)
    (direction colour : Z) :
  wf_grid g ->
  -32768 <= colour <= 32767 ->
  marked t g colour ->
  exists moved t' g',
    move_tetrominoe t g direction = Some (moved, t', g')
    /\ (if check_tetrominoe_collision (moved_tetrominoe t direction) (paint t 0 g)
        then moved = 1 /\ t' = moved_tetrominoe t direction
        else moved = 0 /\ t' = t /\ g' = g)
    /\ wf_grid g'
    /\ marked t' g' colour
    /\ forall c, in_grid c = true -> ~ In c (cells t') ->
         grid_at g' c = if decide (c ∈ cells t) then 0 else grid_at g c.
Proof.
  intros Hwf Hcol Hm.
  pose proof (marked_on_grid _ _ _ Hm) as Ht.
  pose proof (marked_cells _ _ _ Hm) as Hv.
  assert (Hc0 : grid_at g (t0 t) = colour).
  { rewrite Forall_forall in Hv. apply Hv. cbn. auto. }
  rewrite move_tetrominoe_eq by assumption. cbn zeta.
  rewrite Hc0, to_short_id by assumption.
  destruct (check_tetrominoe_collision _ _) eqn:E.
  - pose proof (check_on_grid _ _ E) as Hnew.
    destruct (repaint_spec t (moved_tetrominoe t direction) g colour Hwf Ht Hnew)
      as (W & M & F).
    do 3 eexists. split; [reflexivity |]. auto.
  - rewrite paint_restore by assumption.
    do 3 eexists. split; [reflexivity |].
    split; [auto |]. split; [exact Hwf |]. split; [exact Hm |].
    intros c Hcg Hout.
    rewrite decide_False by (rewrite list_elem_of_In; exact Hout). reflexivity.
Qed.

Lemma move_tetrominoe_keeps_drawn_witness :
  let t := Tet (0,5) (1,5) (2,5) (1,6) in
  let g := paint t 0x0300 empty_grid in
  move_tetrominoe t g MOVE_LEFT = Some (0, t, g).
Proof.
  intros t g.
  destruct (move_tetrominoe_keeps_drawn t g MOVE_LEFT 0x0300)
    as (moved & t' & g' & Hrun & Hres & _).
  - reflexivity.
  - lia.
  - repeat (constructor; [split; reflexivity |]). constructor.
  - rewrite Hrun.
    change (check_tetrominoe_collision (moved_tetrominoe t MOVE_LEFT) (paint t 0 g))
      with false in Hres.
    destruct Hres as (-> & -> & ->). reflexivity.
Defined.

(** X9.  The same for [rotate_tetrominoe] and a piece type 0..6: the call
    is defined, it takes the turned placement exactly when that placement
    passes the collision test on the grid without the piece, and
    otherwise leaves the piece and the grid as they were (a rejected
    rotation is dropped without any other effect); the piece it leaves
    is drawn on the grid it leaves. *)
Theorem rotate_tetrominoe_keeps_drawn (t : tetrominoe) (g : playfield)
    (type colour : Z) :
  wf_grid g ->
  0 <= type < 7 ->
  -32768 <= colour <= 32767 ->
  marked t g colour ->
  exists t' g',
    rotate_tetrominoe t g type = Some (t', g')
    /\ (if check_tetrominoe_collision (turn type t) (paint t 0 g)
        then t' = turn type t
        else t' = t /\ g' = g)
    /\ wf_grid g'
    /\ marked t' g' colour
    /\ forall c, in_grid c = true -> ~ In c (cells t') ->
         grid_at g' c = if decide (c ∈ cells t) then 0 else grid_at g c.
Proof.
  intros Hwf Hty Hcol Hm.
  pose proof (marked_on_grid _ _ _ Hm) as Ht.
  pose proof (marked_cells _ _ _ Hm) as Hv.
  assert (Hc0 : grid_at g (t0 t) = colour).
  { rewrite Forall_forall in Hv. apply Hv. cbn. auto. }
  assert (Hm' : exists m, max_ext type = Some m).
  { apply piece_types in Hty.
    destruct Hty as [->|[->|[->|[->|[->|[->| ->]]]]]]; eexists; reflexivity. }
  destruct Hm' as (m & Hmx). unfold turn. rewrite Hmx.
  rewrite (rotate_tetrominoe_eq _ _ _ _ Hmx Ht). cbn zeta.
  rewrite Hc0, to_short_id by assumption.
  destruct (check_tetrominoe_collision _ _) eqn:E.
  - pose proof (check_on_grid _ _ E) as Hnew.
    destruct (repaint_spec t (rotated m t) g colour Hwf Ht Hnew) as (W & M & F).
    do 2 eexists. split; [reflexivity |]. auto.
  - rewrite paint_restore by assumption.
    do 2 eexists. split; [reflexivity |].
    split; [auto |]. split; [exact Hwf |]. split; [exact Hm |].
    intros c Hcg Hout.
    rewrite decide_False by (rewrite list_elem_of_In; exact Hout). reflexivity.
Qed.

(** The straight piece lying in the bottom row cannot stand up. *)
Lemma rotate_tetrominoe_keeps_drawn_witness :
  let t := Tet (4,19) (5,19) (6,19) (7,19) in
  let g := paint t 0x0700 empty_grid in
  rotate_tetrominoe t g PIECE_LINE = Some (t, g).
Proof.
  intros t g.
  destruct (rotate_tetrominoe_keeps_drawn t g PIECE_LINE 0x0700)
    as (t' & g' & Hrun & Hres & _).
  - reflexivity.
  - unfold PIECE_LINE. lia.
  - lia.
  - repeat (constructor; [split; reflexivity |]). constructor.
  - rewrite Hrun.
    change (check_tetrominoe_collision (turn PIECE_LINE t) (paint t 0 g))
      with false in Hres.
    destruct Hres as (-> & ->). reflexivity.
Defined.

Lemma move_accepted_inv t g d t1 g1 colour :
  wf_grid g -> -32768 <= colour <= 32767 -> marked t g colour ->
  move_tetrominoe t g d = Some (1, t1, g1) ->
  t1 = moved_tetrominoe t d
  /\ g1 = paint t1 colour (paint t 0 g)
  /\ check_tetrominoe_collision t1 (paint t 0 g) = true.
Proof.
  intros Hwf Hcol Hm Hrun.
  pose proof (marked_on_grid _ _ _ Hm) as Ht.
  pose proof (marked_cells _ _ _ Hm) as Hv.
  assert (Hc0 : grid_at g (t0 t) = colour).
  { rewrite Forall_forall in Hv. apply Hv. cbn. auto. }
  rewrite move_tetrominoe_eq in Hrun by assumption. cbn zeta in Hrun.
  rewrite Hc0, to_short_id in Hrun by assumption.
  destruct (check_tetrominoe_collision _ _) eqn:E.
  - assert (P : forall (a : tetrominoe) (b : playfield),
               Some (1, a, b) = Some (1, t1, g1) -> t1 = a /\ g1 = b)
      by (intros a b [= -> ->]; auto).
    destruct (P _ _ Hrun) as [-> ->]. auto.
  - discriminate Hrun.
Qed.

(** Undoing an accepted move by the opposite move. *)
Lemma move_and_back t g d d' t1 g1 colour :
  wf_grid g -> -32768 <= colour <= 32767 -> marked t g colour ->
  moved_tetrominoe (moved_tetrominoe t d) d' = t ->
  move_tetrominoe t g d = Some (1, t1, g1) ->
  move_tetrominoe t1 g1 d' = Some (1, t, g).
Proof.
  intros Hwf Hcol Hm Hinv Hrun.
  destruct (move_accepted_inv _ _ _ _ _ _ Hwf Hcol Hm Hrun) as (-> & -> & Hchk).
  set (new := moved_tetrominoe t d) in *.
  pose proof (marked_on_grid _ _ _ Hm) as Ht.
  pose proof (check_on_grid _ _ Hchk) as Hnew.
  destruct (repaint_spec t new g colour Hwf Ht Hnew) as (W1 & M1 & F1).
  set (g1 := paint new colour (paint t 0 g)) in *.
  assert (Hc0 : grid_at g1 (t0 new) = colour).
  { unfold marked in M1. rewrite Forall_forall in M1. apply M1. cbn. auto. }
  rewrite move_tetrominoe_eq by assumption. cbn zeta.
  rewrite Hinv, Hc0, to_short_id by assumption.
  assert (Hfree : check_tetrominoe_collision t (paint new 0 g1) = true).
  { apply check_true_iff. split; [exact Ht |].
    rewrite Forall_forall. intros c Hc.
    assert (Hcg : in_grid c = true).
    { unfold on_grid in Ht. rewrite Forall_forall in Ht. auto. }
    rewrite grid_at_paint by assumption.
    destruct (decide (c ∈ cells new)) as [|Hout]; [reflexivity |].
    rewrite F1 by (try assumption; rewrite <- list_elem_of_In; exact Hout).
    rewrite decide_True; [reflexivity | apply list_elem_of_In, Hc]. }
  rewrite Hfree. do 2 f_equal.
  apply grid_eq; [do 2 apply paint_wf; exact W1 | exact Hwf |].
  intros c Hcg. rewrite grid_at_paint by (try apply paint_wf; assumption).
  destruct (decide (c ∈ cells t)) as [Hin|Hout].
  - pose proof (marked_cells _ _ _ Hm) as Hv. rewrite Forall_forall in Hv.
    symmetry. apply Hv, list_elem_of_In, Hin.
  - rewrite grid_at_paint by assumption.
    destruct (decide (c ∈ cells new)) as [Hin'|Hout'].
    + apply check_true_iff in Hchk as [_ Hz]. rewrite Forall_forall in Hz.
      pose proof (Hz c (proj1 (list_elem_of_In _ _) Hin')) as Hzc.
      rewrite grid_at_paint in Hzc by assumption.
      rewrite decide_False in Hzc by exact Hout. congruence.
    + rewrite F1 by (try assumption; rewrite <- list_elem_of_In; exact Hout').
      rewrite decide_False by exact Hout. reflexivity.
Qed.

Lemma left_right t :
  moved_tetrominoe (moved_tetrominoe t MOVE_LEFT) MOVE_RIGHT = t
  /\ moved_tetrominoe (moved_tetrominoe t MOVE_RIGHT) MOVE_LEFT = t.
Proof.
  unfold moved_tetrominoe. cbn [Z.eqb MOVE_LEFT MOVE_RIGHT MOVE_DOWN Pos.eqb].
  rewrite !translate_translate. cbn. split; apply translate_0.
Qed.

(** X10.  A move to the left that was accepted is undone by a move to the
    right, and the other way round: the second move is accepted too and
    gives back the piece and the very grid the first move started from. *)
Theorem move_left_right_round_trip (t t1 : tetrominoe) (g g1 : playfield)
    (colour : Z) :
  wf_grid g ->
  -32768 <= colour <= 32767 ->
  marked t g colour ->
  (move_tetrominoe t g MOVE_LEFT = Some (1, t1, g1) ->
   move_tetrominoe t1 g1 MOVE_RIGHT = Some (1, t, g))
  /\ (move_tetrominoe t g MOVE_RIGHT = Some (1, t1, g1) ->
      move_tetrominoe t1 g1 MOVE_LEFT = Some (1, t, g)).
Proof.
  intros Hwf Hcol Hm. destruct (left_right t) as [Hlr Hrl].
  split; intros Hrun.
  - exact (move_and_back t g MOVE_LEFT MOVE_RIGHT t1 g1 colour Hwf Hcol Hm Hlr Hrun).
  - exact (move_and_back t g MOVE_RIGHT MOVE_LEFT t1 g1 colour Hwf Hcol Hm Hrl Hrun).
Qed.

Lemma move_left_right_round_trip_witness :
  let t := Tet (4,0) (5,0) (6,0) (5,1) in
  let g := paint t 0x0300 empty_grid in
  let t1 := Tet (3,0) (4,0) (5,0) (4,1) in
  move_tetrominoe t1 (paint t1 0x0300 empty_grid) MOVE_RIGHT = Some (1, t, g).
Proof.
  intros t g t1.
  destruct (move_left_right_round_trip t t1 g (paint t1 0x0300 empty_grid) 0x0300)
    as [H _].
  - reflexivity.
  - lia.
  - repeat (constructor; [split; reflexivity |]). constructor.
  - apply H. vm_compute. reflexivity.
Defined.

(** ** The square *)

Lemma cells_translate dx dy t :
  cells (translate dx dy t) = map (fun c => (c.1 + dx, c.2 + dy)) (cells t).
Proof. reflexivity. Qed.

Lemma same_cells_translate dx dy s s' :
  same_cells s s' -> same_cells (translate dx dy s) (translate dx dy s').
Proof.
  intros H c. rewrite !cells_translate, !in_map_iff.
  split; intros (c0 & E & Hin); exists c0; (split; [exact E | apply H, Hin]).
Qed.

Lemma square_turn_cells t :
  placement PIECE_SQUARE t -> same_cells t (turn PIECE_SQUARE t).
Proof.
  intros (_ & k & dx & dy & Hk & ->)%placement_shape.
  rewrite turn_translate. apply same_cells_translate.
  destruct k as [|[|[|[|k]]]]; [| | | | lia];
    intros c; cbn; tauto.
Qed.

(** X11.  The square never moves when it is turned: for a square drawn on
    the grid in its colour, the turned placement covers the same four
    cells (in another order), [rotate_tetrominoe] always accepts it, and
    the grid after the call is the grid before it. *)
Theorem rotate_square (t : tetrominoe) (g : playfield) (colour : Z) :
  wf_grid g ->
  -32768 <= colour <= 32767 ->
  placement PIECE_SQUARE t ->
  marked t g colour ->
  same_cells t (turn PIECE_SQUARE t)
  /\ rotate_tetrominoe t g PIECE_SQUARE = Some (turn PIECE_SQUARE t, g).
Proof.
  intros Hwf Hcol Hp Hm.
  pose proof (square_turn_cells t Hp) as Hsame.
  split; [exact Hsame |].
  pose proof (marked_on_grid _ _ _ Hm) as Ht.
  pose proof (marked_cells _ _ _ Hm) as Hv.
  assert (Hc0 : grid_at g (t0 t) = colour).
  { rewrite Forall_forall in Hv. apply Hv. cbn. auto. }
  assert (Hon : on_grid (turn PIECE_SQUARE t)).
  { unfold on_grid in *. rewrite Forall_forall in *.
    intros c Hc. apply Ht, Hsame, Hc. }
  assert (Hchk : check_tetrominoe_collision (turn PIECE_SQUARE t) (paint t 0 g) = true).
  { apply check_true_iff. split; [exact Hon |].
    rewrite Forall_forall. intros c Hc.
    unfold on_grid in Hon. rewrite Forall_forall in Hon.
    rewrite grid_at_paint by auto.
    rewrite decide_True; [reflexivity | apply list_elem_of_In, Hsame, Hc]. }
  rewrite (rotate_tetrominoe_eq t g PIECE_SQUARE 2 eq_refl Ht). cbn zeta.
  change (rotated 2 t) with (turn PIECE_SQUARE t).
  rewrite Hchk, Hc0, to_short_id by assumption. do 2 f_equal.
  apply grid_eq; [do 2 apply paint_wf; exact Hwf | exact Hwf |].
  intros c Hcg. rewrite grid_at_paint by (try apply paint_wf; assumption).
  destruct (decide (c ∈ cells (turn PIECE_SQUARE t))) as [Hin|Hout].
  - rewrite Forall_forall in Hv. symmetry.
    apply Hv, Hsame, list_elem_of_In, Hin.
  - rewrite grid_at_paint by assumption.
    rewrite decide_False; [reflexivity |].
    intros Hin. apply Hout, list_elem_of_In, Hsame, list_elem_of_In, Hin.
Qed.

Lemma rotate_square_witness :
  let t := setup_tetrominoe origin PIECE_SQUARE 4 in
  let g := paint t 0x0100 empty_grid in
  rotate_tetrominoe t g PIECE_SQUARE = Some (Tet (5,1) (5,0) (6,1) (6,0), g).
Proof.
  intros t g.
  destruct (rotate_square t g 0x0100) as [_ H].
  - reflexivity.
  - lia.
  - apply placement_spawn. unfold PIECE_SQUARE. lia.
  - repeat (constructor; [split; reflexivity |]). constructor.
  - exact H.
Defined.

(** ** Scanning and removing together *)

Lemma ascending_filter (P : Z -> bool) (l : list Z) :
  ascending l -> ascending (List.filter P l).
Proof.
  induction l as [|x l IH]; cbn; [auto |]. intros [Hx Hl].
  destruct (P x); cbn; [| auto]. split; [| auto].
  rewrite Forall_forall in *. intros y Hy%filter_In. apply Hx, Hy.
Qed.

Lemma complete_rows_ascending g : ascending (complete_rows g).
Proof.
  apply ascending_filter.
  change (seqZ 0 GRID_SIZE_Y)
    with [0;1;2;3;4;5;6;7;8;9;10;11;12;13;14;15;16;17;18;19].
  cbn. repeat (split; [repeat constructor; lia |]). exact I.
Qed.

Lemma row_full_code_remove g r y :
  wf_grid g -> 0 <= r < 20 -> 0 <= y < 20 ->
  row_full (code_remove_line g r) y ->
  (y = 0 /\ r <> 0 /\ row_full g 0)
  \/ (1 <= y <= r /\ row_full g (y - 1))
  \/ (r < y /\ row_full g y).
Proof.
  intros Hwf Hr Hy Hfull.
  assert (Hat : forall x, 0 <= x < 10 ->
            grid_at (code_remove_line g r) (x, y)
            = if y =? 0 then (if r =? 0 then 0 else grid_at g (x, y))
              else if y <=? r then grid_at g (x, y - 1) else grid_at g (x, y)).
  { intros x Hx. unfold code_remove_line.
    rewrite grid_at_make_grid by (apply in_grid_iff; cbn; lia). reflexivity. }
  destruct (Z.eqb_spec y 0) as [->|Hy0].
  - left. destruct (Z.eqb_spec r 0) as [->|Hr0].
    + exfalso. apply (Hfull 0 ltac:(lia)). rewrite Hat by lia. reflexivity.
    + split; [reflexivity |]. split; [exact Hr0 |].
      intros x Hx. rewrite <- Hat by lia. apply Hfull, Hx.
  - right. destruct (Z.leb_spec y r).
    + left. split; [lia |]. intros x Hx. rewrite <- Hat by lia. apply Hfull, Hx.
    + right. split; [lia |]. intros x Hx. rewrite <- Hat by lia. apply Hfull, Hx.
Qed.

(** Removing the complete rows top to bottom leaves no complete row. *)
Lemma removals_leave_none (rs : list Z) : forall g,
  wf_grid g ->
  ascending rs ->
  Forall (fun r => 0 <= r < 20) rs ->
  (forall y, 0 <= y < 20 -> row_full g y -> In y rs) ->
  forall y, 0 <= y < 20 -> ~ row_full (foldl code_remove_line g rs) y.
Proof.
  induction rs as [|r rs IH]; intros g Hwf Hasc Hrs Hall y Hy; cbn [foldl].
  - intros Hfull. exact (Hall y Hy Hfull).
  - destruct Hasc as [Hlt Hasc]. apply Forall_cons_iff in Hrs as [Hr Hrs].
    apply IH; try assumption; [apply make_grid_wf |].
    intros y' Hy' Hfull. rewrite Forall_forall in Hlt.
    destruct (row_full_code_remove g r y' Hwf Hr Hy' Hfull)
      as [(-> & Hr0 & H0) | [(Hin & Hup) | (Hgt & Hsame)]].
    + destruct (Hall 0 ltac:(lia) H0) as [E|E]; [lia |].
      apply Hlt in E. lia.
    + destruct (Hall (y' - 1) ltac:(lia) Hup) as [E|E]; [lia |].
      apply Hlt in E. lia.
    + destruct (Hall y' Hy' Hsame) as [E|E]; [lia | exact E].
Qed.

Lemma pending_found (found : list Z) (m : nat) :
  Forall (fun r => 0 <= r < 20) found ->
  pending (found ++ replicate m (-1)) = found.
Proof.
  intros H. unfold pending. rewrite List.filter_app.
  replace (List.filter _ (replicate m (-1))) with (@nil Z)
    by (induction m as [|m IH]; cbn; [reflexivity | exact IH]).
  rewrite app_nil_r. induction found as [|r found IH]; cbn; [reflexivity |].
  apply Forall_cons_iff in H as [Hr H].
  destruct (Z.eqb_spec r (-1)); [lia |]. cbn. f_equal. apply IH, H.
Qed.

Lemma do_remove_lines_valid g (slots : list Z) :
  wf_grid g -> length slots = 4%nat -> Forall valid_slot slots ->
  do_remove_lines g slots
  = Some (Z.of_nat (length (pending slots)),
          foldl code_remove_line g (pending slots), [-1; -1; -1; -1]).
Proof.
  intros Hwf Hlen Hv.
  do 4 (destruct slots as [|? slots]; [discriminate Hlen |]).
  destruct slots; [| discriminate Hlen].
  repeat (apply Forall_cons_iff in Hv as [? Hv]).
  apply do_remove_lines_code; assumption.
Qed.

Lemma no_complete_rows g :
  (forall y, 0 <= y < 20 -> ~ row_full g y) -> complete_rows g = [].
Proof.
  intros H. unfold complete_rows.
  destruct (List.filter _ _) as [|y l] eqn:E; [reflexivity |].
  assert (Hy : In y (complete_rows g)) by (unfold complete_rows; rewrite E; cbn; auto).
  apply complete_rows_full in Hy as [Hy Hf]. destruct (H y Hy Hf).
Qed.

(** X12.  On a grid with at most four complete rows, with the four slots
    at -1: [get_remove_lines] followed by [do_remove_lines] on the slots
    it filled is defined, both return the number of complete rows, the
    slots are back at -1, and the grid that is left has no complete row. *)
Theorem scan_and_remove (g : playfield) :
  wf_grid g ->
  (length (complete_rows g) <= 4)%nat ->
  exists slots g',
    get_remove_lines g [-1; -1; -1; -1]
      = Some (Z.of_nat (length (complete_rows g)), slots)
    /\ do_remove_lines g slots
       = Some (Z.of_nat (length (complete_rows g)), g', [-1; -1; -1; -1])
    /\ wf_grid g'
    /\ complete_rows g' = []
    /\ get_remove_lines g' [-1; -1; -1; -1] = Some (0, [-1; -1; -1; -1]).
Proof.
  intros Hwf Hle.
  set (found := complete_rows g) in *.
  assert (Hfound : Forall (fun r => 0 <= r < 20) found).
  { rewrite Forall_forall. intros r Hr. apply complete_rows_full in Hr. tauto. }
  assert (Hdrop : drop (length found) [-1; -1; -1; -1]
                  = replicate (4 - length found) (-1)).
  { destruct (length found) as [|[|[|[|[|n]]]]]; try reflexivity; lia. }
  exists (found ++ replicate (4 - length found) (-1)),
         (foldl code_remove_line g found).
  assert (Hg' : forall y, 0 <= y < 20 -> ~ row_full (foldl code_remove_line g found) y).
  { apply removals_leave_none; try assumption.
    - apply complete_rows_ascending.
    - intros y Hy Hf. apply complete_rows_full. auto. }
  assert (Hwf' : wf_grid (foldl code_remove_line g found)).
  { destruct found as [|r l] using rev_ind; [exact Hwf |].
    rewrite foldl_app. cbn. apply make_grid_wf. }
  split; [| split; [| split; [| split]]].
  - unfold get_remove_lines.
    pose proof (scan_rows g [-1; -1; -1; -1] eq_refl (seqZ 0 GRID_SIZE_Y) [] Hle) as Hs.
    change (scanned [-1; -1; -1; -1] []) with (Some (0, [-1; -1; -1; -1])) in Hs.
    unfold scanned in Hs. cbn [app] in Hs.
    change (List.filter (row_complete g) (seqZ 0 GRID_SIZE_Y)) with found in Hs.
    rewrite Hs, Hdrop. reflexivity.
  - rewrite do_remove_lines_valid; try assumption.
    + rewrite pending_found by assumption. reflexivity.
    + rewrite length_app, length_replicate. lia.
    + apply Forall_app. split.
      * eapply Forall_impl; [| exact Hfound]. intros r Hr. right. exact Hr.
      * rewrite Forall_forall. intros r Hr%list_elem_of_In.
        apply elem_of_replicate in Hr as [-> _]. left. reflexivity.
  - exact Hwf'.
  - apply no_complete_rows, Hg'.
  - unfold get_remove_lines.
    pose proof (scan_rows (foldl code_remove_line g found) [-1; -1; -1; -1] eq_refl
                  (seqZ 0 GRID_SIZE_Y) []) as Hs.
    change (scanned [-1; -1; -1; -1] []) with (Some (0, [-1; -1; -1; -1])) in Hs.
    unfold scanned in Hs. cbn [app] in Hs.
    change (List.filter (row_complete (foldl code_remove_line g found))
                        (seqZ 0 GRID_SIZE_Y))
      with (complete_rows (foldl code_remove_line g found)) in Hs.
    rewrite (no_complete_rows _ Hg') in Hs. apply Hs. cbn. lia.
Qed.

Lemma scan_and_remove_witness :
  let g := make_grid (fun c => if (17 <=? c.2) && negb (c.2 =? 18) then 0x0400
                               else if c.1 =? 3 then 0 else 0x0200) in
  exists g',
    do_remove_lines g [17; 19; -1; -1] = Some (2, g', [-1; -1; -1; -1])
    /\ complete_rows g' = [].
Proof.
  intros g.
  destruct (scan_and_remove g) as (slots & g' & Hget & Hdo & _ & Hnone & _).
  - reflexivity.
  - vm_compute. lia.
  - exists g'. split; [| exact Hnone].
    assert (Hs : slots = [17; 19; -1; -1]).
    { vm_compute in Hget. injection Hget as <-. reflexivity. }
    rewrite <- Hs. exact Hdo.
Defined.

(** ** Removing rows: the edges *)

Lemma slot_step_invalid cnt g (slots : list Z) (i : nat) r :
  slots !! i = Some r -> ~ valid_slot r ->
  do_remove_lines_slot (Some (cnt, g, slots)) i = None.
Proof.
  intros Hi Hr. unfold do_remove_lines_slot. cbn. rewrite Hi. cbn.
  unfold valid_slot in Hr.
  destruct (Z.eqb_spec r (-1)); [tauto |].
  unfold remove_line, GRID_SIZE_Y.
  destruct (Z.leb_spec 0 r); [| reflexivity].
  destruct (Z.ltb_spec r 20); [lia | reflexivity].
Qed.

Lemma valid_slot_dec r : valid_slot r \/ ~ valid_slot r.
Proof. unfold valid_slot. lia. Qed.

Ltac slot_or_stop r :=
  destruct (valid_slot_dec r) as [?Hv|?Hn];
    [erewrite slot_step;
       [| first [assumption | apply make_grid_wf] | reflexivity | eassumption];
     destruct (Z.eqb_spec r (-1))
    | erewrite slot_step_invalid; [reflexivity | reflexivity | assumption]].

(** X13.  [do_remove_lines] at its edges.  With every slot at -1 it
    returns 0 and changes nothing.  With a slot that holds neither -1 nor
    a row 0..19 it has no defined result (the row's cells are outside the
    grid).  With one row r pending it returns 1 and, in every column, the
    rows below r keep their cells, rows 1..r take the cells of the row
    above, and row 0 keeps its cells unless r is 0, in which case it is
    emptied. *)
Theorem do_remove_lines_edges (g : playfield) :
  wf_grid g ->
  do_remove_lines g [-1; -1; -1; -1] = Some (0, g, [-1; -1; -1; -1])
  /\ (forall a b c d, ~ Forall valid_slot [a; b; c; d] ->
        do_remove_lines g [a; b; c; d] = None)
  /\ (forall r, 0 <= r < 20 ->
        exists g',
          do_remove_lines g [r; -1; -1; -1] = Some (1, g', [-1; -1; -1; -1])
          /\ wf_grid g'
          /\ forall x, 0 <= x < 10 ->
               (forall y, r < y < 20 -> grid_at g' (x, y) = grid_at g (x, y))
               /\ (forall y, 1 <= y <= r -> grid_at g' (x, y) = grid_at g (x, y - 1))
               /\ grid_at g' (x, 0) = if r =? 0 then 0 else grid_at g (x, 0)).
Proof.
  intros Hwf. split; [reflexivity |]. split.
  - intros a b c d Hbad. unfold do_remove_lines. cbn [seq foldl].
    slot_or_stop a; (slot_or_stop b; (slot_or_stop c; (slot_or_stop d)));
      exfalso; apply Hbad;
      repeat (apply List.Forall_cons; [assumption |]); apply List.Forall_nil.
  - intros r Hr. exists (code_remove_line g r).
    split.
    + rewrite do_remove_lines_code;
        [| assumption | right; exact Hr | left; reflexivity ..].
      unfold pending. cbn [List.filter].
      destruct (Z.eqb_spec r (-1)); [lia |]. reflexivity.
    + split; [apply make_grid_wf |].
      intros x Hx. unfold code_remove_line. repeat split.
      * intros y Hy. rewrite grid_at_make_grid by (apply in_grid_iff; cbn; lia).
        cbn. destruct (Z.eqb_spec y 0); [lia |].
        destruct (Z.leb_spec y r); [lia | reflexivity].
      * intros y Hy. rewrite grid_at_make_grid by (apply in_grid_iff; cbn; lia).
        cbn. destruct (Z.eqb_spec y 0); [lia |].
        destruct (Z.leb_spec y r); [reflexivity | lia].
      * rewrite grid_at_make_grid by (apply in_grid_iff; cbn; lia).
        reflexivity.
Qed.

Lemma do_remove_lines_edges_witness :
  do_remove_lines empty_grid [3; 20; -1; -1] = None
  /\ do_remove_lines empty_grid [-1; -1; -1; -1] = Some (0, empty_grid, [-1; -1; -1; -1]).
Proof.
  destruct (do_remove_lines_edges empty_grid eq_refl) as (H0 & Hbad & _).
  split; [| exact H0].
  apply Hbad. intros H. apply Forall_cons_iff in H as [_ H].
  apply Forall_cons_iff in H as [[H|H] _]; lia.
Defined.

(** ** The score panel *)

Lemma removals_wf (rs : list Z) g :
  wf_grid g -> wf_grid (foldl code_remove_line g rs).
Proof.
  intros Hwf. destruct rs as [|r l] using rev_ind; [exact Hwf |].
  rewrite foldl_app. cbn. apply make_grid_wf.
Qed.

(** The row-remove step on valid slots, from a consistent panel. *)
Lemma row_remove_run (s : game) :
  wf_grid (grid s) ->
  length (remove_lines s) = 4%nat ->
  Forall valid_slot (remove_lines s) ->
  fall_delay s = INITIAL_FALL_DELAY - 10 * level s ->
  level s = Z.min 9 (lines s / 10) ->
  0 <= lines s <= 9999 ->
  0 <= score s <= 99999999 ->
  exists s',
    row_remove s = Some s'
    /\ panel_ok s'
    /\ score s <= score s' /\ lines s <= lines s'
    /\ level s <= level s' <= level s + 1
    /\ 0 <= fall_delay s' <= 90
    /\ wf_grid (grid s') /\ remove_lines s' = [-1; -1; -1; -1]
    /\ state s' = STATE_CREATE_PIECE
    /\ grid s' = foldl code_remove_line (grid s) (pending (remove_lines s)).
Proof.
  intros Hwf Hlen Hv Hfd Hlv Hlines Hscore.
  unfold row_remove.
  rewrite (do_remove_lines_valid _ _ Hwf Hlen Hv).
  assert (Hn : 0 <= Z.of_nat (length (pending (remove_lines s))) <= 4).
  { destruct (remove_lines s) as [|a [|b [|c [|d [|]]]]]; try discriminate Hlen.
    apply pending_count. }
  set (n := Z.of_nat (length (pending (remove_lines s)))) in *.
  set (g' := foldl code_remove_line (grid s) (pending (remove_lines s))).
  assert (Hwf' : wf_grid g') by (apply removals_wf, Hwf).
  cbn [mbind option_bind].
  assert (Hdm : lines s = 10 * (lines s / 10) + lines s mod 10)
    by (apply Z.div_mod; lia).
  pose proof (Z.mod_pos_bound (lines s) 10 ltac:(lia)) as Hm.
  assert (Hl9 : 0 <= level s <= 9) by lia.
  unfold INITIAL_FALL_DELAY in *.
  rewrite (int32_id (lines s + n)) by lia.
  rewrite (int32_id (level s + 1)) by lia.
  rewrite (int32_id (level s * 10)) by lia.
  rewrite (int32_id (level s * 10 + 10)) by lia.
  rewrite (int32_id (fall_delay s - 10)) by lia.
  rewrite !(int32_id (_ * (level s + 1))) by lia.
  rewrite !(int32_id (score s + _)) by lia.
  set (lines' := if lines s + n >? 9999 then 9999 else lines s + n).
  assert (Hl' : lines' = Z.min 9999 (lines s + n)).
  { unfold lines'. destruct (Z.gtb_spec (lines s + n) 9999); lia. }
  set (sc := if n =? 1 then _ else _).
  assert (Hsc : score s <= sc <= score s + 12000).
  { unfold sc.
    repeat match goal with
           | |- context [n =? ?k] => destruct (Z.eqb_spec n k)
           end; lia. }
  set (score' := if sc >? 99999999 then 99999999 else sc).
  assert (Hs' : score s <= score' <= 99999999).
  { unfold score'. destruct (Z.gtb_spec sc 99999999); lia. }
  assert (Hdm' : lines' = 10 * (lines' / 10) + lines' mod 10)
    by (apply Z.div_mod; lia).
  pose proof (Z.mod_pos_bound lines' 10 ltac:(lia)) as Hm'.
  unfold panel_ok, INITIAL_FALL_DELAY.
  destruct (Z.eqb_spec (level s) 9) as [E9|N9]; cbn [negb andb].
  - eexists. split; [reflexivity |]. cbn.
    repeat split; try assumption; try lia.
  - destruct (Z.geb_spec lines' (level s * 10 + 10)) as [Hge|Hlt].
    + eexists. split; [reflexivity |]. cbn.
      repeat split; try assumption; try lia.
    + eexists. split; [reflexivity |]. cbn.
      repeat split; try assumption; try lia.
Qed.

(** X14.  The row-remove step keeps the score panel consistent.  From a
    state where lines and score are within their caps, the level is the
    number of tens of lines (at most 9) and the fall delay is 90 minus ten
    times the level, the step on valid slots is defined and leads to such
    a state again; score, lines and level do not decrease, the level rises
    by at most one, and the fall delay stays between 0 and 90. *)
Theorem row_remove_keeps_panel (s : game) :
  wf_grid (grid s) ->
  length (remove_lines s) = 4%nat ->
  Forall valid_slot (remove_lines s) ->
  fall_delay s = INITIAL_FALL_DELAY - 10 * level s ->
  level s = Z.min 9 (lines s / 10) ->
  0 <= lines s <= 9999 ->
  0 <= score s <= 99999999 ->
  exists s',
    row_remove s = Some s'
    /\ panel_ok s'
    /\ score s <= score s' /\ lines s <= lines s'
    /\ level s <= level s' <= level s + 1
    /\ 0 <= fall_delay s' <= 90
    /\ wf_grid (grid s') /\ remove_lines s' = [-1; -1; -1; -1].
Proof.
  intros Hwf Hlen Hv Hfd Hlv Hlines Hscore.
  destruct (row_remove_run s Hwf Hlen Hv Hfd Hlv Hlines Hscore)
    as (s' & E & Hp & Hsc & Hl & Hlvl & Hf & Hw & Hsl & _).
  exists s'. auto 10.
Qed.

Lemma row_remove_keeps_panel_witness :
  let g := make_grid (fun c => if 16 <=? c.2 then 0x0400 else 0) in
  let s := Game STATE_ROW_REMOVE 17 1 2500 80 g [16; 17; 18; 19] in
  exists s', row_remove s = Some s' /\ panel_ok s' /\ level s' = 2.
Proof.
  intros g s.
  destruct (row_remove_keeps_panel s) as (s' & Hrun & Hok & _).
  - reflexivity.
  - reflexivity.
  - repeat (constructor; [right; cbn; lia |]). constructor.
  - reflexivity.
  - reflexivity.
  - unfold s. cbn. lia.
  - unfold s. cbn. lia.
  - exists s'. split; [exact Hrun |]. split; [exact Hok |].
    vm_compute in Hrun. injection Hrun as <-. reflexivity.
Defined.

(** ** The flash *)

Lemma all_display_cells (P : Z -> bool) :
  forallb (fun h => forallb (fun l => P (256 * h + l)) (seqZ 0 256)) (seqZ 0 256)
  = true ->
  forall v, 0 <= v < 65536 -> P v = true.
Proof.
  intros H v Hv. rewrite forallb_forall in H.
  pose proof (Z.div_mod v 256 ltac:(lia)) as Hdm.
  pose proof (Z.mod_pos_bound v 256 ltac:(lia)) as Hm.
  assert (Hh : 0 <= v / 256 < 256).
  { split; [apply Z.div_pos; lia | apply Z.div_lt_upper_bound; lia]. }
  specialize (H (v / 256)). rewrite forallb_forall in H.
  rewrite Hdm. apply H; apply list_elem_of_In, elem_of_seqZ; lia.
Qed.

Lemma cycle_cell_range v :
  0 <= v < 65536 -> 0 <= cycle_cell v < 65536 /\ cycle_cell v / 256 = v / 256.
Proof.
  intros Hv.
  pose proof (all_display_cells
    (fun v => (0 <=? cycle_cell v) && (cycle_cell v <? 65536)
              && (cycle_cell v / 256 =? v / 256))
    ltac:(vm_compute; reflexivity) v Hv) as H.
  cbv beta in H. apply andb_true_iff in H as [H H3].
  apply andb_true_iff in H as [H1 H2].
  apply Z.leb_le in H1. apply Z.ltb_lt in H2. apply Z.eqb_eq in H3. auto.
Qed.

Lemma cycle_cell_occupied v : 0 <= v < 65536 -> v <> 0 -> cycle_cell v <> 0.
Proof.
  intros Hv Hnz.
  pose proof (all_display_cells
    (fun v => (v =? 0) || negb (cycle_cell v =? 0))
    ltac:(vm_compute; reflexivity) v Hv) as H.
  cbv beta in H. apply orb_true_iff in H as [H|H].
  - apply Z.eqb_eq in H. contradiction.
  - apply negb_true_iff, Z.eqb_neq in H. exact H.
Qed.

Lemma cycle_cell_period v :
  0 <= v < 65536 -> cycle_cell (cycle_cell (cycle_cell v)) = cycle_cell v.
Proof.
  intros Hv. apply Z.eqb_eq.
  exact (all_display_cells
    (fun v => cycle_cell (cycle_cell (cycle_cell v)) =? cycle_cell v)
    ltac:(vm_compute; reflexivity) v Hv).
Qed.

Lemma cycle_cell_block v :
  0 <= v < 65536 -> v mod 256 = 0 ->
  cycle_cell v = v + 35 /\ cycle_cell (v + 35) = v + 32
  /\ cycle_cell (v + 32) = v + 35.
Proof.
  intros Hv Hlow.
  pose proof (all_display_cells
    (fun v => negb (v mod 256 =? 0)
              || ((cycle_cell v =? v + 35)
                  && (cycle_cell (v + 35) =? v + 32)
                  && (cycle_cell (v + 32) =? v + 35)))
    ltac:(vm_compute; reflexivity) v Hv) as H.
  cbv beta in H. apply orb_true_iff in H as [H|H].
  - apply negb_true_iff, Z.eqb_neq in H. contradiction.
  - apply andb_true_iff in H as [H H3]. apply andb_true_iff in H as [H1 H2].
    apply Z.eqb_eq in H1, H2, H3. auto.
Qed.

(** X15.  One pass of the flash on a 16-bit display cell: the cell stays
    a 16-bit cell, its attribute byte is kept, an occupied cell stays
    occupied, and three passes give what one pass gives (from the first
    pass on the cell alternates between two values).  A block of colour c
    (low byte 0) becomes c + '#', and from there alternates between
    c + ' ' and c + '#'. *)
Theorem cycle_cell_toggle (v : Z) :
  0 <= v < 65536 ->
  0 <= cycle_cell v < 65536
  /\ cycle_cell v / 256 = v / 256
  /\ (v <> 0 -> cycle_cell v <> 0)
  /\ cycle_cell (cycle_cell (cycle_cell v)) = cycle_cell v
  /\ (v mod 256 = 0 ->
      cycle_cell v = v + 35
      /\ cycle_cell (v + 35) = v + 32
      /\ cycle_cell (v + 32) = v + 35).
Proof.
  intros Hv. destruct (cycle_cell_range v Hv) as [Hr Hq].
  split; [exact Hr |]. split; [exact Hq |].
  split; [apply cycle_cell_occupied, Hv |].
  split; [apply cycle_cell_period, Hv |].
  apply cycle_cell_block, Hv.
Qed.

Lemma cycle_cell_toggle_witness :
  cycle_cell 0x0400 = 0x0423 /\ cycle_cell 0x0423 = 0x0420
  /\ cycle_cell 0x0420 = 0x0423.
Proof.
  destruct (cycle_cell_toggle 0x0400 ltac:(lia)) as (_ & _ & _ & _ & H).
  apply H. reflexivity.
Defined.

Section Flash.

Lemma update_row_spec (y : Z) (f : Z -> Z) (xs : list Z) :
  0 <= y < 20 ->
  Forall (fun x => 0 <= x < 10) xs ->
  NoDup xs ->
  forall g, wf_grid g ->
  let g' := foldl (fun g x => <[ idx (x, y) := f (grid_at g (x, y)) ]> g) g xs in
  wf_grid g'
  /\ forall c, in_grid c = true ->
       grid_at g' c
       = if decide (c.2 = y /\ c.1 ∈ xs) then f (grid_at g c) else grid_at g c.
Proof.
  intros Hy Hxs Hnd. induction xs as [|x xs IH]; intros g Hwf; cbn [foldl].
  - split; [assumption |]. intros c Hc.
    rewrite decide_False; [reflexivity |]. intros [_ H]. inversion H.
  - apply Forall_cons_iff in Hxs as [Hx Hxs].
    pose proof (NoDup_cons_1_1 _ _ Hnd) as Hnx.
    apply NoDup_cons_1_2 in Hnd.
    assert (Hxy : in_grid (x, y) = true) by (apply in_grid_iff; cbn; lia).
    set (g1 := <[ idx (x, y) := f (grid_at g (x, y)) ]> g).
    assert (Hwf1 : wf_grid g1) by (apply insert_wf, Hwf).
    destruct (IH Hxs Hnd g1 Hwf1) as [Hwf' Hat]. split; [exact Hwf' |].
    intros c Hc. rewrite (Hat c Hc).
    assert (Hg1 : grid_at g1 c
                  = if decide ((x, y) = c) then f (grid_at g (x, y)) else grid_at g c).
    { unfold g1. apply grid_at_insert; assumption. }
    destruct (decide (c.2 = y /\ c.1 ∈ xs)) as [[E Hin]|Hn].
    + rewrite decide_True by (split; [exact E | apply elem_of_cons; auto]).
      rewrite Hg1, decide_False; [reflexivity |].
      intros <-. apply Hnx. exact Hin.
    + rewrite Hg1. destruct (decide ((x, y) = c)) as [<-|Hne].
      * try rewrite (decide_True (P := (x, y) = (x, y))) by reflexivity.
        rewrite decide_True; [reflexivity |].
        split; [reflexivity | apply elem_of_cons; auto].
      * try rewrite (decide_False (P := (x, y) = c)) by assumption.
        rewrite decide_False; [reflexivity |].
        intros [E [Ex|Hin]%elem_of_cons]; [| tauto].
        apply Hne. destruct c; cbn in *; congruence.
Qed.

Lemma cycle_row_spec g r :
  wf_grid g -> 0 <= r < 20 ->
  exists g',
    cycle_row g r = Some g' /\ wf_grid g'
    /\ forall c, in_grid c = true ->
         grid_at g' c
         = if decide (c.2 = r) then cycle_cell (grid_at g c) else grid_at g c.
Proof.
  intros Hwf Hr. unfold cycle_row, GRID_SIZE_Y.
  destruct (Z.leb_spec 0 r); [| lia]. destruct (Z.ltb_spec r 20); [| lia].
  cbn [andb]. eexists. split; [reflexivity |].
  destruct (update_row_spec r cycle_cell (seqZ 0 GRID_SIZE_X) Hr columns_bounds
              (NoDup_seqZ _ _) g Hwf) as [Hwf' Hat].
  split; [exact Hwf' |]. intros c Hc. rewrite (Hat c Hc).
  pose proof (in_columns c Hc).
  destruct (decide (c.2 = r)); [rewrite decide_True | rewrite decide_False];
    tauto.
Qed.

Lemma cycle_rows_spec (rs : list Z) : forall g,
  wf_grid g -> Forall (fun r => 0 <= r < 20) rs ->
  exists g',
    foldl (fun acc r => g ← acc; cycle_row g r) (Some g) rs = Some g'
    /\ wf_grid g'
    /\ forall c, in_grid c = true ->
         grid_at g' c
         = Nat.iter (count_occ Z.eq_dec rs c.2) cycle_cell (grid_at g c).
Proof.
  induction rs as [|r rs IH]; intros g Hwf Hrs; cbn [foldl].
  - exists g. auto.
  - apply Forall_cons_iff in Hrs as [Hr Hrs].
    destruct (cycle_row_spec g r Hwf Hr) as (g1 & E1 & Hwf1 & Hat1).
    cbn [mbind option_bind]. rewrite E1.
    destruct (IH g1 Hwf1 Hrs) as (g' & E & Hwf' & Hat).
    exists g'. split; [exact E |]. split; [exact Hwf' |].
    intros c Hc. rewrite (Hat c Hc), (Hat1 c Hc). cbn [count_occ].
    destruct (Z.eq_dec r c.2) as [->|Hne].
    + rewrite decide_True by reflexivity. rewrite Nat.iter_succ_r. reflexivity.
    + rewrite decide_False by congruence. reflexivity.
Qed.

Lemma cycle_slots (slots : list Z) : forall acc : option playfield,
  foldl (fun acc r => g ← acc; if r =? -1 then Some g else cycle_row g r)
        acc slots
  = foldl (fun acc r => g ← acc; cycle_row g r) acc (pending slots).
Proof.
  induction slots as [|r slots IH]; intros acc; [reflexivity |].
  unfold pending. cbn [foldl List.filter].
  destruct (Z.eqb_spec r (-1)) as [->|Hne]; cbn [negb foldl].
  - rewrite IH. destruct acc; reflexivity.
  - rewrite IH. reflexivity.
Qed.

End Flash.

(** X16.  One call of [cycle_remove_lines] on valid slots is defined and
    toggles, with [cycle_cell], every cell of each row held in a slot,
    once per slot holding that row; the cells of all other rows are left
    as they are, and the slots are not written. *)
Theorem cycle_remove_lines_rows (g : playfield) (a b c d : Z) :
  wf_grid g ->
  valid_slot a -> valid_slot b -> valid_slot c -> valid_slot d ->
  exists g',
    cycle_remove_lines g [a; b; c; d] = Some g'
    /\ wf_grid g'
    /\ forall cl, in_grid cl = true ->
         grid_at g' cl
         = Nat.iter (count_occ Z.eq_dec (pending [a; b; c; d]) cl.2)
                    cycle_cell (grid_at g cl).
Proof.
  intros Hwf Ha Hb Hc Hd.
  assert (Hp : Forall (fun r => 0 <= r < 20) (pending [a; b; c; d])).
  { unfold pending. rewrite Forall_forall. intros r [Hin Hr]%filter_In.
    apply negb_true_iff, Z.eqb_neq in Hr.
    cbn in Hin. unfold valid_slot in *.
    destruct Hin as [<-|[<-|[<-|[<-|[]]]]]; lia. }
  destruct (cycle_rows_spec (pending [a; b; c; d]) g Hwf Hp) as (g' & E & Hwf' & Hat).
  exists g'. split; [| auto].
  rewrite <- E, <- cycle_slots. reflexivity.
Qed.

Lemma cycle_remove_lines_rows_witness :
  let g := make_grid (fun c => if c.2 =? 19 then 0x0400 else 0) in
  exists g',
    cycle_remove_lines g [19; -1; -1; -1] = Some g'
    /\ grid_at g' (3, 19) = 0x0423 /\ grid_at g' (3, 18) = 0.
Proof.
  intros g.
  destruct (cycle_remove_lines_rows g 19 (-1) (-1) (-1)) as (g' & E & _ & Hat).
  - reflexivity.
  - right. lia.
  - left. reflexivity.
  - left. reflexivity.
  - left. reflexivity.
  - exists g'. split; [exact E |].
    split; rewrite Hat by reflexivity; reflexivity.
Defined.

(** ** The score panel's digits *)

Lemma frame_set_ok nf i v :
  0 <= i < 2000 -> frame_set nf i v = Some (<[ Z.to_nat i := to_short v ]> nf).
Proof.
  intros Hi. unfold frame_set.
  destruct (Z.leb_spec 0 i); [| lia]. destruct (Z.ltb_spec i 2000); [| lia].
  reflexivity.
Qed.


Lemma collect_digits_spec (room : nat) : forall v acc,
  0 <= v < 10 ^ Z.of_nat room ->
  exists new,
    collect_digits room v acc = Some (acc ++ new)
    /\ (length new <= room)%nat
    /\ Forall (fun d => 0 <= d <= 9) new
    /\ foldr (fun d a => d + 10 * a) 0 new = v
    /\ (v = 0 -> new = [])
    /\ (v <> 0 -> exists d, head (reverse new) = Some d /\ d <> 0).
Proof.
  induction room as [|room IH]; intros v acc Hv.
  - assert (v = 0) as -> by (cbn in Hv; lia). exists [].
    rewrite app_nil_r. split; [reflexivity |]. split; [cbn; lia |].
    split; [constructor |]. split; [reflexivity |]. split; [reflexivity |].
    intros H; contradiction.
  - cbn [collect_digits]. destruct (Z.eqb_spec v 0) as [->|Hnz].
    + exists []. rewrite app_nil_r. split; [reflexivity |]. split; [cbn; lia |].
      split; [constructor |]. split; [reflexivity |]. split; [reflexivity |].
      intros H; contradiction.
    + rewrite Nat2Z.inj_succ, Z.pow_succ_r in Hv by lia.
      rewrite Z.quot_div_nonneg, Z.rem_mod_nonneg by lia.
      pose proof (Z.div_mod v 10 ltac:(lia)) as Hdm.
      pose proof (Z.mod_pos_bound v 10 ltac:(lia)) as Hm.
      destruct (IH (v / 10) (acc ++ [v mod 10])) as (new & E & Hl & Hd & Hval & Hz & Hnzl).
      { split; [apply Z.div_pos; lia | apply Z.div_lt_upper_bound; lia]. }
      exists (v mod 10 :: new). rewrite E, <- app_assoc.
      split; [reflexivity |]. split; [cbn; lia |].
      split; [constructor; [lia | exact Hd] |].
      split; [cbn; rewrite Hval; lia |].
      split; [intros H; contradiction |].
      intros _. destruct (Z.eqb_spec (v / 10) 0) as [E0|N0].
      * rewrite (Hz E0). exists (v mod 10). split; [reflexivity | lia].
      * destruct (Hnzl N0) as (d & Hlast & Hd0). exists d. split; [| exact Hd0].
        rewrite reverse_cons. destruct (reverse new); [discriminate Hlast | exact Hlast].
Qed.


Lemma digit_glyph d :
  0 <= d <= 9 ->
  numbers !! Z.to_nat d = Some (48 + d)
  /\ to_short (Z.lor 0x0F00 (48 + d)) = 0x0F30 + d.
Proof.
  intros Hd.
  assert (d = 0 \/ d = 1 \/ d = 2 \/ d = 3 \/ d = 4 \/ d = 5 \/ d = 6
          \/ d = 7 \/ d = 8 \/ d = 9) as H by lia.
  destruct H as [->|[->|[->|[->|[->|[->|[->|[->|[->| ->]]]]]]]]];
    split; reflexivity.
Qed.

(** The digit loop writes its digits one cell after the other. *)
Lemma put_digits_spec (pos_x pos_y : Z) (ds : list Z) : forall nf pos,
  length nf = 2000%nat ->
  Forall (fun d => 0 <= d <= 9) ds ->
  0 <= pos_y * 80 + pos_x + pos ->
  pos_y * 80 + pos_x + pos + Z.of_nat (length ds) <= 2000 ->
  exists nf',
    foldl (put_digit pos_x pos_y numbers) (Some (nf, pos)) ds
    = Some (nf', pos + Z.of_nat (length ds))
    /\ length nf' = 2000%nat
    /\ (forall i d, ds !! i = Some d ->
          nf' !!! Z.to_nat (pos_y * 80 + pos_x + pos + Z.of_nat i) = 0x0F30 + d)
    /\ (forall j, ~ (pos_y * 80 + pos_x + pos <= Z.of_nat j
                     < pos_y * 80 + pos_x + pos + Z.of_nat (length ds)) ->
          nf' !!! j = nf !!! j).
Proof.
  induction ds as [|d ds IH]; intros nf pos Hlen Hds Hlo Hhi.
  - exists nf. cbn. rewrite Z.add_0_r. repeat split; auto.
    intros i d H. discriminate H.
  - apply Forall_cons_iff in Hds as [Hd Hds]. cbn [length] in Hhi.
    cbn [foldl]. unfold put_digit at 2. cbn [mbind option_bind].
    destruct (Z.leb_spec 0 d); [| lia]. destruct (Z.ltb_spec d 10); [| lia].
    cbn [andb]. destruct (digit_glyph d Hd) as [Hg Hs]. rewrite Hg.
    cbn [mbind option_bind]. rewrite frame_set_ok by lia.
    cbn [mbind option_bind]. rewrite Hs.
    set (nf1 := <[ Z.to_nat (pos_y * 80 + pos_x + pos) := 0x0F30 + d ]> nf).
    destruct (IH nf1 (pos + 1)) as (nf' & E & Hl' & Hat & Hout);
      [unfold nf1; rewrite length_insert; exact Hlen | exact Hds | lia | lia |].
    exists nf'. rewrite E. cbn [length].
    split; [f_equal; f_equal; lia |]. split; [exact Hl' |]. split.
    + intros [|i] d' Hi.
      * injection Hi as <-. rewrite Hout by lia.
        unfold nf1. rewrite Z.add_0_r.
        apply list_lookup_total_insert_eq. lia.
      * cbn in Hi. rewrite <- (Hat i d' Hi). f_equal. lia.
    + intros j Hj. rewrite Hout by lia. unfold nf1.
      apply list_lookup_total_insert_ne. lia.
Qed.

Lemma blanks_spec (base : Z) (nf : list Z) :
  length nf = 2000%nat -> 0 <= base -> base + 8 <= 2000 ->
  exists nf',
    foldl (fun acc i => nf ← acc; frame_set nf (base + i) (Z.lor 0x0F00 32))
          (Some nf) (seqZ 0 8) = Some nf'
    /\ length nf' = 2000%nat
    /\ forall j, nf' !!! j
         = if decide (base <= Z.of_nat j < base + 8) then 0x0F20 else nf !!! j.
Proof.
  intros Hlen Hlo Hhi.
  change (seqZ 0 8) with [0; 1; 2; 3; 4; 5; 6; 7]. cbn [foldl mbind option_bind].
  repeat (rewrite frame_set_ok by lia; cbn [mbind option_bind]).
  eexists. split; [reflexivity |]. split; [rewrite !length_insert; exact Hlen |].
  intros j. change (to_short (Z.lor 0x0F00 32)) with 0x0F20.
  destruct (decide (base <= Z.of_nat j < base + 8)) as [Hin|Hout].
  - assert (Hj : j = Z.to_nat (base + (Z.of_nat j - base))) by lia.
    assert (Hk : Z.of_nat j - base = 0 \/ Z.of_nat j - base = 1
                 \/ Z.of_nat j - base = 2 \/ Z.of_nat j - base = 3
                 \/ Z.of_nat j - base = 4 \/ Z.of_nat j - base = 5
                 \/ Z.of_nat j - base = 6 \/ Z.of_nat j - base = 7) by lia.
    rewrite Hj.
    destruct Hk as [->|[->|[->|[->|[->|[->|[->| ->]]]]]]];
      repeat first
        [ rewrite list_lookup_total_insert_eq by (rewrite ?length_insert; lia);
          reflexivity
        | rewrite list_lookup_total_insert_ne by lia ].
  - repeat rewrite list_lookup_total_insert_ne by lia. reflexivity.
Qed.



(** ** Redrawing the playfield *)

Section Writes.

Lemma writes_spec (ws : list (nat * Z)) : forall l : list Z,
  NoDup ws.*1 ->
  Forall (fun w => (w.1 < length l)%nat) ws ->
  let l' := foldl (fun l w => <[ w.1 := w.2 ]> l) l ws in
  length l' = length l
  /\ (forall w, w ∈ ws -> l' !!! w.1 = w.2)
  /\ (forall j, j ∉ ws.*1 -> l' !!! j = l !!! j).
Proof.
  induction ws as [|w ws IH]; intros l Hnd Hlt; cbn [foldl].
  - split; [reflexivity |]. split; [| reflexivity].
    intros w Hw. inversion Hw.
  - cbn [fmap list_fmap] in Hnd.
    pose proof (NoDup_cons_1_1 _ _ Hnd) as Hnw.
    apply NoDup_cons_1_2 in Hnd.
    apply Forall_cons_iff in Hlt as [Hw Hlt].
    destruct (IH (<[ w.1 := w.2 ]> l) Hnd) as (Hl & Hin & Hout).
    { eapply Forall_impl; [| exact Hlt]. intros. rewrite length_insert. assumption. }
    rewrite length_insert in Hl. split; [exact Hl |]. split.
    + intros w' [->|Hw']%elem_of_cons.
      * rewrite (Hout w.1 Hnw). apply list_lookup_total_insert_eq. exact Hw.
      * apply Hin, Hw'.
    + intros j Hj. rewrite Hout.
      * apply list_lookup_total_insert_ne. intros E. apply Hj.
        cbn. apply elem_of_cons. left. symmetry. exact E.
      * intros H. apply Hj. cbn. apply elem_of_cons. auto.
Qed.

Lemma foldl_column {A : Type} (f : A -> Z -> Z -> A) (x : Z) (ys : list Z) :
  forall a,
  foldl (fun a y => f a x y) a ys
  = foldl (fun a p => f a p.1 p.2) a ((fun y => (x, y)) <$> ys).
Proof.
  induction ys as [|y ys IH]; intros a; [reflexivity |].
  cbn [foldl fmap list_fmap]. apply IH.
Qed.

Lemma foldl_nested {A : Type} (f : A -> Z -> Z -> A) (ys : list Z) (xs : list Z) :
  forall a,
  foldl (fun a x => foldl (fun a y => f a x y) a ys) a xs
  = foldl (fun a p => f a p.1 p.2) a (xs ≫= fun x => (fun y => (x, y)) <$> ys).
Proof.
  induction xs as [|x xs IH]; intros a; [reflexivity |].
  cbn [foldl mbind list_bind]. rewrite foldl_app, <- IH, <- foldl_column.
  reflexivity.
Qed.

End Writes.

(** The cells of the grid, in the order of the redraw loops, with their
    place in the desired buffer. *)
Lemma redraw_as_writes g nf :
  redraw_grid g nf
  = foldl (fun l w => <[ w.1 := w.2 ]> l) nf
      ((fun p : Z * Z => (Z.to_nat (p.2 * 80 + p.1 + 1),
                          to_short (shown (grid_at g p))))
       <$> (seqZ 0 GRID_SIZE_X ≫= fun x => (fun y => (x, y)) <$> seqZ 0 GRID_SIZE_Y)).
Proof.
  unfold redraw_grid.
  rewrite (foldl_nested
             (fun nf x y =>
                <[ Z.to_nat (y * 80 + x + 1) := to_short (shown (grid_at g (x, y))) ]> nf)).
  generalize (seqZ 0 GRID_SIZE_X ≫= fun x => (fun y => (x, y)) <$> seqZ 0 GRID_SIZE_Y).
  intros ps. revert nf. induction ps as [|[x y] ps IH]; intros nf; [reflexivity |].
  cbn [foldl fmap list_fmap]. apply IH.
Qed.

Lemma grid_cells_list (p : Z * Z) :
  p ∈ (seqZ 0 GRID_SIZE_X ≫= fun x => (fun y => (x, y)) <$> seqZ 0 GRID_SIZE_Y)
  <-> 0 <= p.1 < 10 /\ 0 <= p.2 < 20.
Proof.
  rewrite list_elem_of_bind. unfold GRID_SIZE_X, GRID_SIZE_Y. split.
  - intros (x & Hp & Hx). apply list_elem_of_fmap in Hp as (y & -> & Hy).
    rewrite elem_of_seqZ in Hx, Hy. cbn. lia.
  - intros [Hx Hy]. exists p.1. split.
    + apply list_elem_of_fmap. exists p.2. split; [destruct p; reflexivity |].
      rewrite elem_of_seqZ. lia.
    + rewrite elem_of_seqZ. lia.
Qed.

Lemma shown_block v :
  0 <= v < 65536 -> v <> 0 -> v mod 256 = 0 ->
  shown v = v + 35 /\ shown (v + 35) = v + 35 /\ shown (v + 32) = v + 32.
Proof.
  intros Hv Hnz Hlow.
  pose proof (all_display_cells
    (fun v => (v =? 0) || negb (v mod 256 =? 0)
              || ((shown v =? v + 35) && (shown (v + 35) =? v + 35)
                  && (shown (v + 32) =? v + 32)))
    ltac:(vm_compute; reflexivity) v Hv) as H.
  cbv beta in H. apply orb_true_iff in H as [H|H].
  - apply orb_true_iff in H as [H|H].
    + apply Z.eqb_eq in H. contradiction.
    + apply negb_true_iff, Z.eqb_neq in H. contradiction.
  - apply andb_true_iff in H as [H H3]. apply andb_true_iff in H as [H1 H2].
    apply Z.eqb_eq in H1, H2, H3. auto.
Qed.

(** X18.  The redraw of the playfield into a 2000-cell desired buffer
    sets the cell in column x + 1 of row y to what is shown for grid cell
    (x, y), for the 10 x 20 cells of the grid, and changes no other cell
    of the buffer: not the border columns 0 and 11, nor the panel to the
    right, nor the rows from 20 on.  An empty cell is shown as a grey
    blank; a block of colour c is shown as c + '#', and in the two phases
    of the flash as c + '#' and c + ' '. *)
Theorem redraw_grid_window (g : playfield) (nf : list Z) :
  length nf = 2000%nat ->
  length (redraw_grid g nf) = 2000%nat
  /\ (forall x y, 0 <= x < 10 -> 0 <= y < 20 ->
        redraw_grid g nf !!! Z.to_nat (y * 80 + x + 1)
        = to_short (shown (grid_at g (x, y))))
  /\ (forall j : nat,
        20 <= Z.of_nat j / 80 \/ Z.of_nat j mod 80 = 0 \/ 10 < Z.of_nat j mod 80 ->
        redraw_grid g nf !!! j = nf !!! j)
  /\ shown 0 = 0x0720
  /\ (forall c, 0 < c < 65536 -> c mod 256 = 0 ->
        shown c = c + 35 /\ shown (c + 35) = c + 35 /\ shown (c + 32) = c + 32).
Proof.
  intros Hlen. rewrite redraw_as_writes.
  set (ps := seqZ 0 GRID_SIZE_X ≫= fun x => (fun y => (x, y)) <$> seqZ 0 GRID_SIZE_Y).
  set (w := fun p : Z * Z => (Z.to_nat (p.2 * 80 + p.1 + 1),
                              to_short (shown (grid_at g p)))).
  assert (Hpos : forall p, p ∈ ps -> 0 <= p.1 < 10 /\ 0 <= p.2 < 20)
    by (intros p Hp; apply grid_cells_list, Hp).
  destruct (writes_spec (w <$> ps) nf) as (Hl & Hin & Hout).
  { rewrite <- list_fmap_compose. apply NoDup_fmap_2_strong.
    - intros p q Hp Hq E. apply Hpos in Hp, Hq. unfold w in E. cbn in E.
      destruct p, q. cbn in *. f_equal; lia.
    - unfold ps. refine (bool_decide_unpack (NoDup _) _). vm_compute. exact I. }
  { rewrite Forall_forall. intros [i v] Hi%list_elem_of_In.
    apply list_elem_of_fmap in Hi as (p & E & Hp). apply Hpos in Hp.
    injection E as -> _. cbn. lia. }
  split; [rewrite Hl; exact Hlen |]. split; [| split; [| split]].
  - intros x y Hx Hy.
    apply (Hin (w (x, y))). apply list_elem_of_fmap. exists (x, y).
    split; [reflexivity |]. apply grid_cells_list. cbn. lia.
  - intros j Hj. apply Hout. rewrite <- list_fmap_compose.
    intros (p & E & Hp)%list_elem_of_fmap. apply Hpos in Hp. cbn in E.
    assert (Ej : Z.of_nat j = p.2 * 80 + (p.1 + 1)) by lia.
    assert (Hd : Z.of_nat j / 80 = p.2).
    { rewrite Ej, Z.div_add_l, Z.div_small by lia. lia. }
    assert (Hm : Z.of_nat j mod 80 = p.1 + 1).
    { rewrite Ej, Z.add_comm, Z.mod_add, Z.mod_small by lia. reflexivity. }
    lia.
  - reflexivity.
  - intros c Hc Hlow. apply shown_block; lia.
Qed.

Lemma redraw_grid_window_witness :
  let g := paint (Tet (4,1) (5,1) (6,1) (7,1)) 0x0700 empty_grid in
  let nf := redraw_grid g (replicate 2000 0x0F23) in
  nf !!! 85%nat = 0x0723 /\ nf !!! 84%nat = 0x0720 /\ nf !!! 80%nat = 0x0F23.
Proof.
  intros g nf.
  destruct (redraw_grid_window g (replicate 2000 0x0F23) eq_refl)
    as (_ & Hin & Hout & _).
  split; [exact (Hin 4 1 ltac:(lia) ltac:(lia)) |].
  split; [exact (Hin 3 1 ltac:(lia) ltac:(lia)) |].
  apply (Hout 80%nat). right. left. reflexivity.
Defined.

(** ** The main loop *)

(** A flashing cell is never shown as an empty one: [cycle_cell] has no
    zero result, whatever the cell held. *)
Lemma cycle_cell_nonzero v : cycle_cell v <> 0.
Proof.
  unfold cycle_cell. destruct (Z.eqb_spec (Z.land v 255) 35) as [E|E]; intros H.
  - assert (T : Z.testbit (Z.land v 255) 5 = true) by (rewrite E; reflexivity).
    assert (T0 : Z.testbit (Z.land v 65312) 5 = false) by (rewrite H; reflexivity).
    rewrite Z.land_spec in T, T0.
    change (Z.testbit 255 5) with true in T.
    change (Z.testbit 65312 5) with true in T0.
    rewrite andb_true_r in T, T0. congruence.
  - apply Z.lor_eq_0_iff in H as [_ H]. discriminate H.
Qed.

Lemma iter_cycle_cell_nonzero (n : nat) v : v <> 0 -> Nat.iter n cycle_cell v <> 0.
Proof. destruct n; cbn; [auto | intros _; apply cycle_cell_nonzero]. Qed.

(** Painting a placement that passes the collision test and clearing it
    again gives the grid back. *)
Lemma paint_clear t colour g :
  wf_grid g -> check_tetrominoe_collision t g = true ->
  paint t 0 (paint t colour g) = g.
Proof.
  intros Hwf [Hon Hfree]%check_true_iff.
  apply grid_eq; [do 2 apply paint_wf; exact Hwf | exact Hwf |].
  intros c Hc. rewrite grid_at_paint by (try apply paint_wf; assumption).
  destruct (decide (c ∈ cells t)) as [Hin|Hout].
  - rewrite Forall_forall in Hfree. symmetry. apply Hfree, list_elem_of_In, Hin.
  - rewrite grid_at_paint by assumption. rewrite decide_False by exact Hout.
    reflexivity.
Qed.

Lemma complete_rows_ext g g' :
  (forall y, 0 <= y < 20 -> row_full g y <-> row_full g' y) ->
  complete_rows g = complete_rows g'.
Proof.
  intros H. unfold complete_rows. apply filter_ext_in. intros y Hy.
  apply list_elem_of_In, elem_of_seqZ in Hy. unfold GRID_SIZE_Y in Hy.
  destruct (row_complete g y) eqn:E, (row_complete g' y) eqn:E';
    try reflexivity.
  - apply row_complete_full, H in E; [| lia].
    apply row_complete_full in E. congruence.
  - apply row_complete_full, H in E'; [| lia].
    apply row_complete_full in E'. congruence.
Qed.

Lemma filter_NoDup (f : Z -> bool) (l : list Z) :
  NoDup l -> NoDup (List.filter f l).
Proof.
  induction l as [|x l IH]; intros Hnd; cbn; [exact Hnd |].
  pose proof (NoDup_cons_1_1 _ _ Hnd) as Hx.
  apply NoDup_cons_1_2 in Hnd.
  destruct (f x); [| auto]. apply NoDup_cons_2; [| auto].
  intros Hin%list_elem_of_In%filter_In. apply Hx, list_elem_of_In. tauto.
Qed.

Lemma complete_rows_NoDup g : NoDup (complete_rows g).
Proof. apply filter_NoDup, NoDup_seqZ. Qed.

(** When a piece locks on a grid that had no complete row without it, the
    complete rows are among the rows of its four cells. *)
Lemma locked_rows t g :
  wf_grid g -> on_grid t ->
  complete_rows (paint t 0 g) = [] ->
  (length (complete_rows g) <= 4)%nat.
Proof.
  intros Hwf Hon Hnone.
  assert (Hsub : forall y, y ∈ complete_rows g -> y ∈ (cells t).*2).
  { intros y Hy. apply list_elem_of_In, complete_rows_full in Hy as [Hy Hfull].
    destruct (decide (y ∈ (cells t).*2)) as [Hin|Hout]; [exact Hin | exfalso].
    assert (Hin : In y (complete_rows (paint t 0 g))).
    { apply complete_rows_full. split; [exact Hy |]. intros x Hx.
      rewrite grid_at_paint by (try apply in_grid_iff; cbn; auto).
      rewrite decide_False; [apply Hfull, Hx |].
      intros Hc. apply Hout. apply list_elem_of_fmap. exists (x, y). auto. }
    rewrite Hnone in Hin. destruct Hin. }
  pose proof (submseteq_length _ _
                (NoDup_submseteq _ _ (complete_rows_NoDup g) Hsub)) as Hle.
  exact Hle.
Qed.

(** The scan on idle slots. *)
Lemma get_remove_lines_idle g :
  (length (complete_rows g) <= 4)%nat ->
  get_remove_lines g [-1; -1; -1; -1]
  = Some (Z.of_nat (length (complete_rows g)),
          complete_rows g ++ replicate (4 - length (complete_rows g)) (-1)).
Proof.
  intros Hle. unfold get_remove_lines.
  pose proof (scan_rows g [-1; -1; -1; -1] eq_refl (seqZ 0 GRID_SIZE_Y) [] Hle) as Hs.
  change (scanned [-1; -1; -1; -1] []) with (Some (0, [-1; -1; -1; -1])) in Hs.
  unfold scanned in Hs. cbn [app] in Hs.
  change (List.filter (row_complete g) (seqZ 0 GRID_SIZE_Y))
    with (complete_rows g) in Hs.
  rewrite Hs. do 2 f_equal.
  destruct (length (complete_rows g)) as [|[|[|[|[|n]]]]]; try reflexivity; lia.
Qed.

Lemma complete_rows_bounds g : Forall (fun r => 0 <= r < 20) (complete_rows g).
Proof.
  rewrite Forall_forall. intros r Hr. apply complete_rows_full in Hr. tauto.
Qed.

Lemma found_slots_valid (found : list Z) (m : nat) :
  Forall (fun r => 0 <= r < 20) found ->
  Forall valid_slot (found ++ replicate m (-1)).
Proof.
  intros H. apply Forall_app. split.
  - eapply Forall_impl; [| exact H]. intros r Hr. right. exact Hr.
  - rewrite Forall_forall. intros r Hr%list_elem_of_In.
    apply elem_of_replicate in Hr as [-> _]. left. reflexivity.
Qed.

(** A call that tries a candidate placement leaves the piece drawn in its
    colour, and the grid without the piece as it was. *)
Lemma candidate_taken t new g colour :
  wf_grid g -> on_grid t ->
  check_tetrominoe_collision new (paint t 0 g) = true ->
  wf_grid (paint new colour (paint t 0 g))
  /\ marked new (paint new colour (paint t 0 g)) colour
  /\ paint new 0 (paint new colour (paint t 0 g)) = paint t 0 g.
Proof.
  intros Hwf Ht E.
  pose proof (check_on_grid _ _ E) as Hnew.
  destruct (repaint_spec t new g colour Hwf Ht Hnew) as (W & M & _).
  split; [exact W |]. split; [exact M |].
  apply paint_clear; [apply paint_wf, Hwf | exact E].
Qed.

Lemma move_keeps_base t g d colour :
  wf_grid g -> -32768 <= colour <= 32767 -> marked t g colour ->
  exists moved t' g',
    move_tetrominoe t g d = Some (moved, t', g')
    /\ wf_grid g' /\ marked t' g' colour
    /\ paint t' 0 g' = paint t 0 g
    /\ ((moved = 0 /\ t' = t /\ g' = g) \/ moved = 1).
Proof.
  intros Hwf Hcol Hm.
  pose proof (marked_on_grid _ _ _ Hm) as Ht.
  pose proof (marked_cells _ _ _ Hm) as Hv.
  assert (Hc0 : grid_at g (t0 t) = colour).
  { rewrite Forall_forall in Hv. apply Hv. cbn. auto. }
  rewrite move_tetrominoe_eq by assumption. cbn zeta.
  rewrite Hc0, to_short_id by assumption.
  destruct (check_tetrominoe_collision _ _) eqn:E.
  - destruct (candidate_taken t (moved_tetrominoe t d) g colour Hwf Ht E)
      as (W & M & B).
    do 3 eexists. split; [reflexivity |]. auto.
  - rewrite paint_restore by assumption.
    do 3 eexists. split; [reflexivity |]. auto 10.
Qed.

Lemma rotate_keeps_base t g type colour :
  wf_grid g -> 0 <= type < 7 -> -32768 <= colour <= 32767 ->
  marked t g colour ->
  exists t' g',
    rotate_tetrominoe t g type = Some (t', g')
    /\ wf_grid g' /\ marked t' g' colour
    /\ paint t' 0 g' = paint t 0 g.
Proof.
  intros Hwf Hty Hcol Hm.
  pose proof (marked_on_grid _ _ _ Hm) as Ht.
  pose proof (marked_cells _ _ _ Hm) as Hv.
  assert (Hc0 : grid_at g (t0 t) = colour).
  { rewrite Forall_forall in Hv. apply Hv. cbn. auto. }
  assert (Hm' : exists m, max_ext type = Some m).
  { apply piece_types in Hty.
    destruct Hty as [->|[->|[->|[->|[->|[->| ->]]]]]]; eexists; reflexivity. }
  destruct Hm' as (m & Hmx).
  rewrite (rotate_tetrominoe_eq _ _ _ _ Hmx Ht). cbn zeta.
  rewrite Hc0, to_short_id by assumption.
  destruct (check_tetrominoe_collision _ _) eqn:E.
  - destruct (candidate_taken t (rotated m t) g colour Hwf Ht E) as (W & M & B).
    do 2 eexists. split; [reflexivity |]. auto.
  - rewrite paint_restore by assumption.
    do 2 eexists. split; [reflexivity |]. auto.
Qed.

(** [create_tetrominoe] for a piece type 0..6: the piece is set up at its
    spawn cells; it is drawn when they are free and the grid is left alone
    when they are not. *)
Lemma create_tetrominoe_run t g piece :
  wf_grid g -> 0 <= piece < 7 ->
  let new := setup_tetrominoe t piece 4 in
  (check_tetrominoe_collision new g = true
   /\ exists colour,
        block_colours !! Z.to_nat piece = Some colour
        /\ -32768 <= colour <= 32767
        /\ create_tetrominoe t g block_colours piece
           = Some (1, new, paint new colour g)
        /\ marked new (paint new colour g) colour)
  \/ (check_tetrominoe_collision new g = false
      /\ create_tetrominoe t g block_colours piece = Some (0, new, g)).
Proof.
  intros Hwf Hp new.
  pose proof (spawn_on_grid t piece Hp) as Hon. fold new in Hon.
  unfold create_tetrominoe. fold new.
  destruct (check_tetrominoe_collision new g) eqn:E; [left | right; auto].
  split; [reflexivity |].
  destruct (block_colour_lookup piece Hp) as (colour & Hc & _ & Hs & _).
  exists colour. split; [exact Hc |]. split; [exact Hs |].
  destruct (Z.leb_spec 0 piece); [| lia]. destruct (Z.ltb_spec piece 7); [| lia].
  cbn [andb]. rewrite Hc. cbn [mbind option_bind].
  rewrite set_cells_paint by assumption. split; [reflexivity |].
  unfold marked. rewrite Forall_forall. intros c Hin.
  assert (Hcg : in_grid c = true).
  { unfold on_grid in Hon. rewrite Forall_forall in Hon. auto. }
  split; [exact Hcg |]. rewrite grid_at_paint by assumption.
  rewrite decide_True; [reflexivity | apply list_elem_of_In, Hin].
Qed.

(** The flash on slots that hold the complete rows: it is defined and the
    complete rows stay the complete rows. *)
Lemma cycle_remove_lines_valid g slots :
  wf_grid g -> length slots = 4%nat ->
  pending slots = complete_rows g ->
  exists g',
    cycle_remove_lines g slots = Some g'
    /\ wf_grid g' /\ complete_rows g' = complete_rows g.
Proof.
  intros Hwf Hlen Hp.
  assert (Hb : Forall (fun r => 0 <= r < 20) (pending slots))
    by (rewrite Hp; apply complete_rows_bounds).
  destruct (cycle_rows_spec (pending slots) g Hwf Hb) as (g' & E & Hwf' & Hat).
  exists g'. split; [| split; [exact Hwf' |]].
  - do 4 (destruct slots as [|? slots]; [discriminate Hlen |]).
    destruct slots; [| discriminate Hlen].
    rewrite <- E, <- cycle_slots. reflexivity.
  - apply complete_rows_ext. intros y Hy. split; intros Hfull.
    + destruct (in_dec Z.eq_dec y (pending slots)) as [Hin|Hout].
      * rewrite Hp in Hin. apply complete_rows_full in Hin. tauto.
      * intros x Hx. specialize (Hfull x Hx).
        rewrite Hat in Hfull by (apply in_grid_iff; cbn; lia).
        apply (count_occ_not_In Z.eq_dec) in Hout. cbn [snd] in Hfull.
        rewrite Hout in Hfull. exact Hfull.
    + intros x Hx. rewrite Hat by (apply in_grid_iff; cbn; lia).
      apply iter_cycle_cell_nonzero, Hfull, Hx.
Qed.

(** Removing the complete rows leaves none. *)
Lemma removals_complete g :
  wf_grid g ->
  complete_rows (foldl code_remove_line g (complete_rows g)) = [].
Proof.
  intros Hwf. apply no_complete_rows.
  apply removals_leave_none.
  - exact Hwf.
  - apply complete_rows_ascending.
  - apply complete_rows_bounds.
  - intros y Hy Hf. apply complete_rows_full. auto.
Qed.

Lemma set_numbers_display_defined pos_x pos_y value nf :
  length nf = 2000%nat ->
  0 <= pos_y * 80 + pos_x ->
  pos_y * 80 + pos_x + 8 <= 2000 ->
  0 <= value <= 99999999 ->
  exists nf',
    set_numbers_display pos_x pos_y numbers value nf = Some nf'
    /\ length nf' = 2000%nat.
Proof.
  intros Hlen Hlo Hhi Hv. set (base := pos_y * 80 + pos_x) in *.
  destruct (blanks_spec base nf Hlen Hlo Hhi) as (nf1 & E1 & Hl1 & _).
  assert (Hds : exists lsd,
            (if value =? 0 then Some [0] else collect_digits 8 value [])
            = Some lsd
            /\ (length lsd <= 8)%nat
            /\ Forall (fun d => 0 <= d <= 9) lsd).
  { destruct (Z.eqb_spec value 0) as [->|Hnz].
    - exists [0]. split; [reflexivity |]. split; [cbn; lia |].
      repeat constructor; lia.
    - destruct (collect_digits_spec 8 value [] ltac:(cbn; lia))
        as (new & E & Hl & Hd & _).
      exists new. cbn [app] in E. auto. }
  destruct Hds as (lsd & Elsd & Hlsd & Hd).
  assert (Hrd : Forall (fun d => 0 <= d <= 9) (reverse lsd)).
  { rewrite Forall_forall in *. intros d Hin. apply Hd.
    apply list_elem_of_In. apply list_elem_of_In in Hin.
    rewrite elem_of_reverse in Hin. exact Hin. }
  destruct (put_digits_spec pos_x pos_y (reverse lsd) nf1 0 Hl1 Hrd)
    as (nf' & E2 & Hl2 & _);
    [fold base; lia | fold base; rewrite length_reverse; lia |].
  exists nf'. split; [| exact Hl2].
  unfold set_numbers_display. fold base. rewrite E1.
  cbn [mbind option_bind]. rewrite Elsd. cbn [mbind option_bind].
  rewrite E2. reflexivity.
Qed.

Lemma foldl_length {A B : Type} (step : list A -> B -> list A) :
  (forall l y, length (step l y) = length l) ->
  forall ys l, length (foldl step l ys) = length l.
Proof.
  intros H. induction ys as [|y ys IH]; intros l; cbn; [reflexivity |].
  rewrite IH. apply H.
Qed.

Lemma redraw_length g ng nf :
  length (redraw_next_grid ng (redraw_grid g nf)) = length nf.
Proof.
  unfold redraw_next_grid, redraw_grid.
  rewrite foldl_length.
  - apply foldl_length. intros l x. apply foldl_length.
    intros l' y. apply length_insert.
  - intros l x. apply foldl_length. intros l' y. apply length_insert.
Qed.

(** After a flush the shown buffer is the desired one. *)
Lemma draw_next_frame_sync v :
  video_ok v ->
  curr_frame (draw_next_frame v) = next_frame v
  /\ next_frame (draw_next_frame v) = next_frame v.
Proof.
  intros [Hc Hn].
  destruct (draw_pass_spec _ v Hc Hn) as (_ & _ & H1 & H2).
  split; [exact H1 | exact H2].
Qed.

Lemma panel_bounds p :
  panel_ok p ->
  0 <= lines p <= 99999999 /\ 0 <= score p <= 99999999
  /\ 0 <= level p <= 99999999.
Proof.
  intros (Hl & Hs & Hlv & _).
  pose proof (Z.div_pos (lines p) 10 ltac:(lia) ltac:(lia)). lia.
Qed.

Lemma create_next_tetrominoe_defined t g piece :
  length g = 16%nat -> 0 <= piece < 7 ->
  exists t' g',
    create_next_tetrominoe t g block_colours piece = Some (t', g')
    /\ length g' = 16%nat.
Proof.
  intros Hlen Hp. unfold create_next_tetrominoe.
  rewrite next_grid_cleared by assumption.
  apply piece_types in Hp.
  destruct Hp as [->|[->|[->|[->|[->|[->| ->]]]]]];
    (eexists; eexists; split; reflexivity).
Qed.

Lemma print_string_from_defined (str : list Z) (colour row col : Z) :
  forall i vga,
  0 <= row * 80 + col + i ->
  row * 80 + col + i + Z.of_nat (length str) <= 2000 ->
  exists vga', print_string_from i str colour row col vga = Some vga'.
Proof.
  induction str as [|ch str IH]; intros i vga Hlo Hhi; cbn [print_string_from].
  - eauto.
  - destruct (ch =? 0); [eauto |]. cbn [length] in Hhi.
    destruct (Z.leb_spec 0 (row * 80 + col + i)); [| lia].
    destruct (Z.ltb_spec (row * 80 + col + i) 2000); [| lia].
    cbn [andb]. apply IH; lia.
Qed.

Lemma print_string_defined (str : list Z) (colour row col : Z) vga :
  0 <= row * 80 + col ->
  row * 80 + col + Z.of_nat (length str) <= 2000 ->
  exists vga', print_string str colour row col vga = Some vga'.
Proof.
  intros Hlo Hhi. apply print_string_from_defined; lia.
Qed.

#[local] Arguments create_tetrominoe : simpl never.
#[local] Arguments create_next_tetrominoe : simpl never.
#[local] Arguments move_tetrominoe : simpl never.
#[local] Arguments rotate_tetrominoe : simpl never.
#[local] Arguments get_remove_lines : simpl never.
#[local] Arguments cycle_remove_lines : simpl never.
#[local] Arguments row_remove : simpl never.
#[local] Arguments set_numbers_display : simpl never.
#[local] Arguments print_string : simpl never.
#[local] Arguments to_uint64 : simpl never.
#[local] Arguments int32 : simpl never.
#[local] Arguments complete_rows : simpl never.
#[local] Arguments pending : simpl never.
#[local] Arguments Z.rem : simpl never.

Lemma states_differ :
  STATE_CREATE_PIECE = 0 /\ STATE_DESCEND = 1 /\ STATE_ROW_FLASH = 2
  /\ STATE_ROW_REMOVE = 3 /\ STATE_GAME_OVER = 4 /\ STATE_PAUSED = 5.
Proof. repeat split. Qed.

(** Decide the tests of a [switch (state)] once the state is known. *)
Ltac pick_state H :=
  rewrite ?H;
  repeat match goal with
         | |- context [Z.eqb ?a ?b] =>
             first [ change (Z.eqb a b) with true
                   | change (Z.eqb a b) with false ];
             cbv iota
         end.

Lemma pick_next_ok ticks_count s :
  session_ok s ->
  (next s = -1 -> 0 <= rand ticks_count) ->
  exists s',
    pick_next ticks_count s = Some s'
    /\ session_ok s' /\ 0 <= next s' < 7
    /\ play s' = play s /\ held s' = held s /\ falling s' = falling s
    /\ current s' = current s /\ last_move s' = last_move s
    /\ key_pressed s' = key_pressed s /\ down_pressed s' = down_pressed s
    /\ flash_lines_count s' = flash_lines_count s.
Proof.
  intros Hok Hr. unfold pick_next.
  destruct (Z.eqb_spec (next s) (-1)) as [E|N].
  - specialize (Hr E).
    assert (Hn : 0 <= Z.rem (rand ticks_count) 7 < 7)
      by (apply Z.rem_bound_pos; lia).
    destruct Hok as (Hwf & Hng & Hpanel & _ & Hst).
    destruct (create_next_tetrominoe_defined (next_tetrominoe s) (next_grid s)
                _ Hng Hn) as (nt & ng & Ec & Hl).
    rewrite Ec. cbn [mbind option_bind].
    eexists. split; [reflexivity |]. cbn.
    split; [| repeat split; lia].
    split; [exact Hwf |]. split; [exact Hl |]. split; [exact Hpanel |].
    split; [right; exact Hn |]. exact Hst.
  - exists s. split; [reflexivity |]. split; [exact Hok |].
    destruct Hok as (_ & _ & _ & Hnext & _).
    split; [lia |]. repeat split.
Qed.

(** In the states with a falling piece the invariant is [piece_ok]. *)
Lemma session_piece s :
  session_ok s ->
  state (play s) = STATE_DESCEND \/ state (play s) = STATE_PAUSED ->
  piece_ok s.
Proof.
  intros (_ & _ & _ & _ & Hst) Hs.
  destruct states_differ as (S0 & S1 & S2 & S3 & S4 & S5).
  destruct Hst as [[_ Hp] | [(E & _) | [(E & _) | [(E & _) | E]]]];
    [exact Hp | exfalso; lia ..].
Qed.

Lemma session_with_piece s s' :
  session_ok s ->
  wf_grid (grid (play s')) ->
  next_grid s' = next_grid s ->
  next s' = -1 \/ 0 <= next s' < 7 ->
  lines (play s') = lines (play s) -> level (play s') = level (play s) ->
  score (play s') = score (play s) ->
  fall_delay (play s') = fall_delay (play s) ->
  state (play s') = STATE_DESCEND \/ state (play s') = STATE_PAUSED ->
  piece_ok s' ->
  session_ok s'.
Proof.
  intros (_ & Hng & Hpanel & _) Hwf Eng Hnext El Elv Es Ef Hs Hp.
  split; [exact Hwf |]. split; [congruence |].
  split; [unfold panel_ok in *; rewrite El, Elv, Es, Ef; exact Hpanel |].
  split; [exact Hnext |]. left. auto.
Qed.

Lemma input_ok s vga :
  session_ok s ->
  exists s' vga',
    input s vga = Some (s', vga')
    /\ session_ok s' /\ next s' = next s /\ held s' = held s
    /\ last_move s' = last_move s.
Proof.
  intros Hok. unfold input. cbv zeta.
  set (kp := if (left (held s) =? 0) && (right (held s) =? 0)
                 && (up (held s) =? 0) && (down (held s) =? 0)
                 && (pause (held s) =? 0)
              then 0 else key_pressed s).
  set (dp := if down (held s) =? 0 then 0 else down_pressed s).
  destruct (Z.eqb_spec (state (play s)) STATE_DESCEND) as [Hs|Hs];
    cbn [andb].
  - destruct ((kp =? 0) && _) eqn:Hc.
    + pose proof (session_piece s Hok (or_introl Hs))
        as (Hcur & (colour & Hcol & Hm) & Hbase & Hidle & Hfl).
      pose proof Hok as (Hwf & _ & _ & Hnext & _).
      assert (HA : exists t1 g1,
                (if negb (left (held s) =? 0)
                 then '(_, t, g) ← move_tetrominoe (falling s) (grid (play s)) MOVE_LEFT;
                      Some (t, g)
                 else Some (falling s, grid (play s))) = Some (t1, g1)
                /\ wf_grid g1 /\ marked t1 g1 colour
                /\ paint t1 0 g1 = paint (falling s) 0 (grid (play s))).
      { destruct (negb (left (held s) =? 0)).
        - destruct (move_keeps_base _ _ MOVE_LEFT colour Hwf Hcol Hm)
            as (mv & t1 & g1 & E & W & M & B & _).
          rewrite E. exists t1, g1. auto.
        - exists (falling s), (grid (play s)). auto. }
      destruct HA as (t1 & g1 & -> & Hwf1 & Hm1 & Hb1).
      cbn [mbind option_bind].
      assert (HB : exists t2 g2,
                (if negb (right (held s) =? 0)
                 then '(_, t, g) ← move_tetrominoe t1 g1 MOVE_RIGHT; Some (t, g)
                 else Some (t1, g1)) = Some (t2, g2)
                /\ wf_grid g2 /\ marked t2 g2 colour
                /\ paint t2 0 g2 = paint t1 0 g1).
      { destruct (negb (right (held s) =? 0)).
        - destruct (move_keeps_base _ _ MOVE_RIGHT colour Hwf1 Hcol Hm1)
            as (mv & t2 & g2 & E & W & M & B & _).
          rewrite E. exists t2, g2. auto.
        - exists t1, g1. auto. }
      destruct HB as (t2 & g2 & -> & Hwf2 & Hm2 & Hb2).
      cbn [mbind option_bind].
      assert (HC : exists t3 g3,
                (if negb (up (held s) =? 0)
                 then rotate_tetrominoe t2 g2 (current s)
                 else Some (t2, g2)) = Some (t3, g3)
                /\ wf_grid g3 /\ marked t3 g3 colour
                /\ paint t3 0 g3 = paint t2 0 g2).
      { destruct (negb (up (held s) =? 0)).
        - destruct (rotate_keeps_base _ _ (current s) colour Hwf2 Hcur Hcol Hm2)
            as (t3 & g3 & E & W & M & B).
          rewrite E. exists t3, g3. auto.
        - exists t2, g2. auto. }
      destruct HC as (t3 & g3 & -> & Hwf3 & Hm3 & Hb3).
      cbn [mbind option_bind].
      eexists. eexists. split; [reflexivity |]. cbn.
      split; [| auto].
      apply (session_with_piece s); cbn; try reflexivity; try assumption.
      * destruct (negb (pause (held s) =? 0)); auto.
      * unfold piece_ok. cbn.
        split; [exact Hcur |]. split; [eauto |].
        split; [congruence |]. auto.
    + destruct (Z.eqb_spec (state (play s)) STATE_PAUSED) as [Hp|_].
      { destruct states_differ as (_ & S1 & _ & _ & _ & S5). lia. }
      cbn [andb]. eexists. eexists. split; [reflexivity |]. cbn.
      split; [exact Hok | auto].
  - destruct (Z.eqb_spec (state (play s)) STATE_PAUSED) as [Hp|Hp]; cbn [andb].
    + destruct ((kp =? 0) && _) eqn:Hc.
      * destruct (print_string_defined (replicate 6 (chr " ")) 0x0200 11
                    (GRID_SIZE_X + 6) vga) as (vga' & E);
          [unfold GRID_SIZE_X; lia | unfold GRID_SIZE_X; cbn; lia |].
        rewrite E. cbn [mbind option_bind].
        eexists. eexists. split; [reflexivity |]. cbn.
        split; [| auto].
        pose proof (session_piece s Hok (or_intror Hp)) as Hpc.
        pose proof Hok as (Hwf & _ & _ & Hnext & _).
        apply (session_with_piece s); cbn; try reflexivity; try assumption.
        left. reflexivity.
      * eexists. eexists. split; [reflexivity |]. cbn.
        split; [exact Hok | auto].
    + eexists. eexists. split; [reflexivity |]. cbn.
      split; [exact Hok | auto].
Qed.

(** The cases of [step_shape] for the states the session is not in. *)
Ltac other_states :=
  let Hx := fresh in
  intros Hx; exfalso;
  destruct states_differ as (? & ? & ? & ? & ? & ?);
  first [lia | destruct Hx; lia].

Ltac shape :=
  unfold step_shape; cbn;
  (split; [| split; [| split; [| split]]]); try other_states; intros _.

Lemma state_step_ok now s v :
  session_ok s -> 0 <= next s < 7 -> video_ok v ->
  exists s' v',
    state_step now s v = Some (s', v')
    /\ session_ok s' /\ video_ok v'
    /\ held s' = held s /\ curr_frame v' = curr_frame v
    /\ step_shape s s'.
Proof.
  intros Hok Hn Hv. pose proof Hok as (Hwf & Hng & Hpanel & Hnext & Hst).
  unfold state_step. cbv zeta.
  destruct Hst as [[Hs Hp] | [(Hs & Hnone & Hidle & Hfl)
                  | [(Hs & Hr) | [(Hs & Hr & Hfl) | Hs]]]].
  - (* a piece is falling, or the game is paused *)
    destruct Hs as [Hs|Hs]; pick_state Hs.
    + destruct (_ >? _).
      2: { exists s, v. do 5 (split; [auto |]). shape. left. exact Hs. }
      pose proof Hp as (Hcur & (colour & Hcol & Hm) & Hbase & Hidle & Hfl).
      destruct (move_keeps_base _ _ MOVE_DOWN colour Hwf Hcol Hm)
        as (mv & t' & g' & E & W & M & B & Hmv).
      rewrite E. cbn [mbind option_bind].
      destruct Hmv as [(-> & -> & ->) | ->].
      * change (0 =? 0) with true. cbv iota.
        pose proof (locked_rows _ _ Hwf (marked_on_grid _ _ _ Hm) Hbase) as Hle.
        red in Hidle. rewrite Hidle, (get_remove_lines_idle _ Hle).
        cbn [mbind option_bind].
        set (found := complete_rows (grid (play s))) in *.
        assert (Hlen' : length (found ++ replicate (4 - length found) (-1)) = 4%nat)
          by (rewrite length_app, length_replicate; lia).
        assert (Hvalid' : Forall valid_slot (found ++ replicate (4 - length found) (-1)))
          by (apply found_slots_valid, complete_rows_bounds).
        assert (Hpend' : pending (found ++ replicate (4 - length found) (-1)) = found)
          by (apply pending_found, complete_rows_bounds).
        assert (Hnil : found = [] ->
                  found ++ replicate (4 - length found) (-1) = [-1; -1; -1; -1])
          by (intros ->; reflexivity).
        set (slots := found ++ replicate (4 - length found) (-1)) in *.
        destruct (Z.gtb_spec (Z.of_nat (length found)) 0) as [Hpos|Hzero].
        -- eexists. eexists. split; [reflexivity |]. cbn.
           split; [| do 3 (split; [auto |])].
           ++ split; [exact Hwf |]. split; [exact Hng |]. split; [exact Hpanel |].
              split; [exact Hnext |]. right. right. left.
              split; [reflexivity |]. unfold rows_ok. cbn.
              split; [exact Hlen' |]. split; [exact Hvalid' |].
              split; [exact Hpend' | lia].
           ++ shape. right. split; [reflexivity |]. split; [reflexivity |].
              left. split; [reflexivity |]. intros E0. fold found in E0.
              rewrite E0 in Hpos. cbn in Hpos. lia.
        -- assert (Hnone : found = []) by (apply nil_length_inv; lia).
           eexists. eexists. split; [reflexivity |]. cbn.
           split; [| do 3 (split; [auto |])].
           ++ split; [exact Hwf |]. split; [exact Hng |]. split; [exact Hpanel |].
              split; [exact Hnext |]. right. left.
              split; [reflexivity |]. split; [exact Hnone |].
              split; [exact (Hnil Hnone) | exact Hfl].
           ++ shape. right. split; [reflexivity |]. split; [reflexivity |].
              right. split; [reflexivity | exact Hnone].
      * change (1 =? 0) with false. cbv iota. cbn [mbind option_bind].
        eexists. eexists. split; [reflexivity |]. cbn.
        split; [| do 3 (split; [auto |])].
        -- apply (session_with_piece s); cbn; try reflexivity; try assumption.
           ++ left. reflexivity.
           ++ unfold piece_ok. cbn. split; [exact Hcur |]. split; [eauto |].
              split; [congruence |]. auto.
        -- shape. left. reflexivity.
    + destruct (print_string_defined
                  [chr "P"; chr "A"; chr "U"; chr "S"; chr "E"; chr "D"]
                  0x0200 11 (GRID_SIZE_X + 6) (VGA v)) as (vga' & E);
        [unfold GRID_SIZE_X; lia | unfold GRID_SIZE_X; cbn; lia |].
      rewrite E. cbn [mbind option_bind].
      eexists. eexists. split; [reflexivity |]. do 4 (split; [auto |]).
      shape. reflexivity.
  - (* a piece is created *)
    pick_state Hs.
    destruct (create_tetrominoe_run (falling s) (grid (play s)) (next s) Hwf Hn)
      as [(Hck & colour & _ & Hcol & E & M) | (Hck & E)]; rewrite E;
      cbn [mbind option_bind].
    + change (negb (1 =? 0)) with true. cbv iota.
      eexists. eexists. split; [reflexivity |]. cbn.
      split; [| do 3 (split; [auto |])].
      * apply (session_with_piece s); cbn; try reflexivity; try assumption.
        -- apply paint_wf, Hwf.
        -- left. reflexivity.
        -- left. reflexivity.
        -- unfold piece_ok. cbn. split; [exact Hn |]. split; [eauto |].
           rewrite paint_clear by assumption. auto.
      * shape. left. repeat split.
    + change (negb (0 =? 0)) with false. cbv iota.
      eexists. eexists. split; [reflexivity |]. cbn.
      split; [| do 3 (split; [auto |])].
      * split; [exact Hwf |]. split; [exact Hng |]. split; [exact Hpanel |].
        split; [exact Hnext |]. do 4 right. reflexivity.
      * shape. right. split; reflexivity.
  - (* rows flash *)
    pick_state Hs.
    destruct (_ >? _).
    2: { exists s, v. do 5 (split; [auto |]). shape.
         left. split; [exact Hs | left; reflexivity]. }
    destruct Hr as (Hlen & Hvalid & Hpend & Hcount).
    destruct (Z.ltb_spec (flash_lines_count s) 4) as [Hlt|Hge].
    + destruct (cycle_remove_lines_valid _ _ Hwf Hlen Hpend)
        as (g' & E & Hwf' & Hrows).
      rewrite E. cbn [mbind option_bind].
      eexists. eexists. split; [reflexivity |]. cbn.
      split; [| do 3 (split; [auto |])].
      * split; [exact Hwf' |]. split; [exact Hng |]. split; [exact Hpanel |].
        split; [exact Hnext |]. right. right. left.
        split; [exact Hs |]. unfold rows_ok. cbn.
        rewrite int32_id by lia. rewrite Hrows.
        split; [exact Hlen |]. split; [exact Hvalid |]. split; [exact Hpend | lia].
      * shape. left. split; [exact Hs |]. right. apply int32_id. lia.
    + eexists. eexists. split; [reflexivity |]. cbn.
      split; [| do 3 (split; [auto |])].
      * split; [exact Hwf |]. split; [exact Hng |]. split; [exact Hpanel |].
        split; [exact Hnext |]. do 3 right. left.
        split; [reflexivity |]. unfold rows_ok. cbn.
        split; [| reflexivity].
        split; [exact Hlen |]. split; [exact Hvalid |]. split; [exact Hpend | lia].
      * shape. right. split; [reflexivity |]. split; [lia |]. split; reflexivity.
  - (* rows are removed *)
    pick_state Hs.
    destruct Hr as (Hlen & Hvalid & Hpend & Hcount).
    destruct Hpanel as (Hl & Hsc & Hlv & Hfd).
    destruct (row_remove_run (play s) Hwf Hlen Hvalid Hfd Hlv Hl Hsc)
      as (p' & E & Hpanel' & _ & _ & _ & _ & Hwf' & Hslots & Hs' & Hg').
    rewrite E. cbn [mbind option_bind].
    destruct (panel_bounds _ Hpanel') as (Bl & Bs & Blv).
    destruct Hv as [Hvc Hvn].
    destruct (set_numbers_display_defined (GRID_SIZE_X + 13) 7 (lines p')
                (next_frame v) Hvn) as (nf1 & E1 & L1);
      [unfold GRID_SIZE_X; lia | unfold GRID_SIZE_X; lia | lia |].
    rewrite E1. cbn [mbind option_bind].
    destruct (set_numbers_display_defined (GRID_SIZE_X + 13) 9 (score p')
                nf1 L1) as (nf2 & E2 & L2);
      [unfold GRID_SIZE_X; lia | unfold GRID_SIZE_X; lia | lia |].
    rewrite E2. cbn [mbind option_bind].
    assert (H3 : exists nf3,
              (if negb (level (play s) =? 9)
                  && (lines p' >=? int32 (int32 (level (play s) * 10) + 10))
               then set_numbers_display (GRID_SIZE_X + 13) 8 numbers (level p') nf2
               else Some nf2) = Some nf3
              /\ length nf3 = 2000%nat).
    { destruct (_ && _); [| eauto].
      apply set_numbers_display_defined;
        [exact L2 | unfold GRID_SIZE_X; lia | unfold GRID_SIZE_X; lia | lia]. }
    destruct H3 as (nf3 & -> & L3). cbn [mbind option_bind].
    assert (Hrows : complete_rows (grid p') = []).
    { rewrite Hg', Hpend. apply removals_complete, Hwf. }
    eexists. eexists. split; [reflexivity |]. cbn.
    split; [| split; [split; assumption | do 2 (split; [auto |])]].
    + split; [exact Hwf' |]. split; [exact Hng |]. split; [exact Hpanel' |].
      split; [exact Hnext |]. right. left.
      split; [exact Hs' |]. split; [exact Hrows |]. split; [exact Hslots | exact Hfl].
    + shape. split; [exact Hs' |]. split; [exact Hrows | exact Hslots].
  - (* the game is over *)
    pick_state Hs.
    destruct (print_string_defined
                [chr "G"; chr "A"; chr "M"; chr "E"; chr " ";
                 chr "O"; chr "V"; chr "E"; chr "R"]
                0x0400 12 (GRID_SIZE_X + 6) (VGA v)) as (vga' & E);
      [unfold GRID_SIZE_X; lia | unfold GRID_SIZE_X; cbn; lia |].
    rewrite E. cbn [mbind option_bind].
    eexists. eexists. split; [reflexivity |]. do 4 (split; [auto |]).
    shape. reflexivity.
Qed.

#[local] Arguments draw_next_frame : simpl never.
#[local] Arguments redraw_grid : simpl never.
#[local] Arguments redraw_next_grid : simpl never.
#[local] Arguments read_keyb : simpl never.
#[local] Arguments key_switch : simpl never.

Lemma tetris_pass_ok ticks_rand now k s v :
  session_ok s -> video_ok v ->
  (next s = -1 -> 0 <= rand ticks_rand) ->
  if restart (read_keyb k)
  then tetris_pass ticks_rand now k s v = Some (Returned (read_keyb k))
  else exists s' v',
         tetris_pass ticks_rand now k s v = Some (Running s' (read_keyb k) v')
         /\ session_ok s' /\ video_ok v'
         /\ curr_frame v' = next_frame v'
         /\ held s' = key_switch (read_keyb k) (held s).
Proof.
  intros Hok Hv Hr. unfold tetris_pass. cbv zeta.
  destruct (restart (read_keyb k)); [reflexivity |].
  set (s0 := {| play := play s; held := key_switch (read_keyb k) (held s);
                key_pressed := key_pressed s; down_pressed := down_pressed s;
                flash_lines_count := flash_lines_count s;
                next_grid := next_grid s; falling := falling s;
                next_tetrominoe := next_tetrominoe s;
                current := current s; next := next s;
                last_move := last_move s |}).
  assert (Hok0 : session_ok s0) by exact Hok.
  destruct (pick_next_ok ticks_rand s0 Hok0 Hr)
    as (s1 & E1 & Hok1 & Hn1 & _ & Hh1 & _).
  rewrite E1. cbn [mbind option_bind].
  destruct (input_ok s1 (VGA v) Hok1) as (s2 & vga & E2 & Hok2 & Hn2 & Hh2 & _).
  rewrite E2. cbn [mbind option_bind].
  destruct Hv as [Hvc Hvn].
  destruct (state_step_ok now s2
              {| curr_frame := curr_frame v; next_frame := next_frame v;
                 VGA := vga |} Hok2 ltac:(lia) ltac:(split; assumption))
    as (s3 & v3 & E3 & Hok3 & [Hc3 Hn3] & Hh3 & _ & _).
  rewrite E3. cbn [mbind option_bind].
  assert (Hh3' : held s3 = key_switch (read_keyb k) (held s))
    by (rewrite Hh3, Hh2, Hh1; reflexivity).
  eexists. eexists. split; [reflexivity |].
  split; [exact Hok3 |].
  set (nf := redraw_next_grid (next_grid s3)
               (redraw_grid (grid (play s3)) (next_frame v3))).
  assert (Hnf : length nf = 2000%nat)
    by (unfold nf; rewrite redraw_length; exact Hn3).
  destruct (draw_next_frame_sync
              {| curr_frame := curr_frame v3; next_frame := nf; VGA := VGA v3 |}
              (conj Hc3 Hnf)) as [Ec En].
  cbn [curr_frame next_frame VGA] in Ec, En.
  split; [| split; [rewrite Ec, En; reflexivity | exact Hh3']].
  split; [rewrite Ec | rewrite En]; exact Hnf.
Qed.

Section Clearing.

Lemma clear_cells (cs : list cell) : forall g,
  wf_grid g -> Forall (fun c => in_grid c = true) cs ->
  let g' := foldl (fun g c => <[ idx c := 0 ]> g) g cs in
  wf_grid g'
  /\ forall c, in_grid c = true -> c ∈ cs -> grid_at g' c = 0.
Proof.
  induction cs as [|c0 cs IH] using rev_ind; intros g Hwf Hcs; cbn zeta.
  - split; [exact Hwf |]. intros c _ H. inversion H.
  - apply Forall_app in Hcs as [Hcs Hc0]. apply Forall_cons_iff in Hc0 as [Hc0 _].
    destruct (IH g Hwf Hcs) as [Hwf' Hat]. rewrite foldl_app. cbn [foldl].
    split; [apply insert_wf, Hwf' |]. intros c Hc Hin.
    rewrite grid_at_insert by assumption.
    destruct (decide (c0 = c)) as [_|Hne]; [reflexivity |].
    apply Hat; [exact Hc |].
    apply elem_of_app in Hin as [Hin|Hin]; [exact Hin |].
    apply list_elem_of_singleton in Hin. congruence.
Qed.

Lemma clear_grid_empty g : wf_grid g -> clear_grid g = empty_grid.
Proof.
  intros Hwf. unfold clear_grid.
  rewrite (foldl_nested (fun g x y => <[ idx (x, y) := 0 ]> g)).
  set (cs := seqZ 0 GRID_SIZE_X ≫= _).
  assert (Hcs : Forall (fun c => in_grid c = true) cs).
  { rewrite Forall_forall. intros c Hc%list_elem_of_In.
    apply grid_cells_list in Hc. apply in_grid_iff. exact Hc. }
  assert (E : foldl (fun g (p : Z * Z) => <[ idx (p.1, p.2) := 0 ]> g) g cs
              = foldl (fun g c => <[ idx c := 0 ]> g) g cs).
    by reflexivity.
  rewrite E. destruct (clear_cells cs g Hwf Hcs) as [Hwf' Hat].
  apply grid_eq; [exact Hwf' | reflexivity |].
  intros c Hc. rewrite Hat; [| exact Hc |].
  - unfold grid_at, empty_grid. symmetry. apply lookup_total_replicate_2.
    apply idx_lt, Hc.
  - apply grid_cells_list, in_grid_iff, Hc.
Qed.

End Clearing.

Lemma empty_grid_free t :
  on_grid t -> check_tetrominoe_collision t empty_grid = true.
Proof.
  intros Hon. apply check_true_iff. split; [exact Hon |].
  rewrite Forall_forall. intros c Hc.
  unfold grid_at, empty_grid. apply lookup_total_replicate_2.
  apply idx_lt. unfold on_grid in Hon. rewrite Forall_forall in Hon. auto.
Qed.

Lemma tetris_start_ok ticks_count g ng t nt lm :
  wf_grid g -> length ng = 16%nat -> 0 <= rand ticks_count ->
  exists s,
    tetris_start ticks_count g ng t nt lm = Some s
    /\ session_ok s
    /\ state (play s) = STATE_DESCEND
    /\ grid (play s) = paint (falling s) (block_colours !!! Z.to_nat (current s)) empty_grid
    /\ falling s = setup_tetrominoe t (current s) 4
    /\ current s = Z.rem (rand ticks_count) 7
    /\ lines (play s) = 0 /\ score (play s) = 0 /\ level (play s) = 0
    /\ quit (held s) = 0.
Proof.
  intros Hwf Hng Hr. unfold tetris_start. cbv zeta.
  rewrite clear_grid_empty by exact Hwf.
  assert (Hn : 0 <= Z.rem (rand ticks_count) 7 < 7)
    by (apply Z.rem_bound_pos; lia).
  set (n := Z.rem (rand ticks_count) 7) in *.
  unfold clear_next_grid. rewrite next_grid_cleared by exact Hng.
  destruct (create_tetrominoe_run t empty_grid n eq_refl Hn)
    as [(Hck & colour & Hlk & Hcol & E & M) | (Hck & E)].
  - assert (Hc : block_colours !!! Z.to_nat n = colour)
      by (apply list_lookup_total_correct, Hlk).
    rewrite E. cbn [mbind option_bind].
    eexists. split; [reflexivity |]. cbn. rewrite Hc.
    split; [| repeat split].
    split; [apply paint_wf; reflexivity |]. split; [reflexivity |].
    split; [repeat split; cbn; lia |]. split; [left; reflexivity |].
    left. split; [left; reflexivity |].
    unfold piece_ok. cbn. split; [exact Hn |]. split; [eauto |].
    rewrite paint_clear by (try reflexivity; assumption).
    repeat split.
  - rewrite empty_grid_free in Hck by (apply spawn_on_grid, Hn). discriminate Hck.
Qed.

Lemma tetris_passes_ok (inputs : list (Z * Z * Z)) : forall k s v,
  session_ok s -> video_ok v ->
  Forall (fun i => 0 <= rand i.1.2) inputs ->
  exists r,
    tetris_passes inputs k s v = Some r
    /\ match r with
       | Running s' _ v' => session_ok s' /\ video_ok v'
       | Returned _ => True
       end.
Proof.
  induction inputs as [|[[byte ticks_rand] now] inputs IH];
    intros k s v Hok Hv Hin; cbn [tetris_passes].
  - eexists. split; [reflexivity | split; assumption].
  - apply Forall_cons_iff in Hin as [Hr Hin]. cbn in Hr.
    destruct (quit (held s) =? 0);
      [| eexists; split; [reflexivity | split; assumption]].
    pose proof (tetris_pass_ok ticks_rand now
                  {| scancode := byte; keyb_char := keyb_char k;
                     keyb_pressed := keyb_pressed k |} s v Hok Hv
                  (fun _ => Hr)) as Hp.
    destruct (restart _).
    + rewrite Hp. cbn [mbind option_bind].
      eexists. split; [reflexivity | exact I].
    + destruct Hp as (s' & v' & -> & Hok' & Hv' & _).
      cbn [mbind option_bind]. apply IH; assumption.
Qed.

(** Outside the states with a falling piece the keys move nothing. *)
Lemma input_frozen s vga :
  state (play s) <> STATE_DESCEND -> state (play s) <> STATE_PAUSED ->
  exists s',
    input s vga = Some (s', vga)
    /\ play s' = play s /\ falling s' = falling s /\ held s' = held s
    /\ next s' = next s /\ next_grid s' = next_grid s
    /\ flash_lines_count s' = flash_lines_count s.
Proof.
  intros Hd Hp. unfold input. cbv zeta.
  destruct (Z.eqb_spec (state (play s)) STATE_DESCEND); [contradiction |].
  destruct (Z.eqb_spec (state (play s)) STATE_PAUSED); [contradiction |].
  cbn [andb]. eexists. split; [reflexivity |]. cbn. auto 10.
Qed.

Lemma tetris_pass_game_over ticks_rand now k s v :
  session_ok s -> video_ok v ->
  (next s = -1 -> 0 <= rand ticks_rand) ->
  state (play s) = STATE_GAME_OVER ->
  if restart (read_keyb k)
  then tetris_pass ticks_rand now k s v = Some (Returned (read_keyb k))
  else exists s' v',
         tetris_pass ticks_rand now k s v = Some (Running s' (read_keyb k) v')
         /\ session_ok s' /\ video_ok v'
         /\ play s' = play s /\ falling s' = falling s.
Proof.
  intros Hok Hv Hr Hs.
  pose proof (tetris_pass_ok ticks_rand now k s v Hok Hv Hr) as Hp.
  destruct (restart (read_keyb k)) eqn:Er; [exact Hp |].
  destruct Hp as (s' & v' & E & Hok' & Hv' & _).
  exists s', v'. split; [exact E |]. split; [exact Hok' |]. split; [exact Hv' |].
  unfold tetris_pass in E. cbv zeta in E. rewrite Er in E.
  set (s0 := {| play := play s; held := key_switch (read_keyb k) (held s);
                key_pressed := key_pressed s; down_pressed := down_pressed s;
                flash_lines_count := flash_lines_count s;
                next_grid := next_grid s; falling := falling s;
                next_tetrominoe := next_tetrominoe s;
                current := current s; next := next s;
                last_move := last_move s |}) in E.
  assert (Hok0 : session_ok s0) by exact Hok.
  destruct (pick_next_ok ticks_rand s0 Hok0 Hr)
    as (s1 & E1 & Hok1 & Hn1 & Hp1 & _ & Hf1 & _).
  rewrite E1 in E. cbn [mbind option_bind] in E.
  destruct states_differ as (S0 & S1 & S2 & S3 & S4 & S5).
  assert (Hs1 : state (play s1) = STATE_GAME_OVER) by (rewrite Hp1; exact Hs).
  destruct (input_frozen s1 (VGA v)) as (s2 & E2 & Hp2 & Hf2 & _ & Hn2 & _);
    [lia | lia |].
  rewrite E2 in E. cbn [mbind option_bind] in E.
  assert (Hok2 : session_ok s2).
  { destruct (input_ok s1 (VGA v) Hok1) as (s2' & vga' & E2' & H & _).
    rewrite E2 in E2'. injection E2' as <- _. exact H. }
  destruct Hv as [Hvc Hvn].
  destruct (state_step_ok now s2
              {| curr_frame := curr_frame v; next_frame := next_frame v;
                 VGA := VGA v |} Hok2 ltac:(lia) ltac:(split; assumption))
    as (s3 & v3 & E3 & _ & _ & _ & _ & _ & _ & _ & _ & Hfin).
  rewrite E3 in E. cbn [mbind option_bind] in E.
  pose proof (f_equal (fun r => match r with
                                | Some (Running x _ _) => x
                                | _ => s
                                end) E) as Es.
  cbv beta iota in Es. subst s'.
  rewrite Hfin by (left; rewrite Hp2; exact Hs1).
  split; [rewrite Hp2; exact Hp1 | rewrite Hf2; exact Hf1].
Qed.

Lemma read_keyb_consumes k : scancode (read_keyb k) = 0.
Proof.
  unfold read_keyb. cbv zeta.
  destruct (negb (Z.land (scancode k) 128 =? 0)); [reflexivity |].
  destruct (Z.land (scancode k) 128 =? 0); reflexivity.
Qed.

(** X19.  One pass through the main loop from a session that satisfies
    the loop invariant, with the frame buffers at their 2000 cells and,
    when a next piece has to be drawn, a tick count that is not negative
    as an [int]: the pass is defined for every keyboard byte and every
    time.  [tetris] returns exactly when the byte decodes to a pressed
    'r'; otherwise the loop goes on in a session that satisfies the
    invariant again, the next piece is chosen, the pending byte is
    consumed, the key flags are those after the key event, and the shown
    buffer equals the desired one. *)
Theorem tetris_pass_keeps_session (ticks_rand now : Z) (k : keyboard)
    (s : session) (v : video) :
  session_ok s -> video_ok v ->
  (next s = -1 -> 0 <= rand ticks_rand) ->
  exists r,
    tetris_pass ticks_rand now k s v = Some r
    /\ match r with
       | Returned k' =>
           k' = read_keyb k
           /\ keyb_char k' = chr "r" /\ keyb_pressed k' <> 0
       | Running s' k' v' =>
           k' = read_keyb k /\ scancode k' = 0
           /\ ~ (keyb_char k' = chr "r" /\ keyb_pressed k' <> 0)
           /\ session_ok s' /\ video_ok v'
           /\ curr_frame v' = next_frame v'
           /\ held s' = key_switch k' (held s)
       end.
Proof.
  intros Hok Hv Hr.
  pose proof (tetris_pass_ok ticks_rand now k s v Hok Hv Hr) as Hp.
  destruct (restart (read_keyb k)) eqn:Er.
  - eexists. split; [exact Hp |]. split; [reflexivity |].
    unfold restart in Er. apply andb_true_iff in Er as [Ec En].
    apply Z.eqb_eq in Ec. apply negb_true_iff, Z.eqb_neq in En. auto.
  - destruct Hp as (s' & v' & E & Hok' & Hv' & Hsync & Hheld).
    eexists. split; [exact E |]. split; [reflexivity |].
    split; [apply read_keyb_consumes |]. split; [| auto].
    intros [Ec En]. unfold restart in Er.
    apply andb_false_iff in Er as [Er|Er].
    + apply Z.eqb_neq in Er. contradiction.
    + apply negb_false_iff, Z.eqb_eq in Er. contradiction.
Qed.

Lemma tetris_pass_keeps_session_witness :
  exists s r,
    tetris_start 0 (replicate 200 7) (replicate 16 7) origin origin 0 = Some s
    /\ tetris_pass 3 50 (Keyboard 0x1E 0 0) s
         (Video (replicate 2000 0x0700) (replicate 2000 0x0700) []) = Some r
    /\ match r with
       | Returned _ => False
       | Running s' _ _ => session_ok s' /\ left (held s') = 1
       end.
Proof.
  destruct (tetris_start_ok 0 (replicate 200 7) (replicate 16 7) origin origin 0)
    as (s & Es & Hok & _); [reflexivity | reflexivity | vm_compute; discriminate |].
  destruct (tetris_pass_keeps_session 3 50 (Keyboard 0x1E 0 0) s
              (Video (replicate 2000 0x0700) (replicate 2000 0x0700) []) Hok)
    as (r & E & Hr).
  - split; reflexivity.
  - intros _. vm_compute. discriminate.
  - exists s, r. split; [exact Es |]. split; [exact E |].
    destruct r as [s' k' v'|k'].
    + destruct Hr as (-> & _ & _ & Hok' & _ & _ & ->). split; [exact Hok' |].
      reflexivity.
    + destruct Hr as (-> & Hc & _). vm_compute in Hc. discriminate Hc.
Defined.

(** X20.  The game from its start.  Whatever the arrays held before,
    whatever bytes the keyboard delivers and whenever the passes run, as
    long as the tick count read by [rand] is not negative as an [int]:
    the setting up of the locals and every pass of the main loop are
    defined (no array is accessed outside its bounds), and when the loop
    is still running the session satisfies the invariant; in particular the score, the lines and the
    level are within 99,999,999, 9,999 and 9, the fall delay is 90 minus
    ten times the level, the state is one of the six, and in the states
    with a falling piece that piece lies inside the grid. *)
Theorem tetris_never_undefined (ticks_count : Z) (g ng : list Z)
    (t nt : tetrominoe) (lm : Z) (k : keyboard) (v : video)
    (inputs : list (Z * Z * Z)) :
  wf_grid g -> length ng = 16%nat -> video_ok v ->
  0 <= rand ticks_count ->
  Forall (fun i => 0 <= rand i.1.2) inputs ->
  exists s0 r,
    tetris_start ticks_count g ng t nt lm = Some s0
    /\ tetris_passes inputs k s0 v = Some r
    /\ match r with
       | Returned _ => True
       | Running s _ v' =>
           session_ok s /\ video_ok v'
           /\ 0 <= score (play s) <= 99999999
           /\ 0 <= lines (play s) <= 9999
           /\ 0 <= level (play s) <= 9
           /\ fall_delay (play s) = 90 - 10 * level (play s)
           /\ 0 <= state (play s) <= 5
           /\ (state (play s) = STATE_DESCEND \/ state (play s) = STATE_PAUSED ->
               on_grid (falling s))
       end.
Proof.
  intros Hwf Hng Hv Hr Hin.
  destruct (tetris_start_ok ticks_count g ng t nt lm Hwf Hng Hr)
    as (s0 & E0 & Hok0 & _).
  destruct (tetris_passes_ok inputs k s0 v Hok0 Hv Hin) as (r & E & Hres).
  exists s0, r. split; [exact E0 |]. split; [exact E |].
  destruct r as [s k' v'|k']; [| exact I].
  destruct Hres as [Hok Hv']. split; [exact Hok |]. split; [exact Hv' |].
  pose proof Hok as (_ & _ & (Hl & Hs & Hlv & Hfd) & _ & Hst).
  pose proof (Z.div_pos (lines (play s)) 10 ltac:(lia) ltac:(lia)) as Hdiv.
  split; [exact Hs |]. split; [exact Hl |]. split; [lia |].
  split; [exact Hfd |].
  destruct states_differ as (S0 & S1 & S2 & S3 & S4 & S5).
  split.
  - destruct Hst as [[[E1|E1] _] | [(E1 & _) | [(E1 & _) | [(E1 & _) | E1]]]]; lia.
  - intros Hp. destruct (session_piece s Hok Hp) as (_ & (c & _ & Hm) & _).
    exact (marked_on_grid _ _ _ Hm).
Qed.

Lemma tetris_never_undefined_witness :
  exists s0 r,
    tetris_start 5 (replicate 200 7) (replicate 16 7) origin origin 0 = Some s0
    /\ tetris_passes [(0x1E, 9, 100); (0x9E, 9, 200); (0x11, 9, 300)]
         (Keyboard 0 0 0) s0
         (Video (replicate 2000 0x0700) (replicate 2000 0x0700) []) = Some r
    /\ match r with
       | Returned _ => True
       | Running s _ _ => 0 <= score (play s) <= 99999999
       end.
Proof.
  destruct (tetris_never_undefined 5 (replicate 200 7) (replicate 16 7)
              origin origin 0 (Keyboard 0 0 0)
              (Video (replicate 2000 0x0700) (replicate 2000 0x0700) [])
              [(0x1E, 9, 100); (0x9E, 9, 200); (0x11, 9, 300)])
    as (s0 & r & E0 & E & Hr).
  - reflexivity.
  - reflexivity.
  - split; reflexivity.
  - vm_compute. discriminate.
  - repeat (apply Forall_cons_iff; split; [vm_compute; discriminate |]).
    apply Forall_nil_iff. exact I.
  - exists s0, r. split; [exact E0 |]. split; [exact E |].
    destruct r; [tauto | exact I].
Defined.

(** X21.  The transitions of the [switch (state)], from a session that
    satisfies the invariant and has its next piece chosen.  The step is
    defined and:
    - from create-piece the game goes to descend, with the next piece at
      its spawn cells as the current one, no next piece and the drop flag
      cleared, or to game-over with the grid untouched;
    - from descend it stays in descend, or the piece has locked (piece
      and grid are as before) and the game goes to row-flash when the
      grid has a complete row and to create-piece when it has none;
    - from row-flash it stays there, the session unchanged or the flash
      counter one higher, or at counter 4 it goes to row-remove with the
      counter back at 0;
    - from row-remove it goes to create-piece, with no complete row left
      and every slot free;
    - game-over and paused are left by no step: the session is unchanged. *)
Theorem state_step_transitions (now : Z) (s : session) (v : video) :
  session_ok s -> 0 <= next s < 7 -> video_ok v ->
  exists s' v',
    state_step now s v = Some (s', v')
    /\ step_shape s s'
    /\ session_ok s'.
Proof.
  intros Hok Hn Hv.
  destruct (state_step_ok now s v Hok Hn Hv)
    as (s' & v' & E & Hok' & _ & _ & _ & Hshape).
  exists s', v'. auto.
Qed.

Lemma state_step_transitions_witness :
  let s := {| play := {| state := STATE_GAME_OVER; lines := 12; level := 1;
                         score := 480; fall_delay := 80;
                         grid := replicate 200 0x0400;
                         remove_lines := [-1; -1; -1; -1] |};
              held := Keys 0 0 1 0 0 0; key_pressed := 1; down_pressed := 0;
              flash_lines_count := 0; next_grid := replicate 16 0;
              falling := origin; next_tetrominoe := origin;
              current := 2; next := 4; last_move := 77 |} in
  exists v',
    state_step 1000 s (Video (replicate 2000 0) (replicate 2000 0) [])
    = Some (s, v').
Proof.
  intros s.
  destruct (state_step_transitions 1000 s
              (Video (replicate 2000 0) (replicate 2000 0) []))
    as (s' & v' & E & Hshape & _).
  - split; [reflexivity |]. split; [reflexivity |].
    split; [repeat split; cbn; lia |]. split; [right; cbn; lia |].
    do 4 right. reflexivity.
  - cbn. lia.
  - split; reflexivity.
  - exists v'. rewrite E.
    destruct Hshape as (_ & _ & _ & _ & Hfin).
    rewrite (Hfin (or_introl eq_refl)). reflexivity.
Defined.

(** X22.  Game over is final.  From a session in the game-over state, any
    number of passes, whatever keys arrive, is defined and either
    [tetris] has returned (a pressed 'r') or the loop is still in a
    session whose state (game over), grid, score, lines and level, and
    whose last piece, are the ones it had: no key moves anything any
    more. *)
Theorem game_over_is_final (inputs : list (Z * Z * Z)) (k : keyboard)
    (s : session) (v : video) :
  session_ok s -> video_ok v ->
  state (play s) = STATE_GAME_OVER ->
  Forall (fun i => 0 <= rand i.1.2) inputs ->
  exists r,
    tetris_passes inputs k s v = Some r
    /\ match r with
       | Returned _ => True
       | Running s' _ _ => play s' = play s /\ falling s' = falling s
       end.
Proof.
  revert k s v.
  induction inputs as [|[[byte ticks_rand] now] inputs IH];
    intros k s v Hok Hv Hs Hin; cbn [tetris_passes].
  - eexists. split; [reflexivity |]. split; reflexivity.
  - apply Forall_cons_iff in Hin as [Hr Hin]. cbn in Hr.
    destruct (quit (held s) =? 0);
      [| eexists; split; [reflexivity | split; reflexivity]].
    pose proof (tetris_pass_game_over ticks_rand now
                  {| scancode := byte; keyb_char := keyb_char k;
                     keyb_pressed := keyb_pressed k |} s v Hok Hv
                  (fun _ => Hr) Hs) as Hp.
    destruct (restart _).
    + rewrite Hp. cbn [mbind option_bind].
      eexists. split; [reflexivity | exact I].
    + destruct Hp as (s' & v' & -> & Hok' & Hv' & Hplay & Hfall).
      cbn [mbind option_bind].
      destruct (IH (read_keyb {| scancode := byte; keyb_char := keyb_char k;
                                 keyb_pressed := keyb_pressed k |}) s' v' Hok' Hv')
        as (r & E & Hres); [rewrite Hplay; exact Hs | exact Hin |].
      exists r. split; [exact E |].
      destruct r; [| exact I]. rewrite <- Hplay, <- Hfall. exact Hres.
Qed.

Lemma game_over_is_final_witness :
  let s := {| play := {| state := STATE_GAME_OVER; lines := 12; level := 1;
                         score := 480; fall_delay := 80;
                         grid := replicate 200 0x0400;
                         remove_lines := [-1; -1; -1; -1] |};
              held := Keys 0 0 0 0 0 0; key_pressed := 0; down_pressed := 0;
              flash_lines_count := 0; next_grid := replicate 16 0;
              falling := origin; next_tetrominoe := origin;
              current := 2; next := 4; last_move := 77 |} in
  exists r,
    tetris_passes [(0x1E, 0, 500); (0x9E, 0, 600); (0x1F, 0, 700)]
      (Keyboard 0 0 0) s (Video (replicate 2000 0) (replicate 2000 0) [])
    = Some r
    /\ match r with
       | Returned _ => True
       | Running s' _ _ => play s' = play s /\ falling s' = falling s
       end.
Proof.
  intros s. apply game_over_is_final.
  - split; [reflexivity |]. split; [reflexivity |].
    split; [repeat split; cbn; lia |]. split; [right; cbn; lia |].
    do 4 right. reflexivity.
  - split; reflexivity.
  - reflexivity.
  - repeat (apply Forall_cons_iff; split; [vm_compute; discriminate |]).
    apply Forall_nil_iff. exact I.
Defined.

(** X23.  A key acts once.  While the latch [key_pressed] is set and one
    of the five keys is still held, or when no key is held at all, the
    key dispatch moves nothing: the state, the grid, the piece and the
    display are as before.  The latch is cleared only when all five keys
    are released, and the drop flag when the down key is. *)
Theorem input_needs_fresh_key (s : session) (vga : list (nat * Z)) :
  let h := held s in
  let released :=
    (left h =? 0) && (right h =? 0) && (up h =? 0) && (down h =? 0)
    && (pause h =? 0) in
  released = true \/ key_pressed s <> 0 ->
  exists s',
    input s vga = Some (s', vga)
    /\ play s' = play s /\ falling s' = falling s /\ held s' = held s
    /\ key_pressed s' = (if released then 0 else key_pressed s)
    /\ down_pressed s' = (if down h =? 0 then 0 else down_pressed s).
Proof.
  intros h released Hq. unfold input. cbv zeta. fold h. fold released.
  assert (Hno : (((if released then 0 else key_pressed s) =? 0)
                 && (negb (left h =? 0) || negb (right h =? 0)
                     || negb (up h =? 0) || negb (down h =? 0)
                     || negb (pause h =? 0))) = false).
  { destruct released eqn:Er.
    - unfold released in Er.
      repeat (apply andb_true_iff in Er as [Er ?]).
      repeat match goal with H : (_ =? 0) = true |- _ => rewrite H; clear H end.
      reflexivity.
    - destruct Hq as [Hq|Hq]; [discriminate Hq |].
      apply Z.eqb_neq in Hq. rewrite Hq. reflexivity. }
  assert (Hnp : (((if released then 0 else key_pressed s) =? 0)
                 && negb (pause h =? 0)) = false).
  { apply andb_false_iff. apply andb_false_iff in Hno as [Hno|Hno]; [auto |].
    right. repeat (apply orb_false_iff in Hno as [Hno ?]). assumption. }
  rewrite <- !andb_assoc, Hno, Hnp, !andb_false_r.
  eexists. split; [reflexivity |]. cbn. auto.
Qed.

Lemma input_needs_fresh_key_witness :
  let s := {| play := {| state := STATE_DESCEND; lines := 0; level := 0;
                         score := 0; fall_delay := 90;
                         grid := paint (Tet (4,1) (5,1) (6,1) (7,1)) 0x0700 empty_grid;
                         remove_lines := [-1; -1; -1; -1] |};
              held := Keys 0 0 1 0 0 0; key_pressed := 1; down_pressed := 0;
              flash_lines_count := 0; next_grid := replicate 16 0;
              falling := Tet (4,1) (5,1) (6,1) (7,1); next_tetrominoe := origin;
              current := 0; next := 4; last_move := 77 |} in
  input s [] = Some (s, []).
Proof.
  intros s.
  destruct (input_needs_fresh_key s []) as (s' & E & _).
  - right. cbn. discriminate.
  - rewrite E. vm_compute in E. injection E as <-. reflexivity.
Defined.

(** X24.  The next piece needs a tick count that is not negative as an
    [int].  When the count, taken as an [int], is negative and not a
    multiple of 7, [rand() % 7] is negative, the piece array is not set
    up and [block_colours] is read before its first element: picking the
    next piece has no defined result.  With a count that is not negative
    it is defined and the next piece is one of the seven. *)
Theorem pick_next_needs_small_ticks (ticks_count : Z) (s : session) :
  next s = -1 ->
  (rand ticks_count < 0 -> Z.rem (rand ticks_count) 7 <> 0 ->
   pick_next ticks_count s = None)
  /\ (0 <= rand ticks_count -> length (next_grid s) = 16%nat ->
      exists s', pick_next ticks_count s = Some s'
                 /\ next s' = Z.rem (rand ticks_count) 7
                 /\ 0 <= next s' < 7
                 /\ play s' = play s /\ falling s' = falling s).
Proof.
  intros Hn. unfold pick_next. rewrite Hn. change (-1 =? -1) with true. cbv iota.
  split.
  - intros Hneg Hrem.
    pose proof (Z.rem_nonpos (rand ticks_count) 7 ltac:(lia) ltac:(lia)) as Hb.
    unfold create_next_tetrominoe.
    destruct (Z.leb_spec 0 (Z.rem (rand ticks_count) 7)); [lia |].
    reflexivity.
  - intros Hpos Hlen.
    assert (Hb : 0 <= Z.rem (rand ticks_count) 7 < 7)
      by (apply Z.rem_bound_pos; lia).
    destruct (create_next_tetrominoe_defined (next_tetrominoe s) (next_grid s)
                _ Hlen Hb) as (nt & ng & E & _).
    rewrite E. cbn [mbind option_bind].
    eexists. split; [reflexivity |]. cbn. auto.
Qed.

Lemma pick_next_needs_small_ticks_witness :
  let s := {| play := {| state := STATE_DESCEND; lines := 0; level := 0;
                         score := 0; fall_delay := 90;
                         grid := paint (Tet (4,1) (5,1) (6,1) (7,1)) 0x0700 empty_grid;
                         remove_lines := [-1; -1; -1; -1] |};
              held := Keys 0 0 0 0 0 0; key_pressed := 0; down_pressed := 0;
              flash_lines_count := 0; next_grid := replicate 16 0;
              falling := Tet (4,1) (5,1) (6,1) (7,1); next_tetrominoe := origin;
              current := 0; next := -1; last_move := 0 |} in
  pick_next (2 ^ 31) s = None.
Proof.
  intros s.
  destruct (pick_next_needs_small_ticks (2 ^ 31) s eq_refl) as [H _].
  apply H; vm_compute; [reflexivity | discriminate].
Defined.


(** ** Initialisation and the timer *)

Lemma pit_set_frequency_appends hz io :
  pit_set_frequency hz io = io ++ pit_set_frequency hz [].
Proof.
  unfold pit_set_frequency, outb. destruct (hz =? 0).
  - rewrite app_nil_r. reflexivity.
  - cbn [app]. rewrite <- !app_assoc. reflexivity.
Qed.

(** X25.  After [pit_init] and [keyb_init] on the 16-entry table,
    whatever it held: interrupts are enabled again; the ports have
    received the ten bytes of the controller remap (vector offsets 0x20
    and 0x28, the masks read at the start written back last) and then the
    timer's divisor; IRQ 0 dispatches to the tick handler, which adds one
    to the tick counter (modulo 2^64) and acknowledges the master
    controller; IRQ 1 dispatches to the keyboard handler, which stores
    the byte at port 0x60 in [scancode] and acknowledges the master
    controller; the other fourteen lines dispatch as they did before. *)
Theorem irq_wiring (hz a1 a2 : Z)
    (tbl : list (option (machine -> machine))) (m : machine) :
  length tbl = 16%nat ->
  let '(tbl1, m1) := pit_init hz a1 a2 tbl m in
  let '(tbl2, m2) := keyb_init tbl1 m1 in
  interrupts m2 = true
  /\ ticks m2 = ticks m /\ kbd m2 = kbd m
  /\ ports m2
     = ports m
       ++ [(0x20, 0x11); (0xA0, 0x11); (0x21, 0x20); (0xA1, 0x28);
           (0x21, 0x04); (0xA1, 0x02); (0x21, 0x01); (0xA1, 0x01);
           (0x21, a1); (0xA1, a2)]
       ++ pit_set_frequency hz []
  /\ forall x : machine,
       irq_dispatch 0 tbl2 x = Some (pit_tick x)
       /\ ticks (pit_tick x) = (ticks x + 1) mod 2 ^ 64
       /\ ports (pit_tick x) = ports x ++ [(0x20, 0x20)]
       /\ kbd (pit_tick x) = kbd x
       /\ irq_dispatch 1 tbl2 x = Some (keyb x)
       /\ scancode (kbd (keyb x)) = port_60 x
       /\ ports (keyb x) = ports x ++ [(0x20, 0x20)]
       /\ ticks (keyb x) = ticks x
       /\ forall j, 2 <= j <= 15 -> irq_dispatch j tbl2 x = irq_dispatch j tbl x.
Proof.
  intros Hlen. unfold pit_init, keyb_init. cbv zeta. cbn [interrupts ticks kbd ports set_interrupts set_ports].
  split; [reflexivity |]. split; [reflexivity |]. split; [reflexivity |].
  split.
  - rewrite pit_set_frequency_appends. unfold pic_remap, outb.
    rewrite <- !app_assoc. reflexivity.
  - intros x.
    assert (R0 : register_irq_handler 0 (Some pit_tick) tbl
                 = <[ 0%nat := Some pit_tick ]> tbl) by reflexivity.
    assert (R1 : forall t : list (option (machine -> machine)),
              register_irq_handler 1 (Some keyb) t = <[ 1%nat := Some keyb ]> t)
      by reflexivity.
    rewrite R1, R0.
    split.
    { rewrite (dispatch_lookup 0 _ (Some pit_tick)); [reflexivity | lia |].
      change (Z.to_nat 0) with 0%nat.
      rewrite list_lookup_insert_ne by lia.
      apply list_lookup_insert_eq. lia. }
    split; [reflexivity |]. split; [reflexivity |]. split; [reflexivity |].
    split.
    { rewrite (dispatch_lookup 1 _ (Some keyb)); [reflexivity | lia |].
      change (Z.to_nat 1) with 1%nat.
      apply list_lookup_insert_eq. rewrite length_insert. lia. }
    split; [reflexivity |]. split; [reflexivity |]. split; [reflexivity |].
    intros j Hj. unfold irq_dispatch.
    destruct ((0 <=? j) && (j <? 16)); [| reflexivity].
    cbn [mbind option_bind].
    rewrite !list_lookup_insert_ne by lia. reflexivity.
Qed.

Lemma irq_wiring_witness :
  let m := Machine 41 (Keyboard 0 0 0) 0x1E [] false in
  let '(tbl1, m1) := pit_init 100 0xB8 0x8E (replicate 16 None) m in
  let '(tbl2, m2) := keyb_init tbl1 m1 in
  ports m2
  = [(0x20, 0x11); (0xA0, 0x11); (0x21, 0x20); (0xA1, 0x28);
     (0x21, 0x04); (0xA1, 0x02); (0x21, 0x01); (0xA1, 0x01);
     (0x21, 0xB8); (0xA1, 0x8E); (0x43, 0x34); (0x40, 0x9B); (0x40, 0x2E)]
  /\ (ticks <$> irq_dispatch 0 tbl2 m2) = Some 42
  /\ (scancode ∘ kbd <$> irq_dispatch 1 tbl2 m2) = Some 0x1E.
Proof.
  intros m.
  pose proof (irq_wiring 100 0xB8 0x8E (replicate 16 None) m eq_refl) as H.
  destruct (pit_init 100 0xB8 0x8E (replicate 16 None) m) as [tbl1 m1] eqn:E1.
  destruct (keyb_init tbl1 m1) as [tbl2 m2] eqn:E2.
  destruct H as (_ & Ht & _ & Hp & Hx).
  split; [rewrite Hp; reflexivity |].
  destruct (Hx m2) as (H0 & T0 & _ & _ & H1 & S1 & _).
  rewrite H0, H1. cbn [fmap option_fmap option_map compose].
  rewrite T0, S1, Ht.
  unfold keyb_init in E2. injection E2 as _ <-.
  unfold pit_init in E1. injection E1 as _ <-. split; reflexivity.
Defined.

(** The tick handler run [n] times. *)
Lemma ticks_run (n : nat) : forall t io,
  0 <= t < 2 ^ 64 ->
  Nat.iter n (fun '(t, io) => pit_tick_handler_c t io) (t, io)
  = ((t + Z.of_nat n) mod 2 ^ 64, io ++ replicate n (PIC1_CMD, 0x20)).
Proof.
  induction n as [|n IH]; intros t io Ht.
  - cbn [Nat.iter replicate Z.of_nat]. rewrite app_nil_r, Z.add_0_r.
    rewrite Z.mod_small by exact Ht. reflexivity.
  - rewrite Nat.iter_succ, IH by exact Ht.
    unfold pit_tick_handler_c, pic_send_eoi, outb.
    change (0 >=? 8) with false. cbv iota. f_equal.
    + rewrite Zplus_mod_idemp_l. f_equal. lia.
    + rewrite <- app_assoc. f_equal.
      clear IH. induction n as [|n IHn]; [reflexivity |].
      cbn [replicate app] in *. f_equal. exact IHn.
Qed.

(** X26.  The fall timer measures ticks.  When the tick handler has run
    [n] times (fewer than 2^64) since [last_move] was taken from the
    counter, [timediff], the difference [now - last_move] in 64-bit
    unsigned arithmetic, is [n], also when the counter has wrapped round
    in between; each tick was acknowledged to the master controller
    once. *)
Theorem timediff_counts_ticks (n : nat) (last_move : Z) (io : list (Z * Z)) :
  0 <= last_move < 2 ^ 64 ->
  Z.of_nat n < 2 ^ 64 ->
  let '(now, io') :=
    Nat.iter n (fun '(t, io) => pit_tick_handler_c t io) (last_move, io) in
  0 <= now < 2 ^ 64
  /\ to_uint64 (now - last_move) = Z.of_nat n
  /\ io' = io ++ replicate n (0x20, 0x20).
Proof.
  intros Hl Hn. rewrite ticks_run by exact Hl.
  pose proof (Z.mod_pos_bound (last_move + Z.of_nat n) (2 ^ 64) ltac:(lia)) as Hb.
  split; [exact Hb |]. split; [| reflexivity].
  unfold to_uint64. rewrite Zminus_mod_idemp_l.
  replace (last_move + Z.of_nat n - last_move) with (Z.of_nat n) by lia.
  apply Z.mod_small. lia.
Qed.

Lemma timediff_counts_ticks_witness :
  let '(now, io') :=
    Nat.iter 3 (fun '(t, io) => pit_tick_handler_c t io) (2 ^ 64 - 2, []) in
  now = 1 /\ to_uint64 (now - (2 ^ 64 - 2)) = 3.
Proof.
  pose proof (timediff_counts_ticks 3 (2 ^ 64 - 2) [] ltac:(lia) ltac:(lia)) as H.
  destruct (Nat.iter 3 _ _) as [now io'] eqn:E.
  destruct H as (_ & H & _). split; [| exact H].
  vm_compute in E. injection E as <- _. reflexivity.
Defined.
